(** * CMS Open Data ttbar analysis pipeline

    A shallow embedding of [ttbar_analysis_pipeline.py]: the feature
    extractor [get_features], the event selection and region split of
    [TtbarAnalysis.process], the per-event choice of the best jet
    permutation, the parity split between the two classifiers, and the
    I/O-only routine [only_do_IO]; and of the script [GetIOBranches.py]
    that selects the branches that routine reads.

    Arrays are lists, jagged (awkward) arrays are lists of lists, Python
    exceptions are [None] (or an explicit exception value), and floating
    point numbers are the IEEE-754 values of [SpecFloat]. *)

From Stdlib Require Import ZArith Bool Lia String Ascii Permutation.
From Stdlib.Floats Require Import SpecFloat.
From stdpp Require Import gmap strings list option.

(** ** Floating point *)

Module Float.

(** An IEEE-754 value: zero, infinity, NaN or [(-1)^s * m * 2^e].  The
    kinematic branches of the input files are single precision; Python
    floats and the numpy arrays created by the pipeline are double
    precision.  Comparisons read the two operands in one format. *)
Abbreviation float := spec_float.

Definition f32_sub : float -> float -> float := SFsub 24 128.
Definition f32_add : float -> float -> float := SFadd 24 128.
Definition f32_mul : float -> float -> float := SFmul 24 128.
Definition f32_sqrt : float -> float := SFsqrt 24 128.
Definition f64_add : float -> float -> float := SFadd 53 1024.
Definition f64_mul : float -> float -> float := SFmul 53 1024.
Definition fabs : float -> float := SFabs.

(** [a > b] and [a >= b]; both are false as soon as an operand is NaN. *)
Definition fgt (a b : float) : bool := SFltb b a.
Definition fge (a b : float) : bool := SFleb b a.
Definition feq (a b : float) : bool := SFeqb a b.

Definition is_nan (a : float) : bool :=
  match a with S754_nan => true | _ => false end.

(** Storing a value into an array of another dtype rounds it to that
    format (to nearest, ties to even). *)
Definition round_to (prec emax : Z) (x : float) : float :=
  match x with
  | S754_finite s m e => binary_round prec emax s m e
  | _ => x
  end.
Definition to_float64 : float -> float := round_to 53 1024.
Definition to_float32 : float -> float := round_to 24 128.

(** Literals of the source, in the format they are compared in. *)
Definition f32_25 : float := S754_finite false 13107200 (-19).
Definition f32_0_5 : float := S754_finite false 8388608 (-24).
Definition f64_0 : float := S754_zero false.
Definition f64_1 : float := S754_finite false 4503599627370496 (-52).
Definition f64_1_03 : float := S754_finite false 4638707616191611 (-52).
Definition f64_0_05 : float := S754_finite false 7205759403792794 (-57).
Definition f64_2_7 : float := S754_finite false 6079859496950170 (-51).
Definition f64_4 : float := S754_finite false 4503599627370496 (-50).
Definition f64_15 : float := S754_finite false 8444249301319680 (-49).
Definition f64_25 : float := S754_finite false 7036874417766400 (-48).
Definition f64_50 : float := S754_finite false 7036874417766400 (-47).

(** Small integers as single and double precision values (for examples). *)
Definition f32_of_Z (z : Z) : float := binary_normalize 24 128 z 0 false.
Definition f64_of_Z (z : Z) : float := binary_normalize 53 1024 z 0 false.

End Float.
Export Float.

(** ** numpy / awkward primitives *)

Module Array.

(** [xs[mask]] for a boolean mask of the same length. *)
Definition mask_select {A} (xs : list A) (mask : list bool) : list A :=
  fst <$> List.filter snd (zip xs mask).

(** [ak.sum(mask)] / [np.count_nonzero]: the number of [True] entries. *)
Definition count_true (mask : list bool) : nat :=
  length (List.filter id mask).

(** [ak.unflatten(xs, counts)]. *)
Fixpoint unflatten {A} (xs : list A) (counts : list nat) : list (list A) :=
  match counts with
  | [] => []
  | c :: cs => take c xs :: unflatten (drop c xs) cs
  end.

(** [np.repeat(xs, counts)]. *)
Definition np_repeat {A} (xs : list A) (counts : list nat) : list A :=
  concat (zip_with (fun x c => replicate c x) xs counts).

(** [np.invert(mask)]. *)
Definition np_invert (mask : list bool) : list bool := negb <$> mask.

(** [np.flatnonzero(mask)]: the positions a boolean mask selects, counted
    from [i]. *)
Fixpoint mask_indices_from (i : nat) (mask : list bool) : list nat :=
  match mask with
  | [] => []
  | true :: m => i :: mask_indices_from (S i) m
  | false :: m => mask_indices_from (S i) m
  end.

(** [arr[mask] = vals]: the selected positions receive the values in
    order; numpy raises when the number of values differs from the
    number of selected positions, or the mask from the array.  (A lone
    value is broadcast by numpy to several positions; the program
    assigns one value per selected row, see [predict_even_length].) *)
Fixpoint mask_assign {A} (arr : list A) (mask : list bool) (vals : list A)
  : option (list A) :=
  match arr, mask with
  | [], [] => match vals with [] => Some [] | _ => None end
  | a :: arr', true :: mask' =>
      match vals with
      | v :: vals' => cons v <$> mask_assign arr' mask' vals'
      | [] => None
      end
  | a :: arr', false :: mask' => cons a <$> mask_assign arr' mask' vals
  | _, _ => None
  end.

(** [ak.argmax] over one list: the reducer starts from the first entry
    and moves only to a strictly greater one. *)
Fixpoint argmax_from (best : nat) (bv : float) (i : nat) (xs : list float)
  : nat :=
  match xs with
  | [] => best
  | x :: xs' =>
      if fgt x bv then argmax_from i x (S i) xs'
      else argmax_from best bv (S i) xs'
  end.
Definition argmax (xs : list float) : option nat :=
  match xs with
  | [] => None
  | x :: xs' => Some (argmax_from 0 x 1 xs')
  end.

End Array.
Export Array.

(** ** Event data *)

Module Events.

(** One jet of [events.Jet], with the attributes the pipeline reads. *)
Record Jet_t := mkJet {
  pt : float; eta : float; phi : float; mass : float;
  btagCSVV2 : float; qgl : float }.

(** One electron or muon. *)
Record Lepton_t := mkLepton {
  lpt : float; leta : float; lphi : float; lmass : float }.

(** One event of a batch: [events.Electron], [events.Muon], [events.Jet]
    and the event number [events.event]. *)
Record Event := mkEvent {
  Electron : list Lepton_t;
  Muon : list Lepton_t;
  Jet : list Jet_t;
  event : Z }.

(** The external interfaces the pipeline calls into. *)

(** Four-vector arithmetic of the vector behaviours attached to jets and
    leptons: [a + b], [.mass] and [.pt] of a sum. *)
Class Kinematics := {
  LorentzVector : Type;
  p4_of_jet : Jet_t -> LorentzVector;
  p4_of_lepton : Lepton_t -> LorentzVector;
  p4_add : LorentzVector -> LorentzVector -> LorentzVector;
  p4_mass : LorentzVector -> float;
  p4_pt : LorentzVector -> float }.

(** [np.random.normal(loc, scale)]: the [k]-th draw of one call, for mean
    [loc[k]] and standard deviation [scale]. *)
Class Rng := { normal_draw : nat -> float -> float -> float }.

(** The two trained classifiers behind
    [model.predict_proba(power.fit_transform(X))[:, 1]], on an array [X]
    that has rows: [None] when the transform or the model raises, and
    one probability per row of [X] when they return ([predict_proba]
    gives an array of shape (n_samples, n_classes)).  The power
    transform raises on an array without rows, whatever the model (see
    [transformed_scores]). *)
Class Classifier := {
  predict_even : list (list float) -> option (list float);
  predict_odd : list (list float) -> option (list float);
  predict_even_length :
    forall X scores, predict_even X = Some scores -> length scores = length X;
  predict_odd_length :
    forall X scores, predict_odd X = Some scores -> length scores = length X }.

End Events.
Export Events.

(** ** Event selection and regions ([TtbarAnalysis.process]) *)

Module Selection.

(** The three jet-pT variations of the loop over [pt_variations]. *)
Inductive pt_var := pt_nominal | pt_scale_up | pt_res_up.

Definition pt_var_name (v : pt_var) : string :=
  match v with
  | pt_nominal => "pt_nominal"
  | pt_scale_up => "pt_scale_up"
  | pt_res_up => "pt_res_up"
  end.

(** ["res" in pt_var]. *)
Definition has_res (v : pt_var) : bool :=
  match String.index 0 "res" (pt_var_name v) with
  | Some _ => true
  | None => false
  end.

(** One entry of the column [events[pt_var]]: a number per event for the
    nominal and scale variations, a number per jet for the resolution. *)
Inductive modifier := scalar (x : float) | per_jet (xs : list float).

(** [jet_pt_resolution(pt)]. *)
Definition jet_pt_resolution `{Rng} (pt : list (list float))
  : list (list float) :=
  let counts := length <$> pt in
  let pt_flat := concat pt in
  let resolution_variation :=
    imap (fun k loc => normal_draw k loc f64_0_05)
         ((fun _ => f64_1) <$> pt_flat) in
  unflatten resolution_variation counts.

(** [events[pt_var]] after the three assignments
    [events["pt_nominal"] = 1.0], [events["pt_scale_up"] = 1.03],
    [events["pt_res_up"] = jet_pt_resolution(events.Jet.pt)]. *)
Definition events_pt_var `{Rng} (events : list Event) (v : pt_var)
  : list modifier :=
  match v with
  | pt_nominal => (fun _ => scalar f64_1) <$> events
  | pt_scale_up => (fun _ => scalar f64_1_03) <$> events
  | pt_res_up =>
      per_jet <$> jet_pt_resolution ((fun e => pt <$> Jet e) <$> events)
  end.

(** [pts * m] with awkward's broadcasting, in double precision. *)
Definition bmul (pts : list float) (m : modifier) : list float :=
  match m with
  | scalar x => (fun p => f64_mul p x) <$> pts
  | per_jet xs => zip_with f64_mul pts xs
  end.

(** [m[mask]] for a per-jet entry. *)
Definition modifier_select (m : modifier) (mask : list bool) : modifier :=
  match m with
  | scalar x => scalar x
  | per_jet xs => per_jet (mask_select xs mask)
  end.

Definition B_TAG_THRESHOLD : float := f32_0_5.

Section PerEvent.
Variables (v : pt_var) (e : Event) (m : modifier).

(** [events.Electron[events.Electron.pt > 25]], same for muons. *)
Definition selected_electrons : list Lepton_t :=
  mask_select (Electron e) ((fun l => fgt (lpt l) f32_25) <$> Electron e).
Definition selected_muons : list Lepton_t :=
  mask_select (Muon e) ((fun l => fgt (lpt l) f32_25) <$> Muon e).

(** [jet_filter = (events.Jet.pt * events[pt_var]) > 25]. *)
Definition jet_filter : list bool :=
  (fun x => fgt x f64_25) <$> bmul (pt <$> Jet e) m.
Definition selected_jets : list Jet_t := mask_select (Jet e) jet_filter.

(** [events[pt_var] if "res" not in pt_var else events[pt_var][jet_filter]]. *)
Definition pt_var_modifier : modifier :=
  if negb (has_res v) then m else modifier_select m jet_filter.

(** The three conjuncts of [event_filters]; [ak.count] counts the
    entries of a list, [ak.sum] of a boolean list the true ones. *)
Definition event_filter : bool :=
  (length (lpt <$> selected_electrons) + length (lpt <$> selected_muons)
     =? 1)
  && (4 <=? length (bmul (pt <$> selected_jets) pt_var_modifier))
  && (1 <=? count_true
              ((fun j => fge (btagCSVV2 j) B_TAG_THRESHOLD)
                 <$> selected_jets)).
End PerEvent.

(** The two regions of the histogram's [region] axis. *)
Inductive region := R4j1b | R4j2b.
Definition region_name (r : region) : string :=
  match r with R4j1b => "4j1b" | R4j2b => "4j2b" end.

(** [region_filter], on the selected jets of one selected event:
    [sum(btag >= T) == 1] for 4j1b, [sum(btag > T) >= 2] for 4j2b. *)
Definition region_filter (r : region) (jets : list Jet_t) : bool :=
  match r with
  | R4j1b =>
      count_true ((fun j => fge (btagCSVV2 j) B_TAG_THRESHOLD) <$> jets)
        =? 1
  | R4j2b =>
      2 <=? count_true
              ((fun j => fgt (btagCSVV2 j) B_TAG_THRESHOLD) <$> jets)
  end.

(** The columns of one pass of the loop over [pt_variations]. *)
Section Batch.
Context `{Rng}.
Variables (events : list Event) (v : pt_var).

Definition event_filters : list bool :=
  zip_with (event_filter v) events (events_pt_var events v).

(** [selected_jets = events.Jet[jet_filter][event_filters]] and the
    columns filtered along with it. *)
Definition selected_jets_col : list (list Jet_t) :=
  mask_select (zip_with selected_jets events (events_pt_var events v))
              event_filters.
Definition selected_electrons_col : list (list Lepton_t) :=
  mask_select (selected_electrons <$> events) event_filters.
Definition selected_muons_col : list (list Lepton_t) :=
  mask_select (selected_muons <$> events) event_filters.
Definition even_col : list bool :=
  mask_select ((fun e => (event e mod 2 =? 0)%Z) <$> events) event_filters.

(** [events[pt_var][jet_filter][event_filters]] or
    [events[event_filters][pt_var]]: the modifier of the selected jets
    of the selected events. *)
Definition selected_modifier_col : list modifier :=
  mask_select
    (zip_with (pt_var_modifier v) events (events_pt_var events v))
    event_filters.

Definition region_filters (r : region) : list bool :=
  region_filter r <$> selected_jets_col.

(** The columns of region [r]: [selected_jets[region_filter]] and the
    like. *)
Definition selected_jets_region (r : region) : list (list Jet_t) :=
  mask_select selected_jets_col (region_filters r).
Definition selected_electrons_region (r : region) : list (list Lepton_t) :=
  mask_select selected_electrons_col (region_filters r).
Definition selected_muons_region (r : region) : list (list Lepton_t) :=
  mask_select selected_muons_col (region_filters r).
Definition even_region (r : region) : list bool :=
  mask_select even_col (region_filters r).
Definition pt_var_modifier_region (r : region) : list modifier :=
  mask_select selected_modifier_col (region_filters r).

(** The positions, in the batch, of the events that reach region [r]:
    the column [0, 1, 2, ...] carried through the two filters. *)
Definition region_indices (r : region) : list nat :=
  mask_select (mask_select (seq 0 (length events)) event_filters)
              (region_filters r).
End Batch.

(** The batch read row by row: the position of an event, the event and
    its entry of [events[pt_var]]; the rows that pass the selection mask
    and the mask of region [r]. *)
Definition batch_rows `{Rng} (events : list Event) (v : pt_var)
  : list (nat * (Event * modifier)) :=
  zip (seq 0 (length events)) (zip events (events_pt_var events v)).
Definition row_passes (v : pt_var) (x : nat * (Event * modifier)) : bool :=
  event_filter v x.2.1 x.2.2.
Definition row_jets (x : nat * (Event * modifier)) : list Jet_t :=
  selected_jets x.2.1 x.2.2.
Definition region_rows `{Rng} (events : list Event) (v : pt_var)
  (r : region) : list (nat * (Event * modifier)) :=
  List.filter (fun x => region_filter r (row_jets x))
              (List.filter (row_passes v) (batch_rows events v)).

(** The selection in the words of the specification: exactly one lepton
    with pT > 25, at least four jets with pT times the variation factor
    > 25, at least one of those jets with a b-tag score >= 0.5. *)
Definition jets_with_factor (e : Event) (m : modifier)
  : list (Jet_t * float) :=
  match m with
  | scalar x => (fun j => (j, x)) <$> Jet e
  | per_jet xs => zip (Jet e) xs
  end.

Definition passes_pt (jf : Jet_t * float) : bool :=
  fgt (f64_mul (pt jf.1) jf.2) f64_25.

Definition selection_spec (e : Event) (m : modifier) : Prop :=
  length (List.filter (fun l => fgt (lpt l) f32_25) (Electron e ++ Muon e))
    = 1
  /\ 4 <= length (List.filter passes_pt (jets_with_factor e m))
  /\ 1 <= length (List.filter
                    (fun jf => fge (btagCSVV2 jf.1) f32_0_5)
                    (List.filter passes_pt (jets_with_factor e m))).

End Selection.
Export Selection.

(** ** The feature extractor ([get_features]) *)

Module Features.

(** One entry of [permutations_dict[n]]: the indices of the jets assigned
    to the two W jets, the hadronic-top b jet and the leptonic-top b jet
    ([perms[..., 0]] to [perms[..., 3]]). *)
Record perm := mkPerm { i0 : nat; i1 : nat; i2 : nat; i3 : nat }.

(** A two-dimensional numpy array with its dtype and shape. *)
Inductive dtype := float64 | float32.
Record ndarray := mkArray {
  nd_dtype : dtype;
  nd_shape : nat * nat;
  nd_data : list (list float) }.

Definition cast (d : dtype) : float -> float :=
  match d with float64 => to_float64 | float32 => to_float32 end.

(** [np.zeros((n, c))]. *)
Definition np_zeros (n c : nat) : ndarray :=
  mkArray float64 (n, c) (replicate n (replicate c f64_0)).

(** [a[:, k] = col]: raises unless [k] is a column of [a] and [col] has
    one value per row; the values are stored in the dtype of [a]. *)
Definition set_column (k : nat) (col : list float) (a : ndarray)
  : option ndarray :=
  if decide (k < (nd_shape a).2 /\ length col = (nd_shape a).1) then
    Some (mkArray (nd_dtype a) (nd_shape a)
            (zip_with (fun row x => <[k := cast (nd_dtype a) x]> row)
                      (nd_data a) col))
  else None.

(** [a.astype(d)]. *)
Definition astype (d : dtype) (a : ndarray) : ndarray :=
  mkArray d (nd_shape a) ((fun row : list float => cast d <$> row) <$> nd_data a).

(** Element-wise operations on jagged arrays of one shape. *)
Definition jmap {A B} (f : A -> B) (xss : list (list A)) : list (list B) :=
  (fun xs : list A => f <$> xs) <$> xss.
Definition jmap2 {A B C} (f : A -> B -> C)
  (xss : list (list A)) (yss : list (list B)) : list (list C) :=
  zip_with (zip_with f) xss yss.

(** Broadcasting of a flat array, one value per event, against a jagged
    array: raises unless there are as many values as events. *)
Definition broadcast {A B} (xs : list A) (yss : list (list B))
  : option (list (list A)) :=
  if decide (length xs = length yss) then
    Some (zip_with (fun x ys => (fun _ => x) <$> ys) xs yss)
  else None.

(** [jets[idx]] for a jagged array of indices: raises on an index that
    is not a jet of its event. *)
Definition jets_of (ik : perm -> nat)
  (jets : list (list Jet_t)) (perms : list (list perm))
  : option (list (list Jet_t)) :=
  mapM (fun jp : list Jet_t * list perm =>
          mapM (fun p => jp.1 !! ik p) jp.2)
       (zip jets perms).

(** [jets[perms[..., k]]]: the slice [perms[..., k]] raises on an array
    that holds no permutation at all (no event, or only empty lists:
    such an array has no inner type to slice); the indexing raises on an
    index that is not a jet of its event. *)
Definition jets_at (ik : perm -> nat)
  (jets : list (list Jet_t)) (perms : list (list perm))
  : option (list (list Jet_t)) :=
  guard (concat perms <> []);;
  jets_of ik jets perms.

(** [max(permutations_dict.keys())]: raises on an empty dictionary. *)
Definition max_key (permutations_dict : gmap nat (list perm)) : option nat :=
  match (map_to_list permutations_dict).*1 with
  | [] => None
  | ks => Some (max_list ks)
  end.

Definition sq (x : float) : float := f32_mul x x.
Definition jsub := jmap2 f32_sub.
Definition jadd := jmap2 f32_add.

Section GetFeatures.
Context `{Kinematics}.

Definition jp4 (jets : list (list Jet_t)) := jmap p4_of_jet jets.
Definition jsum := jmap2 p4_add.

Definition get_features
  (jets : list (list Jet_t)) (electrons muons : list (list Lepton_t))
  (permutations_dict : gmap nat (list perm))
  : option (ndarray * list nat) :=
  (* calculate number of jets in each event *)
  let njet := length <$> jets in
  (* don't consider every jet for events with high jet multiplicity *)
  kmax ← max_key permutations_dict;
  let njet := (fun n => if decide (kmax < n) then kmax else n) <$> njet in
  (* create awkward array of permutation indices *)
  perms ← mapM (fun n => permutations_dict !! n) njet;
  let perm_counts := length <$> perms in
  let features := np_zeros (sum_list perm_counts) 28 in
  (* grab lepton info *)
  guard (length electrons = length muons);;
  leptons ← broadcast (concat (zip_with app electrons muons)) perms;
  j0 ← jets_at i0 jets perms;
  j1 ← jets_at i1 jets perms;
  j2 ← jets_at i2 jets perms;
  j3 ← jets_at i3 jets perms;
  (* delta R between top_lepton and lepton *)
  features ← set_column 0 (concat (jmap f32_sqrt (jadd
    (jmap sq (jsub (jmap leta leptons) (jmap eta j3)))
    (jmap sq (jsub (jmap lphi leptons) (jmap phi j3)))))) features;
  (* delta R between the two W *)
  features ← set_column 1 (concat (jmap f32_sqrt (jadd
    (jmap sq (jsub (jmap eta j0) (jmap eta j1)))
    (jmap sq (jsub (jmap phi j0) (jmap phi j1)))))) features;
  (* delta R between W and top_hadron *)
  features ← set_column 2 (concat (jmap f32_sqrt (jadd
    (jmap sq (jsub (jmap eta j0) (jmap eta j2)))
    (jmap sq (jsub (jmap phi j0) (jmap phi j2)))))) features;
  features ← set_column 3 (concat (jmap f32_sqrt (jadd
    (jmap sq (jsub (jmap eta j1) (jmap eta j2)))
    (jmap sq (jsub (jmap phi j1) (jmap phi j2)))))) features;
  (* delta phi between top_lepton and lepton *)
  features ← set_column 4 (concat (jmap fabs
    (jsub (jmap lphi leptons) (jmap phi j3)))) features;
  (* delta phi between the two W *)
  features ← set_column 5 (concat (jmap fabs
    (jsub (jmap phi j0) (jmap phi j1)))) features;
  (* delta phi between W and top_hadron *)
  features ← set_column 6 (concat (jmap fabs
    (jsub (jmap phi j0) (jmap phi j2)))) features;
  features ← set_column 7 (concat (jmap fabs
    (jsub (jmap phi j1) (jmap phi j2)))) features;
  (* combined mass of top_lepton and lepton *)
  features ← set_column 8 (concat (jmap p4_mass
    (jsum (jmap p4_of_lepton leptons) (jp4 j3)))) features;
  (* combined mass of W *)
  features ← set_column 9 (concat (jmap p4_mass
    (jsum (jp4 j0) (jp4 j1)))) features;
  (* combined mass of W and top_hadron *)
  features ← set_column 10 (concat (jmap p4_mass
    (jsum (jsum (jp4 j0) (jp4 j1)) (jp4 j2)))) features;
  (* combined pT of W and top_hadron *)
  features ← set_column 11 (concat (jmap p4_pt
    (jsum (jsum (jp4 j0) (jp4 j1)) (jp4 j2)))) features;
  (* pt of every jet *)
  features ← set_column 12 (concat (jmap pt j0)) features;
  features ← set_column 13 (concat (jmap pt j1)) features;
  features ← set_column 14 (concat (jmap pt j2)) features;
  features ← set_column 15 (concat (jmap pt j3)) features;
  (* mass of every jet *)
  features ← set_column 16 (concat (jmap mass j0)) features;
  features ← set_column 17 (concat (jmap mass j1)) features;
  features ← set_column 18 (concat (jmap mass j2)) features;
  features ← set_column 19 (concat (jmap mass j3)) features;
  (* btagCSVV2 of every jet *)
  features ← set_column 20 (concat (jmap btagCSVV2 j0)) features;
  features ← set_column 21 (concat (jmap btagCSVV2 j1)) features;
  features ← set_column 22 (concat (jmap btagCSVV2 j2)) features;
  features ← set_column 23 (concat (jmap btagCSVV2 j3)) features;
  (* qgl of every jet *)
  features ← set_column 24 (concat (jmap qgl j0)) features;
  features ← set_column 25 (concat (jmap qgl j1)) features;
  features ← set_column 26 (concat (jmap qgl j2)) features;
  features ← set_column 27 (concat (jmap qgl j3)) features;
  Some (astype float32 features, perm_counts).
End GetFeatures.

End Features.
Export Features.

(** ** Classifier inference and the best permutation *)

Module Inference.

(** [model.predict_proba(power.fit_transform(X))[:, 1]], as it is stored
    in the double precision array [results]: the power transform raises
    on an array without rows. *)
Definition transformed_scores
  (predict : list (list float) -> option (list float))
  (X : list (list float)) : option (list float) :=
  guard (X <> []);;
  scores ← predict X;
  Some (to_float64 <$> (scores : list float)).

(** [results = np.zeros(features.shape[0])];
    [results[even_perm] = even_model(features[even_perm, :])];
    [results[np.invert(even_perm)] = odd_model(features[np.invert(even_perm), :])]
    (the branch taken without the inference server). *)
Definition predict_xgboost `{Classifier}
  (features : ndarray) (even_perm : list bool) : option (list float) :=
  let results := replicate (nd_shape features).1 f64_0 in
  scores ← transformed_scores predict_even
              (mask_select (nd_data features) even_perm);
  results ← mask_assign results even_perm scores;
  scores ← transformed_scores predict_odd
              (mask_select (nd_data features) (np_invert even_perm));
  mask_assign results (np_invert even_perm) scores.

(** The entry of feature column 10 of the best permutation of one event:
    [features_unflattened[which_combination][..., 10]], with awkward's
    [None] for an event without permutations. *)
Definition pick_observable (rows : list (list float)) (which : option nat)
  : option float :=
  i ← which; row ← rows !! i; row !! 10.

(** [results = ak.unflatten(results, perm_counts)];
    [which_combination = ak.argmax(results, axis=1)];
    [features_unflattened = ak.unflatten(features, perm_counts)];
    [ML_observable = ak.flatten(features_unflattened[which_combination[:, np.newaxis]])[..., 10]]. *)
Definition best_permutation_observable
  (results : list float) (features : ndarray) (perm_counts : list nat)
  : list (option float) :=
  let results := unflatten results perm_counts in
  let which_combination := argmax <$> results in
  let features_unflattened := unflatten (nd_data features) perm_counts in
  zip_with pick_observable features_unflattened which_combination.

End Inference.
Export Inference.

(** ** The processor ([TtbarAnalysis.process]) *)

Module Processor.

(** The weight of one [histogram.fill] call.  No property below depends
    on its value, so it is kept as the expression of the source. *)
Inductive weight :=
| w_xsec
| w_systematic (weight_name direction : string)
| w_btag (i_var i_dir : nat)
| w_btag_no_events (i_var i_dir : nat).

(** The arguments of one [histogram.fill] call. *)
Record fill_call := mkFill {
  f_observable : list (option float);
  f_ml_observable : list (option float);
  f_region : string;
  f_process : string;
  f_variation : string;
  f_weight : weight }.

(** [histogram.fill(...)]: raises when one of the two observables holds
    a missing value. *)
Definition histogram_fill (f : fill_call) : option fill_call :=
  guard (Forall is_Some (f_observable f)
         /\ Forall is_Some (f_ml_observable f));;
  Some f.

(** [ak.sum(xs, axis=-1)] over one event. *)
Definition ak_sum (xs : list float) : float := foldl f64_add f64_0 xs.

(** [np.maximum(a, b)]. *)
Definition np_maximum (a b : float) : float :=
  if is_nan a then a else if is_nan b then b
  else if fgt a b then a else b.

(** [ak.combinations(jets, 3)] over one event, in awkward's order. *)
Fixpoint combinations2 {A} (xs : list A) : list (A * A) :=
  match xs with
  | [] => []
  | x :: xs' => (pair x <$> xs') ++ combinations2 xs'
  end.
Fixpoint combinations3 {A} (xs : list A) : list (A * A * A) :=
  match xs with
  | [] => []
  | x :: xs' =>
      ((fun c : A * A => (x, c.1, c.2)) <$> combinations2 xs')
        ++ combinations3 xs'
  end.

Section Process.
Context `{Kinematics} `{Rng} `{Classifier}.

(** The configuration of the processor that [process] reads. *)
Variables (use_triton : bool) (permutations_dict : gmap nat (list perm)).
(** [events.metadata["process"]] and [events.metadata["variation"]]. *)
Variables (process_name variation : string).
Variables (events : list Event).

(** The trijet mass of one event of region 4j2b: the candidate with
    the largest pT among those with a b-tagged jet. *)
Definition trijet_mass (jets : list Jet_t) : option float :=
  let trijet :=
    (fun c : Jet_t * Jet_t * Jet_t =>
       (p4_add (p4_add (p4_of_jet c.1.1) (p4_of_jet c.1.2))
               (p4_of_jet c.2),
        np_maximum (btagCSVV2 c.1.1)
                   (np_maximum (btagCSVV2 c.1.2) (btagCSVV2 c.2))))
      <$> combinations3 jets in
  let trijet :=
    List.filter (fun t : LorentzVector * float => fgt t.2 B_TAG_THRESHOLD)
                trijet in
  i ← argmax ((fun t : LorentzVector * float => p4_pt t.1) <$> trijet);
  t ← trijet !! i;
  Some (p4_mass t.1).

(** HT, the scalar sum of the (varied) pT of the selected jets, for
    every event of region [r]. *)
Definition HT_observable (v : pt_var) (r : region) : list (option float) :=
  zip_with (fun (jets : list Jet_t) m =>
              Some (ak_sum (bmul (pt <$> jets) m)))
           (selected_jets_region events v r)
           (pt_var_modifier_region events v r).

(** [observable] and [ML_observable] of one region, for one variation
    of the jet pT. *)
Definition region_observables (v : pt_var) (r : region)
  : option (list (option float) * list (option float)) :=
  match r with
  | R4j1b =>
      (* use HT (scalar sum of jet pT) as observable *)
      let observable := HT_observable v R4j1b in
      let ML_observable := observable in
      Some (observable, ML_observable)
  | R4j2b =>
      (* reconstruct hadronic top as bjj system with largest pT *)
      let observable := trijet_mass <$> selected_jets_region events v R4j2b in
      (* get ml features *)
      '(features, perm_counts) ←
        get_features (selected_jets_region events v R4j2b)
                     (selected_electrons_region events v R4j2b)
                     (selected_muons_region events v R4j2b)
                     permutations_dict;
      let even_perm := np_repeat (even_region events v R4j2b) perm_counts in
      results ← predict_xgboost features even_perm;
      let ML_observable :=
        best_permutation_observable results features perm_counts in
      Some (observable, ML_observable)
  end.

(** [events.systematics.fields]: the weight systematics registered by
    [events.add_systematic]. *)
Definition systematics_fields : list string :=
  if String.eqb process_name "wjets" then ["scale_var"] else [].

Definition btag_var_names : list string :=
  ["btag_var_0"; "btag_var_1"; "btag_var_2"; "btag_var_3"].
Definition directions : list string := ["up"; "down"].

(** The [histogram.fill] calls of one region and one jet-pT variation. *)
Definition fills (v : pt_var) (r : region)
  (observable ML_observable : list (option float)) : list fill_call :=
  let fill var w :=
    mkFill observable ML_observable (region_name r) process_name var w in
  match v with
  | pt_nominal =>
      (* nominal pT, but including 2-point systematics *)
      fill variation w_xsec ::
      (if String.eqb variation "nominal" then
         (* weight-based variations for all nominal samples *)
         (weight_name ← systematics_fields;
          direction ← directions;
          [fill (weight_name +:+ "_" +:+ direction)
                (w_systematic weight_name direction)])
         ++
         (* b-tagging variations *)
         ('(i_var, weight_name) ← imap pair btag_var_names;
          '(i_dir, direction) ← imap pair directions;
          [fill (weight_name +:+ "_" +:+ direction)
                (if 0 <? length observable then w_btag i_var i_dir
                 else w_btag_no_events i_var i_dir)])
       else [])
  | _ =>
      if String.eqb variation "nominal" then
        (* pT variations for nominal samples *)
        [fill (pt_var_name v) w_xsec]
      else []
  end.

Definition pt_variations : list pt_var :=
  if String.eqb variation "nominal"
  then [pt_nominal; pt_scale_up; pt_res_up] else [pt_nominal].

(** [process(events)] with processing enabled: the fills of the output
    histogram, or [None] when an exception escapes.  With the
    inference server enabled the method reads [self.model_vers], an
    attribute the constructor never sets.  The metadata of the batch
    (process, variation, and the normalisation [xsec_weight] computed
    from the cross-section and the number of events before the loops)
    is taken as given. *)
Definition process : option (list fill_call) :=
  if use_triton then None
  else
    @concat fill_call <$>
      mapM (fun vr : pt_var * region =>
              '(observable, ML_observable) ←
                region_observables vr.1 vr.2;
              mapM histogram_fill
                   (fills vr.1 vr.2 observable ML_observable))
           (v ← pt_variations; r ← [R4j1b; R4j2b]; [(v, r)]).
End Process.

End Processor.
Export Processor.

(** ** The I/O-only routine ([TtbarAnalysis.only_do_IO]) *)

Module IO.

(** The exceptions of the routine: the one it raises itself, and the
    lookup failure of the array layer for a branch the file lacks. *)
Inductive exn :=
| NotImplementedError (msg : string)
| FieldNotFound (object_type property_name : string).

Inductive result (A : Type) :=
| Return (a : A)
| Raise (e : exn).
Arguments Return {A} a.
Arguments Raise {A} e.

(** The branches of a file: collection name, then property name.  A
    top-level branch without a collection is a collection of its own. *)
Definition column : Type := list (list float).

(** [branch.split("_")]. *)
Fixpoint split_on (c : ascii) (s : string) : list string :=
  match s with
  | EmptyString => [EmptyString]
  | String a s' =>
      if Ascii.eqb a c then EmptyString :: split_on c s'
      else match split_on c s' with
           | h :: t => String a h :: t
           | [] => [String a EmptyString]
           end
  end.

(** ["_".join(parts)]. *)
Definition join (sep : string) (parts : list string) : string :=
  String.concat sep parts.

(** ["_" in branch]. *)
Definition contains (sub s : string) : bool :=
  match String.index 0 sub s with Some _ => true | None => false end.

(** [ak.materialized(events[object_type][property_name])], or
    [ak.materialized(events[branch])] for a name without underscore. *)
Definition materialize (events : gmap string (gmap string column))
  (branch : string) : result unit :=
  if contains "_" branch then
    let split := split_on "_"%char branch in
    let object_type := hd EmptyString split in
    let property_name := join "_" (tl split) in
    match events !! object_type ≫= (fun o => o !! property_name) with
    | Some _ => Return tt
    | None => Raise (FieldNotFound object_type property_name)
    end
  else
    match events !! branch with
    | Some _ => Return tt
    | None => Raise (FieldNotFound branch EmptyString)
    end.

(** The loop [for branch in branches_to_read]: the first failure escapes. *)
Fixpoint materialize_all (events : gmap string (gmap string column))
  (branches : list string) : result unit :=
  match branches with
  | [] => Return tt
  | b :: bs =>
      match materialize events b with
      | Return _ => materialize_all events bs
      | Raise e => Raise e
      end
  end.

Definition branches_2_7 : list string :=
  ["Jet_pt"; "Jet_eta"; "Jet_phi"; "Jet_btagCSVV2"; "Jet_mass"; "Muon_pt";
   "Electron_pt"].
Definition branches_4 : list string :=
  ["Electron_phi"; "Electron_eta"; "Electron_mass"; "Muon_phi"; "Muon_eta";
   "Muon_mass"; "Photon_pt"; "Photon_eta"; "Photon_mass"; "Jet_jetId"].
Definition branches_15 : list string :=
  ["Jet_nConstituents"; "Jet_electronIdx1"; "Jet_electronIdx2";
   "Jet_muonIdx1"; "Jet_muonIdx2"; "Jet_chHEF"; "Jet_area"; "Jet_puId";
   "Jet_qgl"; "Jet_btagDeepB"; "Jet_btagDeepCvB"; "Jet_btagDeepCvL";
   "Jet_btagDeepFlavB"; "Jet_btagDeepFlavCvB"; "Jet_btagDeepFlavCvL";
   "Jet_btagDeepFlavQG"; "Jet_chEmEF"; "Jet_chFPV0EF"; "Jet_muEF";
   "Jet_muonSubtrFactor"; "Jet_neEmEF"; "Jet_neHEF"; "Jet_puIdDisc"].
Definition branches_25 : list string :=
  ["GenPart_pt"; "GenPart_eta"; "GenPart_phi"; "GenPart_mass";
   "GenPart_genPartIdxMother"; "GenPart_pdgId"; "GenPart_status";
   "GenPart_statusFlags"].
Definition branches_50 : list string :=
  ["Jet_rawFactor"; "Jet_bRegCorr"; "Jet_bRegRes"; "Jet_cRegCorr";
   "Jet_cRegRes"; "Jet_nElectrons"; "Jet_nMuons"; "GenJet_pt"; "GenJet_eta";
   "GenJet_phi"; "GenJet_mass"; "Tau_pt"; "Tau_eta"; "Tau_mass"; "Tau_phi";
   "Muon_dxy"; "Muon_dxyErr"; "Muon_dxybs"; "Muon_dz"; "Muon_dzErr";
   "Electron_dxy"; "Electron_dxyErr"; "Electron_dz"; "Electron_dzErr";
   "Electron_eInvMinusPInv"; "Electron_energyErr"; "Electron_hoe";
   "Electron_ip3d"; "Electron_jetPtRelv2"; "Electron_jetRelIso";
   "Electron_miniPFRelIso_all"; "Electron_miniPFRelIso_chg";
   "Electron_mvaFall17V2Iso"; "Electron_mvaFall17V2noIso";
   "Electron_pfRelIso03_all"; "Electron_pfRelIso03_chg"; "Electron_r9";
   "Electron_scEtOverPt"; "Electron_sieie"; "Electron_sip3d";
   "Electron_mvaTTH"; "Electron_charge"; "Electron_cutBased";
   "Electron_jetIdx"; "Electron_pdgId"; "Electron_photonIdx";
   "Electron_tightCharge"].

(** [branches_to_read] after the five [if] statements. *)
Definition branches_to_read (io_file_percent : float) : list string :=
  (if fge io_file_percent f64_2_7 then branches_2_7 else [])
  ++ (if fge io_file_percent f64_4 then branches_4 else [])
  ++ (if fge io_file_percent f64_15 then branches_15 else [])
  ++ (if fge io_file_percent f64_25 then branches_25 else [])
  ++ (if feq io_file_percent f64_50 then branches_50 else []).

(** [x in xs] of Python, on numbers: some entry compares equal. *)
Definition py_in (x : float) (xs : list float) : bool :=
  existsb (feq x) xs.

Definition supported_tiers : list float :=
  [f64_2_7; f64_4; f64_15; f64_25; f64_50].

(** The returned dictionary [{"hist": {}}]. *)
Definition empty_hist_output : gmap string (gmap string unit) :=
  {[ "hist" := ∅ ]}.

(** [only_do_IO(events)] for the configured [io_file_percent], a Python
    number read as a double. *)
Definition only_do_IO (io_file_percent : float)
  (events : gmap string (gmap string column))
  : result (gmap string (gmap string unit)) :=
  let branches_to_read := branches_to_read io_file_percent in
  if negb (py_in io_file_percent supported_tiers) then
    Raise (NotImplementedError
             "supported values for I/O percentage are 2.7, 4, 15, 25, 50")
  else
    match materialize_all events branches_to_read with
    | Return _ => Return empty_hist_output
    | Raise e => Raise e
    end.

End IO.
Export IO.

(** ** Row-wise reading of the feature matrix *)

Module Rowwise.

(** The objects one permutation of one event selects: the lepton of the
    event and the four jets of the permutation. *)
Record picked := mkPicked {
  p_lep : Lepton_t;
  p_j0 : Jet_t; p_j1 : Jet_t; p_j2 : Jet_t; p_j3 : Jet_t }.

Definition pick (jets : list Jet_t) (l : Lepton_t) (p : perm)
  : option picked :=
  j0 ← jets !! i0 p; j1 ← jets !! i1 p;
  j2 ← jets !! i2 p; j3 ← jets !! i3 p;
  Some (mkPicked l j0 j1 j2 j3).

Definition picks (jets : list (list Jet_t)) (leptons : list Lepton_t)
  (perms : list (list perm)) : option (list (list picked)) :=
  mapM (fun x : list Jet_t * Lepton_t * list perm =>
          mapM (pick x.1.1 x.1.2) x.2)
       (zip (zip jets leptons) perms).

Definition delta_R (eta1 phi1 eta2 phi2 : float) : float :=
  f32_sqrt (f32_add (sq (f32_sub eta1 eta2)) (sq (f32_sub phi1 phi2))).
Definition delta_phi (phi1 phi2 : float) : float :=
  fabs (f32_sub phi1 phi2).

(** A value written into the double precision matrix and read back from
    its single precision copy. *)
Definition stored (x : float) : float := to_float32 (to_float64 x).

Section Rows.
Context `{Kinematics}.

(** The 28 features of one (event, permutation) pair, before storage. *)
Definition raw_features (c : picked) : list float :=
  let l := p_lep c in
  let j0 := p_j0 c in let j1 := p_j1 c in
  let j2 := p_j2 c in let j3 := p_j3 c in
  [ delta_R (leta l) (lphi l) (eta j3) (phi j3);
    delta_R (eta j0) (phi j0) (eta j1) (phi j1);
    delta_R (eta j0) (phi j0) (eta j2) (phi j2);
    delta_R (eta j1) (phi j1) (eta j2) (phi j2);
    delta_phi (lphi l) (phi j3);
    delta_phi (phi j0) (phi j1);
    delta_phi (phi j0) (phi j2);
    delta_phi (phi j1) (phi j2);
    p4_mass (p4_add (p4_of_lepton l) (p4_of_jet j3));
    p4_mass (p4_add (p4_of_jet j0) (p4_of_jet j1));
    p4_mass (p4_add (p4_add (p4_of_jet j0) (p4_of_jet j1)) (p4_of_jet j2));
    p4_pt (p4_add (p4_add (p4_of_jet j0) (p4_of_jet j1)) (p4_of_jet j2));
    pt j0; pt j1; pt j2; pt j3;
    mass j0; mass j1; mass j2; mass j3;
    btagCSVV2 j0; btagCSVV2 j1; btagCSVV2 j2; btagCSVV2 j3;
    qgl j0; qgl j1; qgl j2; qgl j3 ].

Definition feature_row (c : picked) : list float :=
  stored <$> raw_features c.

(** [get_features] read row by row: one row per permutation of the
    event's (capped) jet count, event after event; it raises when the
    batch has no permutation at all. *)
Definition get_features_rowwise
  (jets : list (list Jet_t)) (electrons muons : list (list Lepton_t))
  (permutations_dict : gmap nat (list perm))
  : option (ndarray * list nat) :=
  kmax ← max_key permutations_dict;
  perms ← mapM (fun js : list Jet_t =>
                  permutations_dict !!
                    (if decide (kmax < length js) then kmax
                     else length js)) jets;
  guard (length electrons = length muons);;
  let leptons := concat (zip_with app electrons muons) in
  guard (length leptons = length perms);;
  guard (concat perms <> []);;
  cs ← picks jets leptons perms;
  Some (mkArray float32 (sum_list (length <$> perms), 28)
                (feature_row <$> concat cs),
        length <$> perms).
End Rows.

(** The permutations of one event: the entry of the dictionary for its
    jet count, capped at the largest key. *)
Definition event_perms (permutations_dict : gmap nat (list perm))
  (js : list Jet_t) : option (list perm) :=
  kmax ← max_key permutations_dict;
  permutations_dict !!
    (if decide (kmax < length js) then kmax else length js).


(** The inputs [get_features] is written for: every (capped) jet count
    has an entry in the dictionary, every index of a permutation is a
    jet of its event, every event has exactly one lepton, and at least
    one event has a permutation. *)
Definition well_formed_input
  (jets : list (list Jet_t)) (electrons muons : list (list Lepton_t))
  (permutations_dict : gmap nat (list perm)) : Prop :=
  length electrons = length jets /\ length muons = length jets
  /\ Forall2 (fun e m => length (e ++ m) = 1) electrons muons
  /\ Exists (fun js : list Jet_t =>
               exists ps, event_perms permutations_dict js = Some ps
                          /\ ps <> []) jets
  /\ exists kmax, max_key permutations_dict = Some kmax
     /\ Forall (fun js : list Jet_t =>
                  exists ps,
                    permutations_dict !!
                      (if decide (kmax < length js) then kmax
                       else length js) = Some ps
                    /\ Forall (fun p => i0 p < length js /\ i1 p < length js
                                        /\ i2 p < length js
                                        /\ i3 p < length js) ps) jets.

(** The permutation table's own contract: the entry of jet count [n]
    only holds indices below [n]. *)
Definition table_in_range (permutations_dict : gmap nat (list perm)) : Prop :=
  forall n ps, permutations_dict !! n = Some ps ->
    Forall (fun p => i0 p < n /\ i1 p < n /\ i2 p < n /\ i3 p < n) ps.

End Rowwise.
Export Rowwise.

(** ** The order of floating point comparison *)

Module FloatOrder.

(** A key that orders the values that are not NaN the way [SFcompare]
    does: sign class first, then exponent, then mantissa. *)
Definition key (x : float) : Z * Z * Z :=
  match x with
  | S754_zero _ => (0, 0, 0)
  | S754_infinity false => (2, 0, 0)
  | S754_infinity true => (-2, 0, 0)
  | S754_nan => (0, 0, 0)
  | S754_finite false m e => (1, e, Zpos m)
  | S754_finite true m e => (-1, - e, Zneg m)
  end%Z.

Definition key_lt (a b : Z * Z * Z) : Prop :=
  (a.1.1 < b.1.1
   \/ (a.1.1 = b.1.1
       /\ (a.1.2 < b.1.2 \/ (a.1.2 = b.1.2 /\ a.2 < b.2))))%Z.

(** Scores that are numbers: no entry is NaN. *)
Definition no_nan (xs : list float) : Prop :=
  Forall (fun x => is_nan x = false) xs.

End FloatOrder.
Export FloatOrder.

(** ** Concrete inputs *)

Module Examples.

(** Stand-ins for the external interfaces, to run the pipeline on small
    inputs: a four-vector is represented by its mass and sums add masses;
    the resolution draw returns its mean; the even model scores a row by
    the b-tag of the first W jet, the odd model by that of the second. *)
Definition example_kinematics : Kinematics :=
  {| LorentzVector := float;
     p4_of_jet := mass;
     p4_of_lepton := lmass;
     p4_add := f32_add;
     p4_mass := fun x => x;
     p4_pt := fun x => x |}.

Definition example_rng : Rng :=
  {| normal_draw := fun _ loc _ => loc |}.

Definition example_classifier : Classifier :=
  {| predict_even :=
       fun X => Some ((fun row : list float => default f64_0 (row !! 20)) <$> X);
     predict_odd :=
       fun X => Some ((fun row : list float => default f64_0 (row !! 21)) <$> X);
     predict_even_length :=
       fun X scores Hs =>
         eq_trans (f_equal length (eq_sym (inj Some _ _ Hs)))
                  (length_fmap _ X);
     predict_odd_length :=
       fun X scores Hs =>
         eq_trans (f_equal length (eq_sym (inj Some _ _ Hs)))
                  (length_fmap _ X) |}.

(** A jet of transverse momentum [p] GeV and mass [m] GeV at eta 0 and
    phi 1, with b-tag score 1 when [tagged] and 0 otherwise; a lepton of
    transverse momentum [p] at eta 0 and phi -3. *)
Definition example_jet (p m : Z) (tagged : bool) : Jet_t :=
  mkJet (f32_of_Z p) (f32_of_Z 0) (f32_of_Z 1) (f32_of_Z m)
        (if tagged then f32_of_Z 1 else f32_of_Z 0) (f32_of_Z 0).
Definition example_lepton (p : Z) : Lepton_t :=
  mkLepton (f32_of_Z p) (f32_of_Z 0) (f32_of_Z (-3)) (f32_of_Z 0).

(** A table with entries for four and five jets. *)
Definition example_dict : gmap nat (list perm) :=
  <[4 := [mkPerm 0 1 2 3; mkPerm 0 1 3 2; mkPerm 2 3 0 1]]>
    (<[5 := [mkPerm 0 1 2 4; mkPerm 4 3 2 1]]> ∅).

(** The same table with no permutation for four jets. *)
Definition example_dict_sparse : gmap nat (list perm) :=
  <[4 := []]> (<[5 := [mkPerm 0 1 2 4; mkPerm 4 3 2 1]]> ∅).

(** Two events for [get_features]: one with four jets and an electron,
    one with six jets and a muon. *)
Definition example_jets_4 : list Jet_t :=
  [example_jet 30 5 true; example_jet 40 6 true;
   example_jet 50 7 false; example_jet 60 8 false].
Definition example_jets_6 : list Jet_t :=
  [example_jet 30 5 true; example_jet 40 6 true; example_jet 50 7 true;
   example_jet 60 8 false; example_jet 26 9 false;
   example_jet 100 10 true].
Definition example_jets : list (list Jet_t) :=
  [example_jets_4; example_jets_6].
Definition example_electrons : list (list Lepton_t) :=
  [ [example_lepton 30]; [] ].
Definition example_muons : list (list Lepton_t) :=
  [ []; [example_lepton 31] ].

Definition example_features : ndarray :=
  Eval vm_compute in
    match @get_features example_kinematics example_jets example_electrons
                        example_muons example_dict with
    | Some (F, _) => F
    | None => np_zeros 0 0
    end.
Definition example_counts : list nat := [3; 2].
Definition example_row_0 : list float :=
  Eval vm_compute in default [] (nd_data example_features !! 0).

(** The output for the sparse table: the first event has no row. *)
Definition example_features_sparse : ndarray :=
  Eval vm_compute in
    match @get_features example_kinematics example_jets example_electrons
                        example_muons example_dict_sparse with
    | Some (F, _) => F
    | None => np_zeros 0 0
    end.
Definition example_counts_sparse : list nat := [0; 2].

(** Scores for the five rows of [example_features]; the second and third
    permutation of the first event tie. *)
Definition example_results : list float :=
  [f64_of_Z 1; f64_of_Z 2; f64_of_Z 2; f64_of_Z 3; f64_of_Z 1].

(** A batch of four events: two tagged jets among four (event number 7),
    one tagged jet among five (8), two leptons (9), four tagged jets among
    six (10). *)
Definition example_event_7 : Event :=
  mkEvent [example_lepton 30] []
    [example_jet 30 5 true; example_jet 40 6 true; example_jet 50 7 false;
     example_jet 60 8 false; example_jet 10 9 false] 7.
Definition example_event_8 : Event :=
  mkEvent [] [example_lepton 30]
    [example_jet 30 5 true; example_jet 40 6 false; example_jet 50 7 false;
     example_jet 60 8 false; example_jet 26 9 false] 8.
Definition example_event_9 : Event :=
  mkEvent [] [example_lepton 30; example_lepton 40]
    [example_jet 30 5 true; example_jet 40 6 false; example_jet 50 7 false;
     example_jet 60 8 false] 9.
Definition example_event_10 : Event :=
  mkEvent [example_lepton 31] []
    [example_jet 30 5 true; example_jet 40 6 true; example_jet 50 7 true;
     example_jet 60 8 false; example_jet 26 9 false;
     example_jet 100 10 true] 10.
Definition example_events : list Event :=
  [example_event_7; example_event_8; example_event_9; example_event_10].

(** The feature matrix of region 4j2b of the batch (first and last
    event), for the nominal jet pT. *)
Definition example_region_features : ndarray :=
  Eval vm_compute in
    match @get_features example_kinematics
            (@selected_jets_region example_rng example_events
                                   pt_nominal R4j2b)
            (@selected_electrons_region example_rng example_events
                                        pt_nominal R4j2b)
            (@selected_muons_region example_rng example_events
                                    pt_nominal R4j2b)
            example_dict with
    | Some (F, _) => F
    | None => np_zeros 0 0
    end.
Definition example_region_counts : list nat := [3; 2].

(** The fills of the batch, as the nominal sample of process "ttbar". *)
Definition example_fills : list fill_call :=
  Eval vm_compute in
    default [] (@process example_kinematics example_rng example_classifier
                         false example_dict "ttbar" "nominal"
                         example_events).

(** A file with the seven standard branches. *)
Definition example_file : gmap string (gmap string column) :=
  <["Jet" := <["pt" := []]> (<["eta" := []]> (<["phi" := []]>
               (<["btagCSVV2" := []]> (<["mass" := []]> ∅))))]>
    (<["Muon" := <["pt" := []]> ∅]>
       (<["Electron" := <["pt" := []]> ∅]> ∅)).

End Examples.
Export Examples.

(** ** Event weights *)

Module Weights.

Definition f32_50 : float := S754_finite false 13107200 (-18).
Definition f64_0_075 : float := S754_finite false 5404319552844595 (-56).
Definition f64_neg_0_075 : float := S754_finite true 5404319552844595 (-56).
Definition f32_div : float -> float -> float := SFdiv 24 128.

(** [btag_weight_variation(i_jet, jet_pt)]:
    [1 + np.array([0.075, -0.075]) * (ak.singletons(jet_pt[:, i_jet]) / 50).to_numpy()].
    [jet_pt[:, i_jet]] raises when an event has no jet of that index;
    without any event the converted array has no column and the product
    with the two variations does not broadcast; the quotient is single
    precision, the product and the sum are double precision; the result
    has one row [up, down] per event. *)
Definition btag_weight_variation (i_jet : nat) (jet_pt : list (list float))
  : option (list (list float)) :=
  column ← mapM (fun pts : list float => pts !! i_jet) jet_pt;
  guard (column <> []);;
  Some ((fun p : float =>
           let x := to_float64 (f32_div p f32_50) in
           [f64_add f64_1 (f64_mul f64_0_075 x);
            f64_add f64_1 (f64_mul f64_neg_0_075 x)]) <$> column).

(** The weight variation of one b-tagging fill: one factor per event, or
    the number 1 when no event is selected. *)
Inductive weight_variation :=
| per_event (factors : list float)
| no_events_selected.

(** [btag_weight_variation(i_var, selected_jets_region.pt)[:, i_dir]
     if len(observable) else 1], as [process] computes it for a region. *)
Definition btag_region_weights `{Rng} (events : list Event) (v : pt_var)
  (r : region) (observable : list (option float)) (i_var i_dir : nat)
  : option weight_variation :=
  if 0 <? length observable then
    variations ←
      btag_weight_variation i_var
        ((fun jets : list Jet_t => pt <$> jets)
           <$> selected_jets_region events v r);
    factors ← mapM (fun row : list float => row !! i_dir) variations;
    Some (per_event factors)
  else Some no_events_selected.

End Weights.
Export Weights.

(** ** The ServiceX query ([get_query]) *)

Module Query.

(** The columns the query returns for one event. *)
Record query_row := mkQueryRow {
  Electron_pt : list float;
  Muon_pt : list float;
  Jet_mass : list float;
  Jet_pt : list float;
  Jet_eta : list float;
  Jet_phi : list float;
  Jet_btagCSVV2 : list float }.

(** The three [Where] clauses. *)
Definition where_one_lepton (e : Event) : bool :=
  length (List.filter (fun pt => fgt pt f32_25) (lpt <$> Electron e))
  + length (List.filter (fun pt => fgt pt f32_25) (lpt <$> Muon e)) =? 1.
Definition where_four_jets (e : Event) : bool :=
  4 <=? length (List.filter (fun pt => fgt pt f32_25) (pt <$> Jet e)).
Definition where_one_btag (g : Event) : bool :=
  1 <=? length (List.filter
                  (fun jet : float * float =>
                     fge jet.2 f32_0_5 && fgt jet.1 f32_25)
                  (zip (pt <$> Jet g) (btagCSVV2 <$> Jet g))).

Definition query_select (f : Event) : query_row :=
  mkQueryRow (lpt <$> Electron f) (lpt <$> Muon f) (mass <$> Jet f)
             (pt <$> Jet f) (eta <$> Jet f) (phi <$> Jet f)
             (btagCSVV2 <$> Jet f).

(** The events the query keeps, and [get_query(source)]. *)
Definition query_events (source : list Event) : list Event :=
  List.filter where_one_btag
    (List.filter where_four_jets (List.filter where_one_lepton source)).
Definition get_query (source : list Event) : list query_row :=
  query_select <$> query_events source.

(** Jets whose pT is a single precision number. *)
Definition single_precision_pt (e : Event) : Prop :=
  Forall (fun j => valid_binary 24 128 (pt j) = true) (Jet e).

End Query.
Export Query.

(** ** The branch lists of the I/O tiers ([GetIOBranches.main]) *)

Module IOBranches.

Definition f64_100 : float := S754_finite false 7036874417766400 (-46).

Definition agc_original_branches : list string :=
  ["Jet_pt"; "Jet_eta"; "Jet_phi"; "Jet_btagCSVV2"; "Jet_mass"; "Muon_pt";
   "Electron_pt"].
Definition desired_percents : list float := [f64_15; f64_25; f64_50].

(** The numpy routines the script calls: [np.argsort], which returns the
    positions of its argument in some order (the order among equal
    values is not specified), and [np.round(x, decimals)]. *)
Class Numpy := {
  np_argsort : list float -> list nat;
  np_round : float -> nat -> float;
  np_argsort_positions :
    forall xs, Permutation (np_argsort xs) (seq 0 (length xs)) }.

(** [xs[idx]] for an integer index array: raises on an index out of
    range. *)
Definition np_take {A} (xs : list A) (idx : list nat) : option (list A) :=
  mapM (fun i => xs !! i) idx.

(** [d[k] = v] on a dictionary with numeric keys, kept in insertion order:
    a key that compares equal is reused. *)
Fixpoint dict_set {V} (d : list (float * V)) (k : float) (v : V)
  : list (float * V) :=
  match d with
  | [] => [(k, v)]
  | (k', v') :: d' =>
      if feq k' k then (k', v) :: d' else (k', v') :: dict_set d' k v
  end.

(** [d[k]], with [None] for a missing key. *)
Fixpoint dict_get {V} (d : list (float * V)) (k : float) : option V :=
  match d with
  | [] => None
  | (k', v') :: d' => if feq k' k then Some v' else dict_get d' k
  end.

(** The first loop: the sum of the ratios of the original branches. *)
Definition original_sum (branch_ratios : list (string * float)) : float :=
  foldl (fun current_sum (kv : string * float) =>
           if bool_decide (kv.1 ∈ agc_original_branches)
           then f64_add current_sum kv.2 else current_sum)
        f64_0 branch_ratios.

(** The inner loop for one percentage: branches are appended, smallest
    first, until 100 times the running sum reaches the percentage. *)
Fixpoint select_branches (percent current_sum : float)
  (branches : list (string * float)) : list string :=
  match branches with
  | [] => []
  | (key, value) :: rest =>
      let current_sum := f64_add current_sum value in
      if fge (f64_mul f64_100 current_sum) percent then [key]
      else key :: select_branches percent current_sum rest
  end.

(** The configuration file: a JSON object whose values are objects or
    other values; what the script does not touch is kept as its text,
    and the entry it writes is the dictionary itself. *)
Inductive json_entry :=
| json_branches (d : list (float * list string))
| json_text (text : string).
Inductive json_section :=
| json_object (fields : gmap string json_entry)
| json_scalar (text : string).

(** [current_sum] starts as the integer 0 and becomes a float with the
    first ratio added to it: it is still an integer after the first loop
    exactly when no original branch is among the ratios. *)
Definition has_original (branch_ratios : list (string * float)) : bool :=
  existsb (fun kv : string * float =>
             bool_decide (kv.1 ∈ agc_original_branches)) branch_ratios.

(** [main()].  The two arguments are what [json.load] gives for the two
    files ([None] when a file is missing or is not a JSON object; the
    ratios are floats); the result is the object [json.dump] writes to
    the configuration file.  [config["benchmarking"]] raises when the
    key is missing, the item assignment raises when its value is not an
    object, and [json.dump] raises on the first key of the dictionary
    when it is a numpy integer: [np.round] of the integer 0. *)
Definition main `{Numpy}
  (ratio_json : option (list (string * float)))
  (config_json : option (gmap string json_section))
  : option (gmap string json_section) :=
  branch_ratios ← ratio_json;
  let io_branch_dict :=
    dict_set [] (np_round (f64_mul f64_100 (original_sum branch_ratios)) 1)
             agc_original_branches in
  let sortind := np_argsort (branch_ratios.*2) in
  keys ← np_take (branch_ratios.*1) sortind;
  values ← np_take (branch_ratios.*2) sortind;
  let io_branch_dict :=
    foldl (fun d percent =>
             dict_set d percent
               (select_branches percent f64_0 (zip keys values)))
          io_branch_dict desired_percents in
  config ← config_json;
  benchmarking ← config !! "benchmarking";
  fields ← match benchmarking with
           | json_object fields => Some fields
           | json_scalar _ => None
           end;
  let config :=
    <["benchmarking" :=
        json_object (<["IO_BRANCHES" := json_branches io_branch_dict]> fields)]>
      config in
  guard (has_original branch_ratios = true);;
  Some config.

(** The running sum after the first [n] values. *)
Definition running_sum (start : float) (values : list float) (n : nat)
  : float :=
  foldl f64_add start (take n values).

End IOBranches.
Export IOBranches.

(** ** Trijet candidates and the domain of the processor *)

Module Trijet.

Section Candidates.
Context `{Kinematics}.

(** The four-momentum and the largest b-tag score of a trijet candidate,
    and the candidates kept by [trijet[trijet.max_btag > B_TAG_THRESHOLD]]. *)
Definition trijet_p4 (c : Jet_t * Jet_t * Jet_t) : LorentzVector :=
  p4_add (p4_add (p4_of_jet c.1.1) (p4_of_jet c.1.2)) (p4_of_jet c.2).
Definition trijet_max_btag (c : Jet_t * Jet_t * Jet_t) : float :=
  np_maximum (btagCSVV2 c.1.1)
             (np_maximum (btagCSVV2 c.1.2) (btagCSVV2 c.2)).
Definition btagged_trijets (jets : list Jet_t)
  : list (Jet_t * Jet_t * Jet_t) :=
  List.filter (fun c => fgt (trijet_max_btag c) B_TAG_THRESHOLD)
              (combinations3 jets).
End Candidates.

(** Jets whose b-tag score is a number. *)
Definition btag_not_nan (jets : list Jet_t) : Prop :=
  Forall (fun j => is_nan (btagCSVV2 j) = false) jets.

(** A permutation table that serves every event the selection lets
    through: its largest key is at least four, and every jet count from
    four to that key has an entry that is not empty and whose indices
    are below the count. *)
Definition table_covers (permutations_dict : gmap nat (list perm)) : Prop :=
  exists kmax,
    max_key permutations_dict = Some kmax /\ 4 <= kmax
    /\ forall n, 4 <= n <= kmax ->
         exists ps, permutations_dict !! n = Some ps /\ ps <> []
           /\ Forall (fun p => i0 p < n /\ i1 p < n /\ i2 p < n /\ i3 p < n)
                     ps.

(** The two models return on the feature rows of region 4j2b that they
    are given, for the jet-pT variation [v]. *)
Definition models_return `{Kinematics} `{Rng} `{Classifier}
  (permutations_dict : gmap nat (list perm)) (events : list Event)
  (v : pt_var) : Prop :=
  forall features perm_counts,
    get_features (selected_jets_region events v R4j2b)
                 (selected_electrons_region events v R4j2b)
                 (selected_muons_region events v R4j2b)
                 permutations_dict = Some (features, perm_counts) ->
    let even_perm := np_repeat (even_region events v R4j2b) perm_counts in
    is_Some (predict_even (mask_select (nd_data features) even_perm))
    /\ is_Some (predict_odd
                  (mask_select (nd_data features) (np_invert even_perm))).


(** The (region, variation) labels [process] fills for a sample. *)
Definition btag_labels : list string :=
  ["btag_var_0_up"; "btag_var_0_down"; "btag_var_1_up"; "btag_var_1_down";
   "btag_var_2_up"; "btag_var_2_down"; "btag_var_3_up"; "btag_var_3_down"].
Definition nominal_labels (process_name : string) : list string :=
  "nominal"
  :: (if String.eqb process_name "wjets"
      then ["scale_var_up"; "scale_var_down"] else [])
  ++ btag_labels.
Definition fill_labels (process_name variation : string)
  : list (string * string) :=
  if String.eqb variation "nominal" then
    (pair "4j1b" <$> nominal_labels process_name)
    ++ (pair "4j2b" <$> nominal_labels process_name)
    ++ [("4j1b", "pt_scale_up"); ("4j2b", "pt_scale_up");
        ("4j1b", "pt_res_up"); ("4j2b", "pt_res_up")]
  else [("4j1b", variation); ("4j2b", variation)].

(** The pass of the loop over [pt_variations] that a fill comes from,
    read off its variation label: for a nominal sample the labels
    "pt_scale_up" and "pt_res_up" are those of the two jet-pT
    variations, every other fill is made with the nominal jet pT. *)
Definition fill_pt_var (variation : string) (f : fill_call) : pt_var :=
  if String.eqb variation "nominal" then
    if String.eqb (f_variation f) "pt_scale_up" then pt_scale_up
    else if String.eqb (f_variation f) "pt_res_up" then pt_res_up
    else pt_nominal
  else pt_nominal.

End Trijet.
Export Trijet.

(** ** The counters of the output of [process] *)

Module Output.

(** The counters returned beside the histogram. *)
Record counters := mkCounters {
  nevents : nat;
  training_entries : nat;
  nevents_reduced : nat }.

Section Counters.
Context `{Kinematics} `{Rng} `{Classifier}.
Variables (use_triton : bool) (permutations_dict : gmap nat (list perm)).
Variables (process_name variation : string).
Variables (events : list Event).

(** The value of the loop variable [pt_var] after the loop. *)
Definition last_pt_var : pt_var :=
  List.last (pt_variations variation) pt_nominal.

(** [len(events)], [len(features)] and [len(observable)] when [process]
    builds its output: [features] and [observable] are the variables
    left by the last pass of the two loops, that is region "4j2b" of the
    last jet-pT variation. *)
Definition process_counters : option counters :=
  _ ← process use_triton permutations_dict process_name variation events;
  '(features, perm_counts) ←
    get_features (selected_jets_region events last_pt_var R4j2b)
                 (selected_electrons_region events last_pt_var R4j2b)
                 (selected_muons_region events last_pt_var R4j2b)
                 permutations_dict;
  '(observable, ML_observable) ←
    region_observables permutations_dict events last_pt_var R4j2b;
  Some (mkCounters (length events) (nd_shape features).1
                   (length observable)).
End Counters.

End Output.
Export Output.

(** ** More concrete inputs *)

Module MoreExamples.

(** The jet pT of two events, with two and three jets. *)
Definition example_jet_pts : list (list float) :=
  [[f32_of_Z 30; f32_of_Z 40]; [f32_of_Z 26; f32_of_Z 50; f32_of_Z 60]].

(** The resolution factors of the first event of the batch under
    [example_rng]. *)
Definition example_resolution : modifier :=
  per_jet [f64_1; f64_1; f64_1; f64_1; f64_1].

(** The trijet mass of the four jets of [example_jets_4]. *)
Definition example_trijet_mass : float :=
  Eval vm_compute in
    default f64_0 (@trijet_mass example_kinematics example_jets_4).

(** Scores for the two rows of [example_features_sparse]. *)
Definition example_results_sparse : list float := [f64_of_Z 3; f64_of_Z 1].

(** A jet whose b-tag score is exactly the threshold, and an event with
    two such jets among four. *)
Definition example_jet_at_threshold (p m : Z) : Jet_t :=
  mkJet (f32_of_Z p) (f32_of_Z 0) (f32_of_Z 1) (f32_of_Z m)
        f32_0_5 (f32_of_Z 0).
Definition example_event_11 : Event :=
  mkEvent [example_lepton 30] []
    [example_jet_at_threshold 30 5; example_jet_at_threshold 40 6;
     example_jet 50 7 false; example_jet 60 8 false] 11.

(** Branch ratios that are already sorted, with a sort that returns the
    positions in order and a rounding that returns its argument; a
    configuration file with an empty "benchmarking" object, and the
    object written for it. *)
Definition example_numpy : Numpy :=
  {| np_argsort := fun xs => seq 0 (length xs);
     np_round := fun x _ => x;
     np_argsort_positions := fun xs => Permutation_refl _ |}.
Definition example_branch_ratios : list (string * float) :=
  [("Jet_pt", f64_0_05); ("Jet_eta", f64_0_05); ("Muon_pt", f64_0_05);
   ("Tau_pt", f64_1)].
Definition example_config : gmap string json_section :=
  <["benchmarking" := json_object ∅]> (<["version" := json_scalar "1"]> ∅).
Definition example_io_branch_dict : list (float * list string) :=
  [(S754_finite false 8444249301319681 (-49), agc_original_branches);
   (f64_15, ["Jet_pt"; "Jet_eta"; "Muon_pt"]);
   (f64_25, ["Jet_pt"; "Jet_eta"; "Muon_pt"; "Tau_pt"]);
   (f64_50, ["Jet_pt"; "Jet_eta"; "Muon_pt"; "Tau_pt"])].
Definition example_config_written : gmap string json_section :=
  <["benchmarking" :=
      json_object (<["IO_BRANCHES" := json_branches example_io_branch_dict]> ∅)]>
    example_config.

(** Ratios without any of the original branches. *)
Definition example_other_ratios : list (string * float) :=
  [("Tau_pt", f64_0_05); ("Tau_eta", f64_1)].

(** A batch whose only event of region 4j2b has an odd event number, and
    the feature matrix of that region. *)
Definition example_odd_batch : list Event := [example_event_7].

(** The counters of the batch, as the nominal sample of process "ttbar". *)
Definition example_counters : counters :=
  Eval vm_compute in
    default (mkCounters 0 0 0)
      (@process_counters example_kinematics example_rng example_classifier
         false example_dict "ttbar" "nominal" example_events).

End MoreExamples.
Export MoreExamples.

(** * Proofs *)

(** ** Facts about floating point comparison *)

Module FloatFacts.

Lemma SFcompare_key (x y : float) :
  is_nan x = false -> is_nan y = false ->
  SFcompare x y =
    Some (if decide (key_lt (key x) (key y)) then Lt
          else if decide (key x = key y) then Eq else Gt).
Proof.
  intros Hx Hy.
  destruct x as [sx|sx| |sx mx ex], y as [sy|sy| |sy my ey];
    try discriminate; try destruct sx; try destruct sy; simpl;
    unfold key_lt; simpl;
    try (repeat case_decide; first [reflexivity | exfalso; lia | congruence ]).
  - change (Pos.compare_cont Eq mx my) with (mx ?= my)%positive.
    destruct (Z.compare_spec ex ey), (Pos.compare_spec mx my);
      repeat case_decide; simplify_eq; try reflexivity; exfalso; lia.
  - change (Pos.compare_cont Eq mx my) with (mx ?= my)%positive.
    destruct (Z.compare_spec ex ey), (Pos.compare_spec mx my);
      repeat case_decide; simplify_eq; try reflexivity; exfalso; lia.
Qed.


Lemma SFcompare_nan (x y : float) :
  is_nan x = true \/ is_nan y = true -> SFcompare x y = None.
Proof. destruct x, y; simpl; intros [?|?]; congruence. Qed.

Lemma fgt_spec (a b : float) :
  fgt a b = true <->
  is_nan a = false /\ is_nan b = false /\ key_lt (key b) (key a).
Proof.
  unfold fgt, SFltb.
  destruct (is_nan a) eqn:Ha; [|destruct (is_nan b) eqn:Hb].
  - rewrite SFcompare_nan by auto. intuition congruence.
  - rewrite SFcompare_nan by auto. intuition congruence.
  - rewrite SFcompare_key by done.
    repeat case_decide; intuition congruence.
Qed.

Lemma fge_spec (a b : float) :
  fge a b = true <->
  is_nan a = false /\ is_nan b = false
  /\ (key_lt (key b) (key a) \/ key b = key a).
Proof.
  unfold fge, SFleb.
  destruct (is_nan a) eqn:Ha; [|destruct (is_nan b) eqn:Hb].
  - rewrite SFcompare_nan by auto. intuition congruence.
  - rewrite SFcompare_nan by auto. intuition congruence.
  - rewrite SFcompare_key by done.
    repeat case_decide; intuition congruence.
Qed.

(** [a > b] implies [a >= b]. *)
Lemma fgt_fge (a b : float) : fgt a b = true -> fge a b = true.
Proof. rewrite fgt_spec, fge_spec. tauto. Qed.

Lemma fge_refl (a : float) : is_nan a = false -> fge a a = true.
Proof. rewrite fge_spec. tauto. Qed.

Lemma key_lt_total (a b : Z * Z * Z) : key_lt a b \/ a = b \/ key_lt b a.
Proof.
  destruct a as [[a1 a2] a3], b as [[b1 b2] b3]; unfold key_lt; simpl.
  destruct (Z.lt_total a1 b1) as [?|[?|?]],
           (Z.lt_total a2 b2) as [?|[?|?]],
           (Z.lt_total a3 b3) as [?|[?|?]]; subst; auto 10; lia.
Qed.

Lemma key_lt_trans (a b c : Z * Z * Z) :
  key_lt a b -> key_lt b c -> key_lt a c.
Proof. unfold key_lt. lia. Qed.

(** Without NaN, "not greater" is "at most". *)
Lemma not_fgt_fge (a b : float) :
  is_nan a = false -> is_nan b = false ->
  fgt a b = false -> fge b a = true.
Proof.
  intros Ha Hb Hgt. rewrite fge_spec. split_and!; try done.
  destruct (key_lt_total (key a) (key b)) as [?|[?|?]]; auto.
  assert (fgt a b = true) by (apply fgt_spec; done). congruence.
Qed.

Lemma fge_fgt_trans (a b c : float) :
  fge a b = true -> fgt c a = true -> fgt c b = true.
Proof.
  rewrite fge_spec, !fgt_spec. intros (?&?&[?|Heq]) (?&?&?); split_and!; try done.
  - by eapply key_lt_trans.
  - by rewrite Heq.
Qed.

End FloatFacts.

(** ** Facts about the array primitives *)

Module ArrayFacts.

Section Masks.
Context {A B : Type}.
Implicit Types (xs : list A) (mask : list bool).

Lemma mask_select_nil_l mask : mask_select (@nil A) mask = [].
Proof. reflexivity. Qed.

Lemma mask_select_cons x xs b mask :
  mask_select (x :: xs) (b :: mask)
  = if b then x :: mask_select xs mask else mask_select xs mask.
Proof. unfold mask_select. simpl. by destruct b. Qed.

(** Selecting with a mask computed from the rows themselves is a filter. *)
Lemma mask_select_rows (f : B -> A) (p : B -> bool) (rows : list B) :
  mask_select (f <$> rows) (p <$> rows) = f <$> List.filter p rows.
Proof.
  induction rows as [|r rows IH]; [done|].
  rewrite !fmap_cons, mask_select_cons. simpl.
  destruct (p r); simpl; by rewrite IH.
Qed.

Lemma mask_select_self (p : A -> bool) xs :
  mask_select xs (p <$> xs) = List.filter p xs.
Proof.
  induction xs as [|x xs IH]; [done|].
  rewrite fmap_cons, mask_select_cons. simpl.
  destruct (p x); simpl; by rewrite IH.
Qed.

Lemma count_true_fmap (p : A -> bool) xs :
  count_true (p <$> xs) = length (List.filter p xs).
Proof.
  unfold count_true. induction xs as [|x xs IH]; [done|].
  csimpl. change (id (p x)) with (p x).
  destruct (p x); simpl; by rewrite IH.
Qed.

Lemma mask_select_length xs mask :
  length mask <= length xs ->
  length (mask_select xs mask) = count_true mask.
Proof.
  revert mask. induction xs as [|x xs IH]; intros [|b mask] Hlen;
    simpl in *; try done; try lia.
  rewrite mask_select_cons. unfold count_true in *. simpl.
  destruct b; simpl; rewrite IH by lia; done.
Qed.

Lemma mask_select_length_le xs mask :
  length (mask_select xs mask) <= length mask.
Proof.
  revert mask. induction xs as [|x xs IH]; intros [|b mask];
    simpl; try done; try lia.
  rewrite mask_select_cons.
  destruct b; simpl; specialize (IH mask); lia.
Qed.
End Masks.

Lemma count_true_le (mask : list bool) : count_true mask <= length mask.
Proof.
  unfold count_true. induction mask as [|[] mask IH]; simpl; lia.
Qed.

Lemma filter_length_fmap {A B} (f : A -> B) (p : B -> bool) (l : list A) :
  length (List.filter p (f <$> l)) = length (List.filter (fun x => p (f x)) l).
Proof.
  induction l as [|x l IH]; [done|]. csimpl.
  destruct (p (f x)); simpl; by rewrite IH.
Qed.

Lemma length_unflatten {A} (xs : list A) (counts : list nat) :
  length (unflatten xs counts) = length counts.
Proof.
  revert xs. induction counts as [|c cs IH]; intros xs; simpl; [done|].
  by rewrite IH.
Qed.

End ArrayFacts.

(** ** Facts about the event selection *)

Module SelectionFacts.
Import FloatFacts ArrayFacts.

Lemma count_true_mono {A} (p q : A -> bool) (xs : list A) :
  (forall x, p x = true -> q x = true) ->
  count_true (p <$> xs) <= count_true (q <$> xs).
Proof.
  intros Hpq. rewrite !count_true_fmap.
  induction xs as [|x xs IH]; simpl; [done|].
  destruct (p x) eqn:Hp.
  - rewrite (Hpq _ Hp). simpl. lia.
  - destruct (q x); simpl; lia.
Qed.

(** The two region masks never hold together on one event. *)
Lemma region_filter_exclusive (jets : list Jet_t) :
  region_filter R4j1b jets && region_filter R4j2b jets = false.
Proof.
  unfold region_filter.
  pose proof (count_true_mono
    (fun j => fgt (btagCSVV2 j) B_TAG_THRESHOLD)
    (fun j => fge (btagCSVV2 j) B_TAG_THRESHOLD) jets
    (fun j => fgt_fge _ _)) as Hle.
  destruct (Nat.eqb_spec
    (count_true ((fun j => fge (btagCSVV2 j) B_TAG_THRESHOLD) <$> jets)) 1)
    as [H1|]; [|done].
  rewrite andb_true_l. apply Nat.leb_gt. lia.
Qed.

Lemma zip_with_uncurry {A B C} (f : A -> B -> C) (l : list A) (k : list B) :
  zip_with f l k = (fun p : A * B => f p.1 p.2) <$> zip l k.
Proof.
  revert k. induction l as [|x l IH]; intros [|y k]; try done.
  csimpl. by rewrite IH.
Qed.

Lemma mask_select_zip_with {A B C} (q : C -> bool) (f : B -> B -> C)
  (g : A -> B) (js : list A) (xs : list B) :
  mask_select js (q <$> zip_with f (g <$> js) xs)
  = fst <$> List.filter (fun jx : A * B => q (f (g jx.1) jx.2)) (zip js xs).
Proof.
  revert xs. induction js as [|j js IH]; intros [|x xs]; try done.
  csimpl. rewrite mask_select_cons.
  destruct (q (f (g j) x)); csimpl; by rewrite IH.
Qed.

(** The selected jets are the jets whose scaled pT passes the cut. *)
Lemma selected_jets_spec (e : Event) (m : modifier) :
  selected_jets e m = fst <$> List.filter passes_pt (jets_with_factor e m).
Proof.
  unfold selected_jets, jet_filter, passes_pt.
  destruct m as [x|xs]; simpl.
  - rewrite <-!list_fmap_compose.
    rewrite mask_select_self.
    induction (Jet e) as [|j js IH]; [done|]. csimpl.
    destruct (fgt _ _); csimpl; by rewrite IH.
  - apply (mask_select_zip_with (fun x => fgt x f64_25) f64_mul pt).
Qed.

Lemma jet_filter_length_le (e : Event) (m : modifier) :
  length (jet_filter e m) <= length (Jet e).
Proof.
  unfold jet_filter. rewrite length_fmap.
  destruct m as [x|xs]; simpl.
  - by rewrite !length_fmap.
  - rewrite length_zip_with, length_fmap. lia.
Qed.

Lemma selected_jets_length (e : Event) (m : modifier) :
  length (selected_jets e m) = count_true (jet_filter e m).
Proof. apply mask_select_length, jet_filter_length_le. Qed.

(** [ak.count(selected_jets.pt * pt_var_modifier)] counts the selected
    jets, whichever variation is applied. *)
Lemma scaled_selected_length (v : pt_var) (e : Event) (m : modifier) :
  length (bmul (pt <$> selected_jets e m) (pt_var_modifier v e m))
  = length (selected_jets e m).
Proof.
  unfold pt_var_modifier.
  destruct m as [x|xs]; simpl.
  - destruct (negb (has_res v)); simpl; by rewrite !length_fmap.
  - assert (length (jet_filter e (per_jet xs)) <= length xs) as Hxs.
    { unfold jet_filter. simpl. rewrite length_fmap, length_zip_with. lia. }
    destruct (negb (has_res v)); simpl;
      rewrite length_zip_with, length_fmap, selected_jets_length.
    + pose proof (count_true_le (jet_filter e (per_jet xs))). lia.
    + rewrite mask_select_length by done. lia.
Qed.

(** The selection mask of the source and the selection in the words of
    the specification agree on every event. *)
Lemma event_filter_spec (v : pt_var) (e : Event) (m : modifier) :
  event_filter v e m = true <-> selection_spec e m.
Proof.
  unfold event_filter, selection_spec.
  rewrite !andb_true_iff, Nat.eqb_eq, !Nat.leb_le.
  rewrite scaled_selected_length, !length_fmap.
  unfold selected_electrons, selected_muons.
  rewrite !mask_select_self, filter_app, length_app.
  rewrite count_true_fmap, selected_jets_spec.
  rewrite filter_length_fmap, length_fmap.
  unfold B_TAG_THRESHOLD. tauto.
Qed.

Section Batch.
Context `{Rng}.
Variables (events : list Event) (v : pt_var).

Lemma events_pt_var_length : length (events_pt_var events v) = length events.
Proof.
  destruct v; simpl; rewrite ?length_fmap; try done.
  unfold jet_pt_resolution. by rewrite length_unflatten, !length_fmap.
Qed.

Lemma rows_fst : seq 0 (length events) = fst <$> batch_rows events v.
Proof.
  unfold batch_rows. rewrite fst_zip; [done|].
  rewrite length_seq, length_zip, events_pt_var_length. lia.
Qed.

Lemma event_filters_rows :
  event_filters events v = row_passes v <$> batch_rows events v.
Proof.
  unfold event_filters, batch_rows. rewrite zip_with_uncurry.
  rewrite <-(snd_zip (seq 0 (length events))
                     (zip events (events_pt_var events v))) at 1
    by (rewrite length_seq, length_zip, events_pt_var_length; lia).
  by rewrite <-list_fmap_compose.
Qed.

Lemma selected_jets_rows :
  zip_with selected_jets events (events_pt_var events v)
  = row_jets <$> batch_rows events v.
Proof.
  unfold batch_rows. rewrite zip_with_uncurry.
  rewrite <-(snd_zip (seq 0 (length events))
                     (zip events (events_pt_var events v))) at 1
    by (rewrite length_seq, length_zip, events_pt_var_length; lia).
  by rewrite <-list_fmap_compose.
Qed.

Lemma selected_jets_col_rows :
  selected_jets_col events v
  = row_jets <$> List.filter (row_passes v) (batch_rows events v).
Proof.
  unfold selected_jets_col.
  by rewrite selected_jets_rows, event_filters_rows, mask_select_rows.
Qed.

Lemma region_indices_rows (r : region) :
  region_indices events v r = fst <$> region_rows events v r.
Proof.
  unfold region_indices, region_filters.
  rewrite selected_jets_col_rows, rows_fst, event_filters_rows.
  rewrite mask_select_rows, <-list_fmap_compose.
  apply mask_select_rows.
Qed.

Lemma rows_lookup (x : nat * (Event * modifier)) :
  x ∈ batch_rows events v <->
  events !! x.1 = Some x.2.1 /\ events_pt_var events v !! x.1 = Some x.2.2.
Proof.
  destruct x as [i [e m]]. unfold batch_rows. simpl.
  rewrite list_elem_of_lookup. split.
  - intros [k Hk]. apply lookup_zip_Some in Hk as [Hi Hk].
    apply lookup_seq in Hi as [-> _]. by apply lookup_zip_Some in Hk.
  - intros [He Hm]. exists i. apply lookup_zip_Some. split.
    + apply lookup_seq. split; [done|]. by eapply lookup_lt_Some.
    + by apply lookup_zip_Some.
Qed.

(** An event reaches a region exactly when it passes the selection
    mask and the region mask. *)
Lemma region_indices_spec (r : region) (i : nat) :
  i ∈ region_indices events v r <->
  exists e m, events !! i = Some e
    /\ events_pt_var events v !! i = Some m
    /\ event_filter v e m = true
    /\ region_filter r (selected_jets e m) = true.
Proof.
  rewrite region_indices_rows, list_elem_of_fmap. unfold region_rows. split.
  - intros [[k [e m]] [-> Hin]].
    apply list_elem_of_In, filter_In in Hin as [Hin Hr].
    apply filter_In in Hin as [Hin He].
    apply list_elem_of_In, rows_lookup in Hin as [? ?].
    by exists e, m.
  - intros (e & m & He & Hm & Hf & Hr). exists (i, (e, m)).
    split; [done|]. apply list_elem_of_In, filter_In. split; [|done].
    apply filter_In. split; [|done].
    apply list_elem_of_In, rows_lookup. done.
Qed.

Lemma event_filters_lookup (i : nat) (e : Event) (m : modifier) :
  events !! i = Some e -> events_pt_var events v !! i = Some m ->
  event_filters events v !! i = Some (event_filter v e m).
Proof.
  intros He Hm. unfold event_filters.
  rewrite lookup_zip_with, He. simpl. by rewrite Hm.
Qed.
End Batch.

End SelectionFacts.

(** ** The feature matrix, row by row *)

Module FeatureFacts.
Import ArrayFacts.

Section Jagged.
Context {A B C D : Type}.

Lemma jmap_jmap (f : B -> C) (g : A -> B) (X : list (list A)) :
  jmap f (jmap g X) = jmap (fun x => f (g x)) X.
Proof.
  unfold jmap. rewrite <-list_fmap_compose.
  apply list_fmap_ext; intros _ xs _; simpl.
  by rewrite <-list_fmap_compose.
Qed.

Lemma jmap2_jmap (f : B -> C -> D) (g : A -> B) (h : A -> C)
  (X : list (list A)) :
  jmap2 f (jmap g X) (jmap h X) = jmap (fun x => f (g x) (h x)) X.
Proof.
  unfold jmap2, jmap.
  induction X as [|xs X IH]; [done|]. csimpl. rewrite IH. f_equal.
  induction xs as [|x xs IHx]; [done|]. csimpl. by rewrite IHx.
Qed.

Lemma concat_jmap (f : A -> B) (X : list (list A)) :
  concat (jmap f X) = f <$> concat X.
Proof.
  unfold jmap. induction X as [|xs X IH]; [done|].
  csimpl. by rewrite IH, fmap_app.
Qed.
End Jagged.

(** Writing a column computed from the rows updates every row in place. *)
Lemma set_column_rows {A} (k n c : nat) (d : dtype)
  (g : A -> float) (rowf : A -> list float) (cs : list A) :
  k < c -> length cs = n ->
  set_column k (g <$> cs) (mkArray d (n, c) (rowf <$> cs))
  = Some (mkArray d (n, c)
            ((fun x => <[k := cast d (g x)]> (rowf x)) <$> cs)).
Proof.
  intros Hk Hn. unfold set_column. simpl.
  rewrite decide_True by (by rewrite length_fmap).
  do 2 f_equal. clear Hn.
  induction cs as [|x cs IH]; [done|]. csimpl. by rewrite IH.
Qed.

Lemma np_zeros_rows {A} (cs : list A) (c : nat) :
  np_zeros (length cs) c
  = mkArray float64 (length cs, c) ((fun _ => replicate c f64_0) <$> cs).
Proof.
  unfold np_zeros. f_equal.
  induction cs as [|x cs IH]; [done|]. csimpl. by rewrite IH.
Qed.

(** The four jet columns and the lepton column of one event are the
    projections of its picked objects. *)
Lemma mapM_cons {A B} (f : A -> option B) (x : A) (l : list A) :
  mapM f (x :: l) = y ← f x; k ← mapM f l; Some (y :: k).
Proof. reflexivity. Qed.

Lemma pick_one (js : list Jet_t) (l : Lepton_t) (p : perm) :
  match pick js l p with
  | Some c =>
      js !! i0 p = Some (p_j0 c) /\ js !! i1 p = Some (p_j1 c)
      /\ js !! i2 p = Some (p_j2 c) /\ js !! i3 p = Some (p_j3 c)
      /\ p_lep c = l
  | None =>
      js !! i0 p = None \/ js !! i1 p = None
      \/ js !! i2 p = None \/ js !! i3 p = None
  end.
Proof.
  unfold pick.
  destruct (js !! i0 p), (js !! i1 p), (js !! i2 p), (js !! i3 p);
    simpl; auto 10.
Qed.

Lemma pick_event (js : list Jet_t) (l : Lepton_t) (ps : list perm) :
  match mapM (pick js l) ps with
  | Some cs =>
      mapM (fun p => js !! i0 p) ps = Some (p_j0 <$> cs)
      /\ mapM (fun p => js !! i1 p) ps = Some (p_j1 <$> cs)
      /\ mapM (fun p => js !! i2 p) ps = Some (p_j2 <$> cs)
      /\ mapM (fun p => js !! i3 p) ps = Some (p_j3 <$> cs)
      /\ (fun _ => l) <$> ps = p_lep <$> cs
  | None =>
      mapM (fun p => js !! i0 p) ps = None
      \/ mapM (fun p => js !! i1 p) ps = None
      \/ mapM (fun p => js !! i2 p) ps = None
      \/ mapM (fun p => js !! i3 p) ps = None
  end.
Proof.
  induction ps as [|p ps IH]; [done|]. rewrite !mapM_cons, fmap_cons.
  pose proof (pick_one js l p) as Hp.
  destruct (pick js l p) as [c|].
  - destruct Hp as (-> & -> & -> & -> & Hl).
    destruct (mapM (pick js l) ps) as [cs|].
    + destruct IH as (-> & -> & -> & -> & ->). simpl. by rewrite Hl.
    + destruct IH as [->|[->|[->| ->]]]; simpl; auto.
  - destruct Hp as [->|[->|[->| ->]]]; simpl; auto.
Qed.

Lemma picks_columns (jets : list (list Jet_t)) (leptons : list Lepton_t)
  (perms : list (list perm)) :
  length jets = length perms -> length leptons = length perms ->
  match picks jets leptons perms with
  | Some cs =>
      jets_of i0 jets perms = Some (jmap p_j0 cs)
      /\ jets_of i1 jets perms = Some (jmap p_j1 cs)
      /\ jets_of i2 jets perms = Some (jmap p_j2 cs)
      /\ jets_of i3 jets perms = Some (jmap p_j3 cs)
      /\ zip_with (fun x (ys : list perm) => (fun _ => x) <$> ys)
                  leptons perms = jmap p_lep cs
      /\ length <$> cs = length <$> perms
  | None =>
      jets_of i0 jets perms = None \/ jets_of i1 jets perms = None
      \/ jets_of i2 jets perms = None \/ jets_of i3 jets perms = None
  end.
Proof.
  unfold picks, jets_of.
  revert jets leptons.
  induction perms as [|ps perms IH]; intros [|js jets] [|l leptons] Hj Hl;
    try discriminate; [done|].
  simpl in Hj, Hl.
  change (zip (zip (js :: jets) (l :: leptons)) (ps :: perms))
    with ((js, l, ps) :: zip (zip jets leptons) perms).
  change (zip (js :: jets) (ps :: perms))
    with ((js, ps) :: zip jets perms).
  rewrite !mapM_cons. cbv beta. cbn [fst snd].
  pose proof (pick_event js l ps) as Hev.
  specialize (IH jets leptons ltac:(lia) ltac:(lia)).
  destruct (mapM (pick js l) ps) as [c|].
  - destruct Hev as (-> & -> & -> & -> & Hlep).
    destruct (mapM _ (zip (zip jets leptons) perms)) as [cs|].
    + destruct IH as (-> & -> & -> & -> & Hb & Hlen). csimpl.
      rewrite Hlep, Hb, Hlen. split_and!; try done.
      do 2 f_equal.
      rewrite <-(length_fmap p_lep c), <-Hlep. by rewrite length_fmap.
    + destruct IH as [->|[->|[->| ->]]]; simpl; auto.
  - destruct Hev as [->|[->|[->| ->]]]; simpl; auto.
Qed.

End FeatureFacts.

Module FeatureEq.
Import ArrayFacts FeatureFacts.

Lemma bind_Some {A B} (x : A) (f : A -> option B) : Some x ≫= f = f x.
Proof. reflexivity. Qed.

Lemma bind_mret {A B} (x : A) (f : A -> option B) : mret x ≫= f = f x.
Proof. reflexivity. Qed.

Lemma bind_None {A B} (f : A -> option B) : None ≫= f = None.
Proof. reflexivity. Qed.

Lemma mapM_fmap_arg {A B C} (f : B -> option C) (g : A -> B) (l : list A) :
  mapM f (g <$> l) = mapM (fun x => f (g x)) l.
Proof.
  induction l as [|x l IH]; [done|].
  rewrite fmap_cons, !mapM_cons, IH. done.
Qed.

Section Eq.
Context `{Kinematics}.

Lemma get_features_eq jets electrons muons permutations_dict :
  get_features jets electrons muons permutations_dict
  = get_features_rowwise jets electrons muons permutations_dict.
Proof.
  unfold get_features, get_features_rowwise.
  destruct (max_key permutations_dict) as [kmax|]; [|done].
  rewrite !bind_Some, !mapM_fmap_arg.
  destruct (mapM _ jets) as [perms|] eqn:Hperms; [|done].
  rewrite !bind_Some.
  apply length_mapM in Hperms.
  unfold broadcast, jets_at.
  repeat case_guard; repeat case_decide;
    rewrite ?bind_mret, ?bind_Some, ?bind_None; try done.
  pose proof (picks_columns jets (concat (zip_with app electrons muons)) perms
                Hperms ltac:(done)) as Hcols.
  destruct (picks _ _ _) as [cs|].
  2:{ destruct Hcols as [->|[->|[->| ->]]]; rewrite ?bind_None; try done.
      all: repeat (match goal with |- (?x ≫= _) = None => destruct x end; rewrite ?bind_Some, ?bind_None; try done). }
  destruct Hcols as (-> & -> & -> & -> & -> & Hlen).
  rewrite !bind_Some.
  assert (sum_list (length <$> perms) = length (concat cs)) as ->.
  { rewrite <-Hlen. clear. induction cs as [|c cs IH]; [done|].
    csimpl. rewrite length_app. lia. }
  rewrite np_zeros_rows.
  unfold jsub, jadd, jsum, jp4.
  repeat (rewrite jmap_jmap || rewrite jmap2_jmap).
  rewrite !concat_jmap.
  repeat (rewrite set_column_rows by (done || lia); rewrite bind_Some).
  unfold astype. cbn [nd_shape nd_data]. do 3 f_equal.
  rewrite <-list_fmap_compose.
  apply list_fmap_ext; intros _ c _. reflexivity.
Qed.
End Eq.

End FeatureEq.

(** ** What [get_features] returns *)

Module FeatureRows.
Import ArrayFacts FeatureFacts FeatureEq.

Lemma unflatten_concat {A B} (f : A -> B) (cs : list (list A)) :
  unflatten (f <$> concat cs) (length <$> cs)
  = (fun c : list A => f <$> c) <$> cs.
Proof.
  induction cs as [|c cs IH]; [done|]. csimpl.
  rewrite fmap_app.
  rewrite take_app_length' by (by rewrite length_fmap).
  rewrite drop_app_length' by (by rewrite length_fmap).
  by rewrite IH.
Qed.

Lemma concat_fmap_fmap {A B} (f : A -> B) (cs : list (list A)) :
  concat ((fun c : list A => f <$> c) <$> cs) = f <$> concat cs.
Proof. apply (concat_jmap f cs). Qed.

Lemma sum_list_lengths {A} (cs : list (list A)) :
  sum_list (length <$> cs) = length (concat cs).
Proof.
  induction cs as [|c cs IH]; [done|]. csimpl. rewrite length_app. lia.
Qed.

Lemma picks_lookup (jets : list (list Jet_t)) (leptons : list Lepton_t)
  (perms : list (list perm)) (cs : list (list picked)) :
  picks jets leptons perms = Some cs ->
  length jets = length perms -> length leptons = length perms ->
  forall k js, jets !! k = Some js ->
    exists l ps ck, leptons !! k = Some l /\ perms !! k = Some ps
      /\ cs !! k = Some ck /\ mapM (pick js l) ps = Some ck.
Proof.
  unfold picks. intros Hp Hj Hl k js Hk.
  apply mapM_Some_1 in Hp.
  destruct (lookup_lt_is_Some_2 leptons k) as [l Hlk].
  { rewrite Hl, <-Hj. by eapply lookup_lt_Some. }
  destruct (lookup_lt_is_Some_2 perms k) as [ps Hpk].
  { rewrite <-Hj. by eapply lookup_lt_Some. }
  assert (zip (zip jets leptons) perms !! k = Some (js, l, ps)) as Hz.
  { apply lookup_zip_Some. split; [|done]. by apply lookup_zip_Some. }
  destruct (Forall2_lookup_l _ _ _ _ _ Hp Hz) as (ck & Hck & Hm).
  by exists l, ps, ck.
Qed.

Section Rows.
Context `{Kinematics}.

Lemma feature_row_length (c : picked) : length (feature_row c) = 28.
Proof. reflexivity. Qed.

(** The result of [get_features], event by event. *)
Lemma get_features_rows jets electrons muons permutations_dict F counts :
  get_features jets electrons muons permutations_dict = Some (F, counts) ->
  exists cs,
    F = mkArray float32 (sum_list counts, 28) (feature_row <$> concat cs)
    /\ counts = length <$> cs
    /\ length cs = length jets
    /\ forall k js, jets !! k = Some js ->
         exists l ps ck,
           concat (zip_with app electrons muons) !! k = Some l
           /\ event_perms permutations_dict js = Some ps
           /\ mapM (pick js l) ps = Some ck
           /\ cs !! k = Some ck.
Proof.
  rewrite get_features_eq. unfold get_features_rowwise, event_perms.
  intros Hg.
  destruct (max_key permutations_dict) as [kmax|]; [|discriminate].
  rewrite bind_Some in Hg.
  destruct (mapM _ jets) as [perms|] eqn:Hperms; [|discriminate].
  rewrite bind_Some in Hg.
  repeat case_guard; try discriminate. rewrite !bind_mret in Hg.
  destruct (picks _ _ _) as [cs|] eqn:Hcs; [|discriminate].
  rewrite bind_Some in Hg. injection Hg as <- <-.
  pose proof (length_mapM _ _ _ Hperms) as Hlen.
  pose proof (picks_columns jets (concat (zip_with app electrons muons))
                perms Hlen ltac:(done)) as Hcols.
  rewrite Hcs in Hcols. destruct Hcols as (_ & _ & _ & _ & _ & Hshape).
  exists cs. rewrite Hshape. split_and!; try done.
  - rewrite Hlen, <-(length_fmap length perms), <-Hshape.
    by rewrite length_fmap.
  - intros k js Hk.
    destruct (picks_lookup _ _ _ _ Hcs Hlen ltac:(done) k js Hk)
      as (l & ps & ck & Hl & Hps & Hck & Hm).
    exists l, ps, ck. split_and!; try done.
    apply mapM_Some_1 in Hperms.
    destruct (Forall2_lookup_l _ _ _ _ _ Hperms Hk) as (ps' & Hps' & Hd).
    by simplify_eq.
Qed.
End Rows.

End FeatureRows.

Module FeatureTotal.
Import ArrayFacts FeatureFacts FeatureEq FeatureRows.

Lemma one_lepton_length (electrons muons : list (list Lepton_t)) :
  Forall2 (fun e m => length (e ++ m) = 1) electrons muons ->
  length (concat (zip_with app electrons muons)) = length electrons.
Proof.
  induction 1 as [|e m es ms Hone _ IH]; [done|].
  csimpl. rewrite length_app, Hone, IH. done.
Qed.

Lemma pick_is_Some (js : list Jet_t) (l : Lepton_t) (p : perm) :
  i0 p < length js /\ i1 p < length js /\ i2 p < length js
  /\ i3 p < length js ->
  is_Some (pick js l p).
Proof.
  intros (H0 & H1 & H2 & H3). unfold pick.
  destruct (lookup_lt_is_Some_2 js _ H0) as [a0 ->].
  destruct (lookup_lt_is_Some_2 js _ H1) as [a1 ->].
  destruct (lookup_lt_is_Some_2 js _ H2) as [a2 ->].
  destruct (lookup_lt_is_Some_2 js _ H3) as [a3 ->].
  by eexists.
Qed.

(** The array of permutations of a batch holds a permutation exactly
    when some event has one. *)
Lemma perms_not_empty (permutations_dict : gmap nat (list perm))
  (kmax : nat) (jets : list (list Jet_t)) (perms : list (list perm)) :
  max_key permutations_dict = Some kmax ->
  mapM (fun js : list Jet_t =>
          permutations_dict !!
            (if decide (kmax < length js) then kmax else length js)) jets
  = Some perms ->
  concat perms <> []
  <-> Exists (fun js : list Jet_t =>
                exists ps, event_perms permutations_dict js = Some ps
                           /\ ps <> []) jets.
Proof.
  intros Hmax Hperms. apply mapM_Some_1 in Hperms.
  induction Hperms as [|js ps jets perms Hjs _ IH].
  - split; [done|]. intros Hex. by apply Exists_nil in Hex.
  - rewrite List.Exists_cons, <-IH. cbn [concat].
    unfold event_perms. rewrite Hmax, bind_Some, Hjs.
    split.
    + intros Hne. destruct ps as [|p ps]; [by right|].
      left. by exists (p :: ps).
    + intros [(ps' & [= <-] & Hps)|Hrest] Happ;
        apply app_eq_nil in Happ as [? ?]; done.
Qed.

Section Total.
Context `{Kinematics}.

(** On the inputs it is written for, [get_features] returns. *)
Lemma get_features_total jets electrons muons permutations_dict :
  well_formed_input jets electrons muons permutations_dict ->
  is_Some (get_features jets electrons muons permutations_dict).
Proof.
  intros (Hel & Hmu & Hone & Hsome & kmax & Hmax & Hjets).
  rewrite get_features_eq. unfold get_features_rowwise.
  rewrite Hmax, bind_Some.
  destruct (mapM_is_Some_2
    (fun js : list Jet_t =>
       permutations_dict !!
         (if decide (kmax < length js) then kmax else length js)) jets)
    as [perms Hperms].
  { eapply List.Forall_impl; [|exact Hjets].
    intros js (ps & Hps & _). unfold compose. rewrite Hps. by eexists. }
  rewrite Hperms, bind_Some.
  pose proof (length_mapM _ _ _ Hperms) as Hlen.
  pose proof (one_lepton_length _ _ Hone) as Hlep.
  pose proof (proj2 (perms_not_empty _ _ _ _ Hmax Hperms) Hsome) as Hne.
  repeat case_guard; try lia; try done. rewrite !bind_mret.
  destruct (mapM_is_Some_2
    (fun x : list Jet_t * Lepton_t * list perm =>
       mapM (pick x.1.1 x.1.2) x.2)
    (zip (zip jets (concat (zip_with app electrons muons))) perms))
    as [cs Hcs]; [|unfold picks; rewrite Hcs; by eexists].
  apply Forall_lookup. intros k [[js l] ps] Hk.
  apply lookup_zip_Some in Hk as [Hk Hps].
  apply lookup_zip_Some in Hk as [Hjs Hl]. simpl.
  apply mapM_is_Some_2.
  apply mapM_Some_1 in Hperms.
  destruct (Forall2_lookup_l _ _ _ _ _ Hperms Hjs) as (ps' & Hps' & Hd).
  destruct (proj1 (Forall_lookup _ _) Hjets k js Hjs) as (ps'' & Hd' & Hr).
  simplify_eq.
  eapply List.Forall_impl; [|exact Hr]. intros p Hp. by apply pick_is_Some.
Qed.

(** Without a single permutation in the batch, [get_features] raises. *)
Lemma get_features_needs_permutation jets electrons muons permutations_dict :
  is_Some (get_features jets electrons muons permutations_dict) ->
  Exists (fun js : list Jet_t =>
            exists ps, event_perms permutations_dict js = Some ps
                       /\ ps <> []) jets.
Proof.
  rewrite get_features_eq. unfold get_features_rowwise. intros [x Hx].
  destruct (max_key permutations_dict) as [kmax|] eqn:Hmax; [|done].
  rewrite bind_Some in Hx.
  destruct (mapM _ jets) as [perms|] eqn:Hperms; [|done].
  rewrite bind_Some in Hx.
  apply (perms_not_empty _ _ _ _ Hmax Hperms).
  repeat case_guard; done.
Qed.
End Total.

End FeatureTotal.

(** ** Claims about the feature extractor *)

Module FeatureClaims.
Import ArrayFacts FeatureFacts FeatureEq FeatureRows FeatureTotal.

Section Claims.
Context `{Kinematics}.

(** Everything [get_features] returns, event by event: the dtype and
    shape of the matrix, the count of each event, and the block of rows
    of each event in the flattened matrix. *)
Lemma get_features_events jets electrons muons permutations_dict F counts :
  get_features jets electrons muons permutations_dict = Some (F, counts) ->
  nd_dtype F = float32
  /\ nd_shape F = (sum_list counts, 28)
  /\ length (nd_data F) = sum_list counts
  /\ Forall (fun row => length row = 28) (nd_data F)
  /\ length counts = length jets
  /\ concat (unflatten (nd_data F) counts) = nd_data F
  /\ forall k js, jets !! k = Some js ->
       exists l ps ck,
         concat (zip_with app electrons muons) !! k = Some l
         /\ event_perms permutations_dict js = Some ps
         /\ mapM (pick js l) ps = Some ck
         /\ counts !! k = Some (length ps)
         /\ unflatten (nd_data F) counts !! k = Some (feature_row <$> ck).
Proof.
  intros Hg. apply get_features_rows in Hg as (cs & -> & -> & Hlen & Hev).
  cbn [nd_dtype nd_shape nd_data].
  rewrite unflatten_concat, concat_fmap_fmap, !length_fmap.
  split_and!; try done.
  - by rewrite sum_list_lengths.
  - apply Forall_fmap, Forall_forall. intros c _. apply feature_row_length.
  - intros k js Hk.
    destruct (Hev k js Hk) as (l & ps & ck & Hl & Hps & Hm & Hck).
    exists l, ps, ck. split_and!; try done.
    + rewrite list_lookup_fmap, Hck. simpl.
      by rewrite (length_mapM _ _ _ Hm).
    + by rewrite list_lookup_fmap, Hck.
Qed.

(** C3: whenever [get_features] returns, it returns a single precision
    matrix with [sum(perm_counts)] rows and 28 columns, whose rows are
    the feature rows of the (event, permutation) pairs in flattened
    order (the block of event [k] holds one row per permutation of that
    event, in the order of the table), together with one count per
    event.  It returns on the inputs it is written for, which have at
    least one permutation; it returns only when some event has a
    permutation: on a batch without any, the empty batch included, it
    raises. *)
Theorem get_features_shape_and_order
  jets electrons muons permutations_dict :
  (forall F counts,
     get_features jets electrons muons permutations_dict
       = Some (F, counts) ->
     nd_dtype F = float32
     /\ nd_shape F = (sum_list counts, 28)
     /\ length (nd_data F) = sum_list counts
     /\ Forall (fun row => length row = 28) (nd_data F)
     /\ length counts = length jets
     /\ concat (unflatten (nd_data F) counts) = nd_data F
     /\ forall k js, jets !! k = Some js ->
          exists l ps ck,
            concat (zip_with app electrons muons) !! k = Some l
            /\ event_perms permutations_dict js = Some ps
            /\ mapM (pick js l) ps = Some ck
            /\ counts !! k = Some (length ps)
            /\ unflatten (nd_data F) counts !! k
               = Some (feature_row <$> ck))
  /\ (well_formed_input jets electrons muons permutations_dict ->
      is_Some (get_features jets electrons muons permutations_dict))
  /\ (is_Some (get_features jets electrons muons permutations_dict) ->
      Exists (fun js : list Jet_t =>
                exists ps, event_perms permutations_dict js = Some ps
                           /\ ps <> []) jets).
Proof.
  split_and!.
  - intros F counts. apply get_features_events.
  - apply get_features_total.
  - apply get_features_needs_permutation.
Qed.

(** C7: in a batch on which [get_features] returns, an event whose
    permutation list is empty contributes no row, and its entry of the
    count array is 0; the count array has one entry per event.  The
    function returns on the inputs it is written for, which have at
    least one permutation; on a batch in which every event has an empty
    permutation list it raises. *)
Theorem zero_permutations_keep_alignment
  jets electrons muons permutations_dict :
  (forall F counts,
     get_features jets electrons muons permutations_dict
       = Some (F, counts) ->
     length counts = length jets
     /\ forall k js, jets !! k = Some js ->
          event_perms permutations_dict js = Some [] ->
          counts !! k = Some 0
          /\ unflatten (nd_data F) counts !! k = Some [])
  /\ (well_formed_input jets electrons muons permutations_dict ->
      is_Some (get_features jets electrons muons permutations_dict))
  /\ (Forall (fun js : list Jet_t =>
                event_perms permutations_dict js = Some []) jets ->
      get_features jets electrons muons permutations_dict = None).
Proof.
  split_and!; [|apply get_features_total|].
  - intros F counts Hg.
    apply get_features_events in Hg as (_ & _ & _ & _ & Hlen & _ & Hev).
    split; [done|]. intros k js Hk Hempty.
    destruct (Hev k js Hk) as (l & ps & ck & _ & Hps & Hm & Hc & Hrows).
    rewrite Hempty in Hps. injection Hps as <-.
    injection Hm as <-. done.
  - intros Hall.
    destruct (get_features jets electrons muons permutations_dict)
      as [x|] eqn:Hg; [|done].
    assert (is_Some (get_features jets electrons muons permutations_dict))
      as Hsome by (by rewrite Hg).
    apply get_features_needs_permutation, List.Exists_exists in Hsome
      as (js & Hin & ps & Hps & Hne).
    rewrite Forall_forall in Hall. rewrite (Hall js Hin) in Hps.
    by injection Hps as <-.
Qed.

Lemma pick_take (n : nat) (js : list Jet_t) (l : Lepton_t) (p : perm) :
  i0 p < n /\ i1 p < n /\ i2 p < n /\ i3 p < n ->
  pick (take n js) l p = pick js l p.
Proof.
  intros (H0 & H1 & H2 & H3). unfold pick.
  by rewrite !lookup_take_lt.
Qed.

(** The permutations of an event only read its first [kmax] jets. *)
Lemma event_picks_take permutations_dict kmax js l ps :
  table_in_range permutations_dict ->
  permutations_dict !!
    (if decide (kmax < length js) then kmax else length js) = Some ps ->
  mapM (pick (take kmax js) l) ps = mapM (pick js l) ps.
Proof.
  intros Htable Hps. case_decide as Hlt.
  - apply Forall_mapM_ext.
    eapply List.Forall_impl; [|exact (Htable _ _ Hps)].
    intros p Hp. by apply pick_take.
  - by rewrite take_ge by lia.
Qed.

Lemma cap_take (kmax : nat) (js : list Jet_t) :
  (if decide (kmax < length (take kmax js)) then kmax
   else length (take kmax js))
  = (if decide (kmax < length js) then kmax else length js).
Proof. rewrite length_take. repeat case_decide; lia. Qed.

(** C5: an event with more jets than the largest key [kmax] of the
    table is given the permutation list of [kmax]; it contributes one
    row per permutation of that list, and, the indices of the list
    being below [kmax], the rows only read the first [kmax] jets:
    truncating every event to its first [kmax] jets changes nothing. *)
Theorem high_multiplicity_truncated
  jets electrons muons permutations_dict kmax :
  max_key permutations_dict = Some kmax ->
  (forall F counts,
     get_features jets electrons muons permutations_dict
       = Some (F, counts) ->
     forall k js, jets !! k = Some js -> kmax < length js ->
       exists l ps ck,
         permutations_dict !! kmax = Some ps
         /\ concat (zip_with app electrons muons) !! k = Some l
         /\ counts !! k = Some (length ps)
         /\ mapM (pick js l) ps = Some ck
         /\ unflatten (nd_data F) counts !! k = Some (feature_row <$> ck)
         /\ (table_in_range permutations_dict ->
             mapM (pick (take kmax js) l) ps = Some ck))
  /\ (table_in_range permutations_dict ->
      get_features (take kmax <$> jets) electrons muons permutations_dict
      = get_features jets electrons muons permutations_dict).
Proof.
  intros Hmax. split.
  - intros F counts Hg k js Hk Hlt.
    apply get_features_events in Hg as (_ & _ & _ & _ & _ & _ & Hev).
    destruct (Hev k js Hk) as (l & ps & ck & Hl & Hps & Hm & Hc & Hrows).
    unfold event_perms in Hps. rewrite Hmax, bind_Some in Hps.
    exists l, ps, ck. split_and!; try done.
    + by rewrite decide_True in Hps by done.
    + intros Htable. by rewrite (event_picks_take _ _ _ _ _ Htable Hps).
  - intros Htable. rewrite !get_features_eq. unfold get_features_rowwise.
    rewrite Hmax, !bind_Some, mapM_fmap_arg.
    rewrite (mapM_ext _
      (fun js : list Jet_t =>
         permutations_dict !!
           (if decide (kmax < length js) then kmax else length js)))
      by (intros js; by rewrite cap_take).
    destruct (mapM _ jets) as [perms|] eqn:Hperms; [|done].
    rewrite !bind_Some.
    assert (picks (take kmax <$> jets)
                  (concat (zip_with app electrons muons)) perms
            = picks jets (concat (zip_with app electrons muons)) perms)
      as ->; [|done].
    unfold picks. apply Forall2_mapM_ext.
    apply mapM_Some_1 in Hperms.
    generalize (concat (zip_with app electrons muons)). intros leptons.
    revert leptons.
    induction Hperms as [|js ps jets perms Hps _ IH]; intros leptons;
      [done|].
    destruct leptons as [|l leptons]; [done|]. csimpl.
    constructor; [|apply IH]. simpl.
    exact (event_picks_take permutations_dict kmax js l ps Htable Hps).
Qed.

(** C6: columns 4 to 7 of the row of a permutation hold the absolute
    value of the difference of the two azimuthal angles, as computed in
    single precision and stored; nothing wraps the difference, and the
    angles 3 and -3 give 6. *)
Theorem delta_phi_plain_abs_difference
  jets electrons muons permutations_dict F counts :
  get_features jets electrons muons permutations_dict = Some (F, counts) ->
  (forall k js l ps j p rows row,
     jets !! k = Some js ->
     concat (zip_with app electrons muons) !! k = Some l ->
     event_perms permutations_dict js = Some ps -> ps !! j = Some p ->
     unflatten (nd_data F) counts !! k = Some rows ->
     rows !! j = Some row ->
     exists j0 j1 j2 j3,
       js !! i0 p = Some j0 /\ js !! i1 p = Some j1
       /\ js !! i2 p = Some j2 /\ js !! i3 p = Some j3
       /\ row !! 4 = Some (stored (fabs (f32_sub (lphi l) (phi j3))))
       /\ row !! 5 = Some (stored (fabs (f32_sub (phi j0) (phi j1))))
       /\ row !! 6 = Some (stored (fabs (f32_sub (phi j0) (phi j2))))
       /\ row !! 7 = Some (stored (fabs (f32_sub (phi j1) (phi j2)))))
  /\ stored (fabs (f32_sub (f32_of_Z 3) (f32_of_Z (-3)))) = f32_of_Z 6.
Proof.
  intros Hg. split; [|reflexivity].
  intros k js l ps j p rows row Hk Hl Hps Hj Hrows Hrow.
  apply get_features_events in Hg as (_ & _ & _ & _ & _ & _ & Hev).
  destruct (Hev k js Hk) as (l' & ps' & ck & Hl' & Hps' & Hm & _ & Hrows').
  simplify_eq.
  apply list_lookup_fmap_Some in Hrow as (c & -> & Hc).
  apply mapM_Some_1 in Hm.
  destruct (Forall2_lookup_r _ _ _ _ _ Hm Hc) as (p' & Hp' & Hpick).
  simplify_eq.
  pose proof (pick_one js l p) as Hone. rewrite Hpick in Hone.
  destruct Hone as (H0 & H1 & H2 & H3 & <-).
  exists (p_j0 c), (p_j1 c), (p_j2 c), (p_j3 c).
  split_and!; done.
Qed.
End Claims.

End FeatureClaims.

(** ** Facts about the best permutation and the parity split *)

Module InferenceFacts.
Import FloatFacts ArrayFacts.

(** The reducer keeps the first position of the largest value seen. *)
Lemma argmax_from_spec (xs pre : list float) (best : nat) (bv : float) :
  no_nan (pre ++ xs) ->
  pre !! best = Some bv ->
  (forall j x, pre !! j = Some x ->
     fge bv x = true /\ (j < best -> fgt bv x = true)) ->
  exists va,
    (pre ++ xs) !! argmax_from best bv (length pre) xs = Some va
    /\ forall j x, (pre ++ xs) !! j = Some x ->
         fge va x = true
         /\ (j < argmax_from best bv (length pre) xs -> fgt va x = true).
Proof.
  revert pre best bv.
  induction xs as [|x xs IH]; intros pre best bv Hnan Hbest Hinv.
  - rewrite app_nil_r. simpl. by exists bv.
  - assert (is_nan bv = false) as Hbv.
    { apply Forall_app in Hnan as [Hpre _].
      by apply (proj1 (Forall_lookup _ _) Hpre best). }
    assert (is_nan x = false) as Hx.
    { apply Forall_app in Hnan as [_ Hxs]. by inversion Hxs. }
    assert (best < length pre) as Hlt by (by eapply lookup_lt_Some).
    replace (pre ++ x :: xs) with ((pre ++ [x]) ++ xs) in *
      by (by rewrite <-app_assoc).
    simpl. replace (S (length pre)) with (length (pre ++ [x]))
      by (rewrite length_app; simpl; lia).
    destruct (fgt x bv) eqn:Hgt.
    + apply IH; [done|by apply list_lookup_middle|].
      intros j y Hj.
      destruct (decide (j < length pre)) as [Hjl|Hjl].
      * rewrite lookup_app_l in Hj by done.
        destruct (Hinv j y Hj) as [Hge _].
        assert (fgt x y = true) by (by eapply fge_fgt_trans).
        split; [by apply fgt_fge|done].
      * assert (j = length pre) as ->.
        { apply lookup_lt_Some in Hj. rewrite length_app in Hj.
          simpl in Hj. lia. }
        rewrite list_lookup_middle in Hj by done. injection Hj as <-.
        split; [by apply fge_refl|lia].
    + apply IH; [done|by apply lookup_app_l_Some|].
      intros j y Hj.
      destruct (decide (j < length pre)) as [Hjl|Hjl].
      * rewrite lookup_app_l in Hj by done. by apply Hinv.
      * assert (j = length pre) as ->.
        { apply lookup_lt_Some in Hj. rewrite length_app in Hj.
          simpl in Hj. lia. }
        rewrite list_lookup_middle in Hj by done. injection Hj as <-.
        split; [by apply not_fgt_fge|lia].
Qed.

(** [ak.argmax] on scores without NaN: the first index of the maximum. *)
Lemma argmax_spec (xs : list float) :
  xs <> [] -> no_nan xs ->
  exists a va,
    argmax xs = Some a /\ xs !! a = Some va
    /\ (forall j x, xs !! j = Some x -> fge va x = true)
    /\ (forall j x, xs !! j = Some x -> j < a -> fgt va x = true).
Proof.
  destruct xs as [|x xs]; [done|]. intros _ Hnan.
  destruct (argmax_from_spec xs [x] 0 x Hnan eq_refl) as (va & Ha & Hmax).
  { intros [|j] y Hj; [|done]. injection Hj as <-.
    split; [|lia]. apply fge_refl. by inversion Hnan. }
  exists (argmax_from 0 x 1 xs), va. split_and!; try done.
  - intros j y Hj. by apply (Hmax j y).
  - intros j y Hj Hlt. by apply (Hmax j y).
Qed.

Lemma argmax_singleton (x : float) : argmax [x] = Some 0.
Proof. reflexivity. Qed.

Lemma argmax_lt (xs : list float) (a : nat) :
  argmax xs = Some a -> a < length xs.
Proof.
  destruct xs as [|x xs]; [done|]. simpl. intros [= <-].
  assert (forall best bv i, best < i ->
            argmax_from best bv i xs < i + length xs) as Hgen.
  { induction xs as [|y ys IH]; intros best bv i Hlt; simpl; [lia|].
    destruct (fgt y bv).
    - specialize (IH i y (S i)). lia.
    - specialize (IH best bv (S i)). lia. }
  specialize (Hgen 0 x 1). lia.
Qed.

(** The blocks of [ak.unflatten] have the requested lengths when the
    flat array is long enough. *)
Lemma unflatten_lengths {A} (xs : list A) (counts : list nat) :
  sum_list counts <= length xs ->
  length <$> unflatten xs counts = counts.
Proof.
  revert xs. induction counts as [|c cs IH]; intros xs Hlen; [done|].
  simpl in Hlen. csimpl.
  rewrite length_take, IH by (rewrite length_drop; lia).
  f_equal. lia.
Qed.

Lemma best_permutation_lookup (results : list float) (F : ndarray)
  (counts : list nat) (k : nat) (scores : list float)
  (rows : list (list float)) :
  unflatten results counts !! k = Some scores ->
  unflatten (nd_data F) counts !! k = Some rows ->
  best_permutation_observable results F counts !! k
  = Some (pick_observable rows (argmax scores)).
Proof.
  intros Hs Hr. unfold best_permutation_observable.
  rewrite lookup_zip_with, Hr. simpl.
  by rewrite list_lookup_fmap, Hs.
Qed.

End InferenceFacts.

(** ** Claims about the best permutation *)

Module BestPermutationClaims.
Import FloatFacts ArrayFacts FeatureFacts FeatureClaims InferenceFacts.

Section Claims.
Context `{Kinematics}.

(** C4: for an event with permutations and scores that are numbers,
    the picker takes the first index at which the score is maximal,
    and the ML observable of the event is column 10 of the feature row
    of that permutation: the stored mass of the sum of the two W jets
    and the hadronic-top jet.  An event with one permutation selects
    it. *)
Theorem best_permutation_is_first_argmax
  jets electrons muons permutations_dict F counts
  (results : list float) k js l ps scores :
  get_features jets electrons muons permutations_dict = Some (F, counts) ->
  length results = sum_list counts ->
  jets !! k = Some js ->
  concat (zip_with app electrons muons) !! k = Some l ->
  event_perms permutations_dict js = Some ps ->
  unflatten results counts !! k = Some scores ->
  ps <> [] -> no_nan scores ->
  exists a va p j0 j1 j2,
    argmax scores = Some a
    /\ scores !! a = Some va
    /\ (forall j y, scores !! j = Some y -> fge va y = true)
    /\ (forall j y, scores !! j = Some y -> j < a -> fgt va y = true)
    /\ ps !! a = Some p
    /\ js !! i0 p = Some j0 /\ js !! i1 p = Some j1
    /\ js !! i2 p = Some j2
    /\ best_permutation_observable results F counts !! k
       = Some (Some (stored (p4_mass
            (p4_add (p4_add (p4_of_jet j0) (p4_of_jet j1))
                    (p4_of_jet j2)))))
    /\ (length ps = 1 -> a = 0).
Proof.
  intros Hg Hres Hk Hl Hps Hscores Hne Hnan.
  apply get_features_events in Hg as (_ & _ & _ & _ & _ & _ & Hev).
  destruct (Hev k js Hk) as (l' & ps' & ck & Hl' & Hps' & Hm & Hc & Hrows).
  simplify_eq.
  assert (length scores = length ps) as Hlen.
  { pose proof (unflatten_lengths results counts ltac:(lia)) as Hls.
    apply (f_equal (fun x => x !! k)) in Hls.
    rewrite list_lookup_fmap, Hscores, Hc in Hls. by injection Hls. }
  destruct (argmax_spec scores) as (a & va & Ha & Hva & Hmax & Hfirst);
    [|done|].
  { intros ->. by destruct ps. }
  pose proof (argmax_lt _ _ Ha) as Halt.
  destruct (lookup_lt_is_Some_2 ps a ltac:(lia)) as [p Hp].
  apply mapM_Some_1 in Hm.
  destruct (Forall2_lookup_l _ _ _ _ _ Hm Hp) as (c & Hck & Hpick).
  pose proof (pick_one js l p) as Hone. rewrite Hpick in Hone.
  destruct Hone as (H0 & H1 & H2 & _ & _).
  exists a, va, p, (p_j0 c), (p_j1 c), (p_j2 c).
  split_and!; try done.
  - rewrite (best_permutation_lookup _ _ _ _ _ _ Hscores Hrows), Ha.
    unfold pick_observable. cbn [mbind option_bind].
    rewrite list_lookup_fmap, Hck. reflexivity.
  - lia.
Qed.
End Claims.

End BestPermutationClaims.

(** ** Facts about the parity split *)

Module ParityFacts.
Import ArrayFacts SelectionFacts FeatureEq.

Lemma np_invert_length (mask : list bool) :
  length (np_invert mask) = length mask.
Proof. apply length_fmap. Qed.

Lemma count_true_invert (mask : list bool) :
  count_true mask + count_true (np_invert mask) = length mask.
Proof.
  unfold count_true, np_invert.
  induction mask as [|[] mask IH]; csimpl; lia.
Qed.


Lemma mask_indices_from_lookup (o : nat) (mask : list bool) (r idx : nat) :
  mask_indices_from o mask !! r = Some idx ->
  o <= idx /\ mask !! (idx - o) = Some true.
Proof.
  revert o r. induction mask as [|b mask IH]; intros o r Hr; [done|].
  destruct b; simpl in Hr.
  - destruct r as [|r]; simpl in Hr.
    + injection Hr as <-. by rewrite Nat.sub_diag.
    + destruct (IH _ _ Hr) as [Hle Hm]. split; [lia|].
      replace (idx - o) with (S (idx - S o)) by lia. done.
  - destruct (IH _ _ Hr) as [Hle Hm]. split; [lia|].
    replace (idx - o) with (S (idx - S o)) by lia. done.
Qed.


(** [arr[mask] = vals] succeeds when there is one value per selected
    position; the selected positions receive the values in order and
    the others keep theirs. *)
Lemma mask_assign_spec {A} (arr : list A) (mask : list bool) (vals : list A) :
  length mask = length arr -> length vals = count_true mask ->
  exists res,
    mask_assign arr mask vals = Some res
    /\ length res = length arr
    /\ (forall o r idx, mask_indices_from o mask !! r = Some idx ->
          res !! (idx - o) = vals !! r)
    /\ (forall idx, mask !! idx = Some false -> res !! idx = arr !! idx).
Proof.
  revert mask vals.
  induction arr as [|a arr IH]; intros [|b mask] vals Hlen Hvals;
    try done.
  - destruct vals; [|done]. exists []. done.
  - simpl in Hlen. unfold count_true in Hvals. simpl in Hvals.
    destruct b; simpl in Hvals.
    + destruct vals as [|v vals]; [done|]. simpl in Hvals.
      destruct (IH mask vals ltac:(lia) ltac:(unfold count_true; lia))
        as (res & Hres & Hl & Hsel & Hkeep).
      exists (v :: res). simpl. rewrite Hres. split_and!; try done.
      * simpl. lia.
      * intros o [|r] idx Hr; simpl in Hr.
        -- injection Hr as <-. by rewrite Nat.sub_diag.
        -- destruct (mask_indices_from_lookup _ _ _ _ Hr) as [Hle _].
           replace (idx - o) with (S (idx - S o)) by lia.
           simpl. by apply Hsel.
      * intros [|idx] Hidx; [done|]. simpl. by apply Hkeep.
    + destruct (IH mask vals ltac:(lia) ltac:(unfold count_true; lia))
        as (res & Hres & Hl & Hsel & Hkeep).
      exists (a :: res). simpl. rewrite Hres. split_and!; try done.
      * simpl. lia.
      * intros o r idx Hr.
        destruct (mask_indices_from_lookup _ _ _ _ Hr) as [Hle _].
        replace (idx - o) with (S (idx - S o)) by lia.
        simpl. by apply Hsel.
      * intros [|idx] Hidx; [done|]. simpl. by apply Hkeep.
Qed.

Lemma np_repeat_length {A} (xs : list A) (counts : list nat) :
  length xs = length counts ->
  length (np_repeat xs counts) = sum_list counts.
Proof.
  unfold np_repeat. revert xs.
  induction counts as [|c cs IH]; intros [|x xs] Hlen; try done.
  csimpl. rewrite length_app, length_replicate, IH; [done|].
  simpl in Hlen. lia.
Qed.


Lemma fmap_zip3_mid {A B C D} (f : B -> D)
  (l1 : list A) (l2 : list B) (l3 : list C) :
  length l1 = length l2 -> length l3 = length l2 ->
  (fun x : A * (B * C) => f x.2.1) <$> zip l1 (zip l2 l3) = f <$> l2.
Proof.
  revert l1 l3. induction l2 as [|y l2 IH]; intros [|x l1] [|z l3] H1 H3;
    try done.
  csimpl. rewrite IH by (simpl in *; lia). done.
Qed.

Section Batch.
Context `{Rng}.
Variables (events : list Event) (v : pt_var) (r : region).

Lemma selected_jets_region_rows :
  selected_jets_region events v r = row_jets <$> region_rows events v r.
Proof.
  unfold selected_jets_region, region_filters.
  rewrite selected_jets_col_rows, <-list_fmap_compose.
  apply mask_select_rows.
Qed.

Lemma region_filters_rows :
  region_filters events v r
  = (fun x => region_filter r (row_jets x))
      <$> List.filter (row_passes v) (batch_rows events v).
Proof.
  unfold region_filters. rewrite selected_jets_col_rows.
  by rewrite <-list_fmap_compose.
Qed.

Lemma even_region_rows :
  even_region events v r
  = (fun x : nat * (Event * modifier) => (event x.2.1 mod 2 =? 0)%Z)
      <$> region_rows events v r.
Proof.
  unfold even_region, even_col. rewrite region_filters_rows.
  rewrite event_filters_rows.
  rewrite <-(fmap_zip3_mid (fun e => (event e mod 2 =? 0)%Z)
               (seq 0 (length events)) events (events_pt_var events v))
    by (by rewrite ?length_seq, ?events_pt_var_length).
  rewrite mask_select_rows. apply mask_select_rows.
Qed.


Lemma even_region_length :
  length (even_region events v r) = length (selected_jets_region events v r).
Proof.
  by rewrite even_region_rows, selected_jets_region_rows, !length_fmap.
Qed.
End Batch.

Lemma count_true_elem (mask : list bool) :
  0 < count_true mask <-> true ∈ mask.
Proof.
  unfold count_true. induction mask as [|[] mask IH]; cbn [List.filter id].
  - split; [cbn; lia|]. intros Hin. by apply elem_of_nil in Hin.
  - split; [intros _; apply list_elem_of_here|cbn; lia].
  - rewrite IH. split; [by apply list_elem_of_further|].
    intros Hin. by apply elem_of_cons in Hin as [?|?].
Qed.

Lemma np_invert_elem (mask : list bool) :
  true ∈ np_invert mask <-> false ∈ mask.
Proof.
  unfold np_invert. rewrite list_elem_of_fmap. split.
  - intros ([] & Hb & Hin); [done|exact Hin].
  - intros Hin. by exists false.
Qed.

(** Selecting rows with a mask gives no row exactly when the mask
    selects nothing. *)
Lemma mask_select_rows_elem {A} (xs : list A) (mask : list bool) :
  length mask = length xs -> mask_select xs mask <> [] <-> true ∈ mask.
Proof.
  intros Hlen. rewrite <-count_true_elem, <-(mask_select_length xs) by lia.
  destruct (mask_select xs mask); [split; [done|cbn; lia]|].
  split; [cbn; lia|done].
Qed.

Lemma transformed_scores_Some
  (predict : list (list float) -> option (list float))
  (X : list (list float)) (scores : list float) :
  transformed_scores predict X = Some scores
  <-> X <> [] /\ exists raw, predict X = Some raw
                             /\ scores = to_float64 <$> raw.
Proof.
  unfold transformed_scores. case_guard.
  - destruct (predict X) as [raw|]; rewrite ?bind_Some, ?bind_None.
    + split; [intros [= <-]; eauto|]. by intros [_ (? & [= <-] & ->)].
    + split; [done|]. by intros [_ (? & ? & _)].
  - split; [done|]. by intros [? _].
Qed.

Lemma transformed_scores_None
  (predict : list (list float) -> option (list float))
  (X : list (list float)) :
  transformed_scores predict X = None <-> X = [] \/ predict X = None.
Proof.
  unfold transformed_scores. case_guard.
  - destruct (predict X); rewrite ?bind_Some, ?bind_None.
    + split; [done|]. by intros [?|?].
    + split; [by right|done].
  - split; [intros _; left|done]. by destruct (decide (X = [])).
Qed.

(** The scoring step returns exactly when both models get rows and
    return, and then its result is that of the two assignments. *)
Lemma predict_xgboost_spec `{Classifier}
  (features : ndarray) (even_perm : list bool) :
  length even_perm = (nd_shape features).1 ->
  length (nd_data features) = (nd_shape features).1 ->
  (is_Some (predict_xgboost features even_perm)
   <-> true ∈ even_perm /\ false ∈ even_perm
       /\ is_Some (predict_even (mask_select (nd_data features) even_perm))
       /\ is_Some (predict_odd
                     (mask_select (nd_data features) (np_invert even_perm))))
  /\ forall results,
       predict_xgboost features even_perm = Some results ->
       exists scores_even scores_odd res,
         predict_even (mask_select (nd_data features) even_perm)
         = Some scores_even
         /\ predict_odd (mask_select (nd_data features) (np_invert even_perm))
            = Some scores_odd
         /\ mask_assign (replicate (nd_shape features).1 f64_0) even_perm
              (to_float64 <$> scores_even)
            = Some res
         /\ mask_assign res (np_invert even_perm) (to_float64 <$> scores_odd)
            = Some results.
Proof.
  intros Hmask Hdata.
  pose proof (mask_select_rows_elem (nd_data features) even_perm
                ltac:(lia)) as He.
  pose proof (mask_select_rows_elem (nd_data features) (np_invert even_perm)
                ltac:(rewrite np_invert_length; lia)) as Ho.
  rewrite np_invert_elem in Ho.
  unfold predict_xgboost.
  destruct (transformed_scores predict_even _) as [scores|] eqn:Hse.
  2:{ apply transformed_scores_None in Hse. rewrite bind_None.
      split; [|done]. split; [by intros [? ?]|].
      intros (Ht & _ & [? Hr] & _). destruct Hse as [Hse|Hse].
      - by apply He in Ht.
      - by rewrite Hr in Hse. }
  apply transformed_scores_Some in Hse as (Hxe & se & Hpe & ->).
  rewrite bind_Some.
  destruct (mask_assign_spec (replicate (nd_shape features).1 f64_0)
              even_perm (to_float64 <$> se))
    as (res & Hres & Hlen & _).
  { by rewrite length_replicate. }
  { rewrite length_fmap, (predict_even_length _ _ Hpe).
    apply mask_select_length. lia. }
  rewrite Hres, bind_Some. rewrite length_replicate in Hlen.
  destruct (transformed_scores predict_odd _) as [scores|] eqn:Hso.
  2:{ apply transformed_scores_None in Hso. rewrite bind_None.
      split; [|done]. split; [by intros [? ?]|].
      intros (_ & Hf & _ & [? Hr]). destruct Hso as [Hso|Hso].
      - by apply Ho in Hf.
      - by rewrite Hr in Hso. }
  apply transformed_scores_Some in Hso as (Hxo & so & Hpo & ->).
  rewrite bind_Some.
  destruct (mask_assign_spec res (np_invert even_perm) (to_float64 <$> so))
    as (res' & Hres' & _).
  { rewrite np_invert_length. lia. }
  { rewrite length_fmap, (predict_odd_length _ _ Hpo).
    apply mask_select_length. rewrite np_invert_length. lia. }
  split.
  - split.
    + intros _. split_and!; [by apply He|by apply Ho|by eexists..].
    + intros _. rewrite Hres'. by eexists.
  - intros results Hresults. by exists se, so, res.
Qed.

End ParityFacts.

(** ** Claim about the parity split *)

Module ParityClaims.
Import ArrayFacts FeatureClaims ParityFacts.

Section Claims.
Context `{Rng} `{Kinematics} `{Classifier}.

End Claims.

End ParityClaims.

(** ** Claims about the event selection *)

Module SelectionClaims.
Import FloatFacts ArrayFacts SelectionFacts.

Section Claims.
Context `{Rng}.

(** C1: the masks of regions "4j1b" and "4j2b" never hold together:
    on the selected jets of any event, in the two mask columns of a
    batch, and in the batch positions routed to the two regions. *)
Theorem regions_mutually_exclusive (events : list Event) (v : pt_var) :
  (forall jets : list Jet_t,
     region_filter R4j1b jets && region_filter R4j2b jets = false)
  /\ zip_with andb (region_filters events v R4j1b)
                   (region_filters events v R4j2b)
     = replicate (length (selected_jets_col events v)) false
  /\ list_intersection (region_indices events v R4j1b)
                       (region_indices events v R4j2b) = [].
Proof.
  split_and!.
  - apply region_filter_exclusive.
  - unfold region_filters.
    induction (selected_jets_col events v) as [|jets col IH]; [done|].
    rewrite !fmap_cons. cbn [zip_with length replicate].
    by rewrite region_filter_exclusive, IH.
  - apply elem_of_nil_inv. intros i Hi.
    apply list_elem_of_intersection in Hi as [H1 H2].
    apply region_indices_spec in H1 as (e & m & He & Hm & _ & Hr1).
    apply region_indices_spec in H2 as (e' & m' & He' & Hm' & _ & Hr2).
    simplify_eq.
    pose proof (region_filter_exclusive (selected_jets e m)) as Hex.
    rewrite Hr1, Hr2 in Hex. done.
Qed.

(** C2: the selection mask holds for an event exactly when it has one
    lepton with pT > 25, at least four jets whose pT times the
    variation factor is > 25, and at least one of those jets with a
    b-tag score >= 0.5; an event reaches a region only if the mask
    holds for it. *)
Theorem selection_mask_iff
  (events : list Event) (v : pt_var) (i : nat) (e : Event) :
  events !! i = Some e ->
  exists m b,
    events_pt_var events v !! i = Some m
    /\ event_filters events v !! i = Some b
    /\ (b = true <-> selection_spec e m)
    /\ (forall r, i ∈ region_indices events v r -> b = true).
Proof.
  intros He.
  destruct (lookup_lt_is_Some_2 (events_pt_var events v) i) as [m Hm].
  { rewrite events_pt_var_length. by eapply lookup_lt_Some. }
  exists m, (event_filter v e m). split_and!.
  - done.
  - by apply event_filters_lookup.
  - apply event_filter_spec.
  - intros r Hr.
    apply region_indices_spec in Hr as (e' & m' & He' & Hm' & Hf & _).
    by simplify_eq.
Qed.
End Claims.

End SelectionClaims.

(** ** Claim about the fills of region 4j1b *)

Module ProcessorClaims.

(** The fills that reach the histogram are the fills that were made, and
    none of them holds a missing value. *)
Lemma histogram_fills (fs fs' : list fill_call) :
  mapM histogram_fill fs = Some fs' ->
  fs' = fs
  /\ Forall (fun f => Forall is_Some (f_observable f)
                      /\ Forall is_Some (f_ml_observable f)) fs.
Proof.
  intros Hm%mapM_Some_1.
  induction Hm as [|f f' fs fs' Hf _ [-> IH]]; [done|].
  unfold histogram_fill in Hf. case_guard; [|done].
  injection Hf as <-. split; [done|]. by constructor.
Qed.

Lemma fills_fields (process_name variation : string) (v : pt_var)
  (r : region) (observable ML_observable : list (option float))
  (f : fill_call) :
  f ∈ fills process_name variation v r observable ML_observable ->
  f_observable f = observable /\ f_ml_observable f = ML_observable
  /\ f_region f = region_name r.
Proof.
  unfold fills, systematics_fields, directions, btag_var_names.
  intros Hf.
  destruct v, (String.eqb variation "nominal"),
    (String.eqb process_name "wjets"), (0 <? length observable);
    cbn in Hf;
    repeat (apply elem_of_cons in Hf as [->|Hf]; [done|]);
    by apply elem_of_nil in Hf.
Qed.

Section Claims.
Context `{Kinematics} `{Rng} `{Classifier}.

(** C10: in region "4j1b" the ML observable is the kinematic
    observable HT, the sum of the (varied) pT of the selected jets of
    each event, and every fill of that region passes the same values
    on the two axes. *)
Theorem fills_4j1b_same_axes
  (use_triton : bool) (permutations_dict : gmap nat (list perm))
  (process_name variation : string) (events : list Event) :
  (forall v,
     region_observables permutations_dict events v R4j1b
     = Some (HT_observable events v R4j1b, HT_observable events v R4j1b))
  /\ (forall fs,
        process use_triton permutations_dict process_name variation events
          = Some fs ->
        forall f, f ∈ fs -> f_region f = "4j1b" ->
          f_ml_observable f = f_observable f
          /\ exists v, v ∈ pt_variations variation
               /\ f_observable f = HT_observable events v R4j1b).
Proof.
  split; [done|].
  intros fs Hp f Hf Hr. unfold process in Hp.
  destruct use_triton; [done|].
  apply fmap_Some in Hp as (fss & Hm & ->).
  apply list_elem_of_In, in_concat in Hf as (fl & Hfl & Hf).
  apply list_elem_of_In in Hfl, Hf.
  apply list_elem_of_lookup in Hfl as [n Hn].
  apply mapM_Some_1 in Hm.
  destruct (Forall2_lookup_r _ _ _ _ _ Hm Hn) as ([v r] & Hvr & Hg).
  simpl in Hg.
  destruct (region_observables permutations_dict events v r)
    as [[obs ml]|] eqn:Hobs; [|done].
  simpl in Hg. apply histogram_fills in Hg as [-> _].
  apply fills_fields in Hf as (Ho & Hml & Hreg).
  rewrite Hreg in Hr. destruct r; [|done].
  injection Hobs as <- <-. split; [congruence|].
  exists v. split; [|done].
  apply list_elem_of_lookup_2 in Hvr.
  apply list_elem_of_bind in Hvr as (v' & Hvr & Hv).
  apply list_elem_of_bind in Hvr as (r' & Hvr & _).
  apply list_elem_of_singleton in Hvr. by simplify_eq.
Qed.
End Claims.

End ProcessorClaims.

(** ** Claim about the I/O-only routine *)

Module IOClaims.

Lemma materialize_all_ok (events : gmap string (gmap string column))
  (branches : list string) :
  (forall b, b ∈ branches -> materialize events b = Return tt) ->
  materialize_all events branches = Return tt.
Proof.
  induction branches as [|b bs IH]; intros Hall; [done|].
  simpl. rewrite (Hall b) by apply list_elem_of_here.
  apply IH. intros b' Hb'. apply Hall. by apply list_elem_of_further.
Qed.

Lemma materialize_all_raise (events : gmap string (gmap string column))
  (branches : list string) (e : exn) :
  materialize_all events branches = Raise e ->
  exists b, b ∈ branches /\ materialize events b = Raise e.
Proof.
  induction branches as [|b bs IH]; [done|]. simpl.
  destruct (materialize events b) as [[]|e'] eqn:Hb.
  - intros Hbs. destruct (IH Hbs) as (b' & Hb' & Hr).
    exists b'. split; [by apply list_elem_of_further|done].
  - intros [= ->]. exists b. split; [apply list_elem_of_here|done].
Qed.

Lemma materialize_raise (events : gmap string (gmap string column))
  (branch : string) (e : exn) :
  materialize events branch = Raise e ->
  exists object_type property_name,
    e = FieldNotFound object_type property_name.
Proof.
  unfold materialize.
  destruct (contains "_" branch).
  - destruct (_ ≫= _); [done|]. intros [= <-]. by eexists _, _.
  - destruct (events !! branch); [done|]. intros [= <-]. by eexists _, _.
Qed.

(** C8: [only_do_IO] raises its [NotImplementedError] exactly when the
    configured percentage compares equal to none of 2.7, 4, 15, 25, 50;
    for a supported percentage and a file that has the branches of the
    tier it returns the empty histogram dictionary; and any other
    exception that escapes is the lookup failure of a missing branch,
    raised by the array layer. *)
Theorem only_do_IO_errors (io_file_percent : float)
  (events : gmap string (gmap string column)) :
  py_in io_file_percent supported_tiers
  = feq io_file_percent f64_2_7 || feq io_file_percent f64_4
    || feq io_file_percent f64_15 || feq io_file_percent f64_25
    || feq io_file_percent f64_50
  /\ ((exists msg, only_do_IO io_file_percent events
                   = Raise (NotImplementedError msg))
      <-> py_in io_file_percent supported_tiers = false)
  /\ (py_in io_file_percent supported_tiers = true ->
      (forall b, b ∈ branches_to_read io_file_percent ->
         materialize events b = Return tt) ->
      only_do_IO io_file_percent events = Return empty_hist_output)
  /\ (forall e, only_do_IO io_file_percent events = Raise e ->
        (exists msg, e = NotImplementedError msg
           /\ py_in io_file_percent supported_tiers = false)
        \/ (exists object_type property_name b,
              e = FieldNotFound object_type property_name
              /\ py_in io_file_percent supported_tiers = true
              /\ b ∈ branches_to_read io_file_percent
              /\ materialize events b = Raise e)).
Proof.
  split_and!.
  - unfold py_in, supported_tiers. simpl. by rewrite orb_false_r, !orb_assoc.
  - unfold only_do_IO.
    destruct (py_in io_file_percent supported_tiers); simpl.
    + split; [|done]. intros [msg Hr].
      destruct (materialize_all _ _) as [[]|e] eqn:Hall; [done|].
      apply materialize_all_raise in Hall as (b & _ & Hb).
      apply materialize_raise in Hb as (o & pn & ->). done.
    + split; [done|]. intros _. by eexists.
  - intros Hin Hall. unfold only_do_IO. rewrite Hin. simpl.
    by rewrite materialize_all_ok.
  - intros e. unfold only_do_IO.
    destruct (py_in io_file_percent supported_tiers); simpl.
    + destruct (materialize_all _ _) as [[]|e'] eqn:Hall; [done|].
      intros [= ->]. right.
      apply materialize_all_raise in Hall as (b & Hb & Hr).
      destruct (materialize_raise _ _ _ Hr) as (o & pn & ->).
      by exists o, pn, b.
    + intros [= <-]. left. by eexists.
Qed.

End IOClaims.

(** ** The claims on concrete inputs *)

Module Witnesses.
Import SelectionClaims FeatureClaims BestPermutationClaims ParityClaims
       ProcessorClaims IOClaims.

Lemma example_selection_mask :
  exists e m b,
    example_events !! 0 = Some e
    /\ @events_pt_var example_rng example_events pt_nominal !! 0 = Some m
    /\ @event_filters example_rng example_events pt_nominal !! 0 = Some b
    /\ (b = true <-> selection_spec e m)
    /\ (forall r,
          0 ∈ @region_indices example_rng example_events pt_nominal r ->
          b = true).
Proof.
  exists example_event_7.
  destruct (@selection_mask_iff example_rng example_events pt_nominal 0
              example_event_7 eq_refl) as (m & b & Hm & Hb & Hspec & Hreg).
  exists m, b. split; [reflexivity|]. split; [exact Hm|].
  split; [exact Hb|]. split; [exact Hspec|exact Hreg].
Defined.


Lemma example_well_formed (permutations_dict : gmap nat (list perm)) :
  permutations_dict = example_dict \/ permutations_dict = example_dict_sparse ->
  well_formed_input example_jets example_electrons example_muons
                    permutations_dict.
Proof.
  intros Hd. split; [reflexivity|]. split; [reflexivity|].
  split; [repeat constructor|].
  split.
  { apply Exists_cons_tl, Exists_cons_hd.
    exists [mkPerm 0 1 2 4; mkPerm 4 3 2 1].
    split; [by destruct Hd as [-> | ->]|done]. }
  exists 5. split; [by destruct Hd as [-> | ->]|].
  repeat constructor.
  - destruct Hd as [-> | ->]; eexists; (split; [reflexivity|]);
      repeat constructor.
  - destruct Hd as [-> | ->]; eexists; (split; [reflexivity|]);
      repeat constructor.
Qed.

Lemma example_features_shape :
  nd_dtype example_features = float32
  /\ nd_shape example_features = (sum_list example_counts, 28)
  /\ length (nd_data example_features) = 5
  /\ length example_counts = length example_jets
  /\ is_Some (@get_features example_kinematics example_jets
                            example_electrons example_muons example_dict).
Proof.
  destruct (@get_features_shape_and_order example_kinematics example_jets
              example_electrons example_muons example_dict)
    as (Hshape & Htotal & _).
  destruct (Hshape example_features example_counts eq_refl)
    as (Hd & Hs & Hl & _ & Hc & _).
  split; [exact Hd|]. split; [exact Hs|]. split; [exact Hl|].
  split; [exact Hc|]. apply Htotal, example_well_formed. by left.
Defined.


Lemma example_zero_permutations :
  length example_counts_sparse = length example_jets
  /\ example_counts_sparse !! 0 = Some 0
  /\ unflatten (nd_data example_features_sparse) example_counts_sparse !! 0
     = Some []
  /\ is_Some (@get_features example_kinematics example_jets
                            example_electrons example_muons
                            example_dict_sparse).
Proof.
  destruct (@zero_permutations_keep_alignment example_kinematics
              example_jets example_electrons example_muons
              example_dict_sparse) as (Hzero & Htotal & _).
  destruct (Hzero example_features_sparse example_counts_sparse eq_refl)
    as [Hlen Hev].
  destruct (Hev 0 _ eq_refl eq_refl) as [Hc Hrows].
  split; [exact Hlen|]. split; [exact Hc|]. split; [exact Hrows|].
  apply Htotal, example_well_formed. by right.
Defined.

Lemma example_table_in_range : table_in_range example_dict.
Proof.
  intros n ps Hn. unfold example_dict in Hn.
  apply lookup_insert_Some in Hn as [[<- <-]|[_ Hn]];
    [repeat constructor|].
  apply lookup_insert_Some in Hn as [[<- <-]|[_ Hn]];
    [repeat constructor|].
  by rewrite lookup_empty in Hn.
Qed.

Lemma example_truncation :
  (exists l ps ck,
     example_dict !! 5 = Some ps
     /\ concat (zip_with app example_electrons example_muons) !! 1 = Some l
     /\ example_counts !! 1 = Some (length ps)
     /\ unflatten (nd_data example_features) example_counts !! 1
        = Some (@feature_row example_kinematics <$> ck)
     /\ mapM (pick (take 5 example_jets_6) l) ps = Some ck)
  /\ @get_features example_kinematics (take 5 <$> example_jets)
                   example_electrons example_muons example_dict
     = @get_features example_kinematics example_jets
                     example_electrons example_muons example_dict.
Proof.
  destruct (@high_multiplicity_truncated example_kinematics example_jets
              example_electrons example_muons example_dict 5 eq_refl)
    as [Hcap Htrunc].
  split; [|exact (Htrunc example_table_in_range)].
  destruct (Hcap example_features example_counts eq_refl 1
              example_jets_6 eq_refl (le_n 6))
    as (l & ps & ck & Hps & Hl & Hc & _ & Hrows & Htake).
  exists l, ps, ck. split; [exact Hps|]. split; [exact Hl|].
  split; [exact Hc|]. split; [exact Hrows|].
  exact (Htake example_table_in_range).
Defined.

Lemma example_delta_phi :
  (exists j0 j1 j2 j3 row,
     nd_data example_features !! 0 = Some row
     /\ example_jets_4 !! 0 = Some j0
     /\ example_jets_4 !! 1 = Some j1
     /\ example_jets_4 !! 2 = Some j2
     /\ example_jets_4 !! 3 = Some j3
     /\ row !! 4 = Some (stored (fabs (f32_sub (lphi (example_lepton 30))
                                               (phi j3))))
     /\ row !! 5 = Some (stored (fabs (f32_sub (phi j0) (phi j1))))
     /\ row !! 6 = Some (stored (fabs (f32_sub (phi j0) (phi j2))))
     /\ row !! 7 = Some (stored (fabs (f32_sub (phi j1) (phi j2))))
     /\ row !! 4 = Some (f32_of_Z 4))
  /\ stored (fabs (f32_sub (f32_of_Z 3) (f32_of_Z (-3)))) = f32_of_Z 6.
Proof.
  destruct (@delta_phi_plain_abs_difference example_kinematics example_jets
              example_electrons example_muons example_dict
              example_features example_counts eq_refl) as [Hrow Hsix].
  split; [|exact Hsix].
  destruct (Hrow 0 example_jets_4 (example_lepton 30)
              [mkPerm 0 1 2 3; mkPerm 0 1 3 2; mkPerm 2 3 0 1] 0
              (mkPerm 0 1 2 3)
              (take 3 (nd_data example_features))
              example_row_0
              eq_refl eq_refl eq_refl eq_refl eq_refl eq_refl)
    as (j0 & j1 & j2 & j3 & H0 & H1 & H2 & H3 & H4 & H5 & H6 & H7).
  exists j0, j1, j2, j3, example_row_0.
  split; [reflexivity|]. split; [exact H0|]. split; [exact H1|].
  split; [exact H2|]. split; [exact H3|]. split; [exact H4|].
  split; [exact H5|]. split; [exact H6|]. split; [exact H7|].
  reflexivity.
Defined.


Lemma example_best_permutation :
  exists a va p j0 j1 j2,
    argmax [f64_of_Z 1; f64_of_Z 2; f64_of_Z 2] = Some a
    /\ [f64_of_Z 1; f64_of_Z 2; f64_of_Z 2] !! a = Some va
    /\ (forall j y, [f64_of_Z 1; f64_of_Z 2; f64_of_Z 2] !! j = Some y ->
          fge va y = true)
    /\ (forall j y, [f64_of_Z 1; f64_of_Z 2; f64_of_Z 2] !! j = Some y ->
          j < a -> fgt va y = true)
    /\ [mkPerm 0 1 2 3; mkPerm 0 1 3 2; mkPerm 2 3 0 1] !! a = Some p
    /\ example_jets_4 !! i0 p = Some j0
    /\ example_jets_4 !! i1 p = Some j1
    /\ example_jets_4 !! i2 p = Some j2
    /\ best_permutation_observable example_results example_features
         example_counts !! 0
       = Some (Some (stored (@p4_mass example_kinematics
            (p4_add (p4_add (p4_of_jet j0) (p4_of_jet j1))
                    (p4_of_jet j2)))))
    /\ (length [mkPerm 0 1 2 3; mkPerm 0 1 3 2; mkPerm 2 3 0 1] = 1 ->
        a = 0).
Proof.
  apply (@best_permutation_is_first_argmax example_kinematics example_jets
           example_electrons example_muons example_dict example_features
           example_counts example_results 0 example_jets_4
           (example_lepton 30)
           [mkPerm 0 1 2 3; mkPerm 0 1 3 2; mkPerm 2 3 0 1]
           [f64_of_Z 1; f64_of_Z 2; f64_of_Z 2]
           eq_refl eq_refl eq_refl eq_refl eq_refl eq_refl).
  - discriminate.
  - repeat constructor.
Defined.


Lemma example_fills_4j1b :
  exists f,
    @process example_kinematics example_rng example_classifier false
             example_dict "ttbar" "nominal" example_events
      = Some example_fills
    /\ example_fills !! 0 = Some f
    /\ f_region f = "4j1b"
    /\ f_ml_observable f = f_observable f
    /\ exists v, v ∈ pt_variations "nominal"
         /\ f_observable f
            = @HT_observable example_rng example_events v R4j1b.
Proof.
  destruct (@fills_4j1b_same_axes example_kinematics example_rng
              example_classifier false example_dict "ttbar" "nominal"
              example_events) as [_ Hfills].
  eexists. split; [reflexivity|]. split; [reflexivity|].
  split; [reflexivity|].
  apply (Hfills example_fills eq_refl); [|reflexivity].
  apply list_elem_of_here.
Defined.

Lemma example_io_tiers :
  only_do_IO f64_2_7 example_file = Return empty_hist_output
  /\ exists msg,
       only_do_IO (f64_of_Z 3) example_file
       = Raise (NotImplementedError msg).
Proof.
  split.
  - destruct (only_do_IO_errors f64_2_7 example_file)
      as (_ & _ & Hok & _).
    apply Hok; [reflexivity|].
    intros b Hb. change (branches_to_read f64_2_7) with branches_2_7 in Hb.
    unfold branches_2_7 in Hb.
    repeat (apply elem_of_cons in Hb as [->|Hb]; [reflexivity|]).
    by apply elem_of_nil in Hb.
  - destruct (only_do_IO_errors (f64_of_Z 3) example_file)
      as (_ & Hraise & _).
    apply Hraise. reflexivity.
Defined.

End Witnesses.

(** ** Inputs on which the feature extractor or the scoring raises *)

Module Counterexamples.

(** On a batch without events [get_features] raises, although every
    event (there is none) has its entry in the table and one lepton:
    no matrix and no count array are returned. *)
Lemma empty_batch_has_no_matrix :
  @get_features example_kinematics [] [] [] example_dict = None
  /\ ~ exists F counts,
        @get_features example_kinematics [] [] [] example_dict
        = Some (F, counts)
        /\ nd_shape F = (sum_list counts, 28).
Proof.
  split; [reflexivity|]. intros (F & counts & Hg & _). discriminate Hg.
Qed.

(** A batch of one event with four jets and one electron, and a table
    whose entry for four jets is the empty list: the event has zero
    permutations, and [get_features] raises instead of returning a
    count array with the entry 0. *)
Lemma lone_event_without_permutation :
  event_perms example_dict_sparse example_jets_4 = Some []
  /\ @get_features example_kinematics [example_jets_4]
                   [[example_lepton 30]] [[]] example_dict_sparse
     = None
  /\ ~ exists F counts,
        @get_features example_kinematics [example_jets_4]
                      [[example_lepton 30]] [[]] example_dict_sparse
        = Some (F, counts)
        /\ counts !! 0 = Some 0.
Proof.
  split; [reflexivity|]. split; [reflexivity|].
  intros (F & counts & Hg & _). discriminate Hg.
Qed.


End Counterexamples.

(** ** Equality of floating point values *)

Module FloatEq.

(** Only the value itself compares equal to a finite value. *)
Lemma feq_finite (x : float) (s : bool) (m : positive) (e : Z) :
  feq x (S754_finite s m e) = true -> x = S754_finite s m e.
Proof.
  unfold feq, SFeqb, SFcompare.
  destruct x as [sx|sx| |sx mx ex], s; try done; destruct sx; try done;
    change (Pos.compare_cont Eq mx m) with (Pos.compare mx m);
    destruct (Z.compare_spec ex e) as [->|_|_]; try done;
    destruct (Pos.compare_spec mx m) as [->|_|_]; done.
Qed.

Lemma feq_finite_l (x : float) (s : bool) (m : positive) (e : Z) :
  feq (S754_finite s m e) x = true -> x = S754_finite s m e.
Proof.
  unfold feq, SFeqb, SFcompare.
  destruct x as [sx|sx| |sx mx ex], s; try done; destruct sx; try done;
    change (Pos.compare_cont Eq m mx) with (Pos.compare m mx);
    destruct (Z.compare_spec e ex) as [->|_|_]; try done;
    destruct (Pos.compare_spec m mx) as [->|_|_]; done.
Qed.

Lemma feq_finite_refl (s : bool) (m : positive) (e : Z) :
  feq (S754_finite s m e) (S754_finite s m e) = true.
Proof.
  unfold feq, SFeqb, SFcompare.
  change (Pos.compare_cont Eq m m) with (Pos.compare m m).
  destruct s; by rewrite Z.compare_refl, Pos.compare_refl.
Qed.

End FloatEq.

(** ** Facts about the rows of a region *)

Module RegionFacts.
Import ArrayFacts SelectionFacts ParityFacts.

Section Batch.
Context `{Rng}.
Variables (events : list Event) (v : pt_var).

Lemma batch_rows_length : length (batch_rows events v) = length events.
Proof.
  unfold batch_rows.
  rewrite length_zip, length_seq, length_zip, events_pt_var_length. lia.
Qed.

Lemma column_rows {D} (f : Event -> D) :
  f <$> events
  = (fun x : nat * (Event * modifier) => f x.2.1) <$> batch_rows events v.
Proof.
  unfold batch_rows. symmetry. apply fmap_zip3_mid.
  - by rewrite length_seq.
  - apply events_pt_var_length.
Qed.

Lemma selected_electrons_region_rows (r : region) :
  selected_electrons_region events v r
  = (fun x : nat * (Event * modifier) => selected_electrons x.2.1)
      <$> region_rows events v r.
Proof.
  unfold selected_electrons_region, selected_electrons_col.
  rewrite region_filters_rows, event_filters_rows.
  rewrite (column_rows selected_electrons), mask_select_rows.
  apply mask_select_rows.
Qed.

Lemma selected_muons_region_rows (r : region) :
  selected_muons_region events v r
  = (fun x : nat * (Event * modifier) => selected_muons x.2.1)
      <$> region_rows events v r.
Proof.
  unfold selected_muons_region, selected_muons_col.
  rewrite region_filters_rows, event_filters_rows.
  rewrite (column_rows selected_muons), mask_select_rows.
  apply mask_select_rows.
Qed.

Lemma pt_var_modifier_region_rows (r : region) :
  pt_var_modifier_region events v r
  = (fun x : nat * (Event * modifier) => pt_var_modifier v x.2.1 x.2.2)
      <$> region_rows events v r.
Proof.
  unfold pt_var_modifier_region, selected_modifier_col.
  rewrite region_filters_rows, event_filters_rows.
  assert (zip_with (pt_var_modifier v) events (events_pt_var events v)
          = (fun x : nat * (Event * modifier) =>
               pt_var_modifier v x.2.1 x.2.2) <$> batch_rows events v) as ->.
  { unfold batch_rows. rewrite zip_with_uncurry.
    rewrite <-(snd_zip (seq 0 (length events))
                       (zip events (events_pt_var events v))) at 1
      by (rewrite length_seq, length_zip, events_pt_var_length; lia).
    by rewrite <-list_fmap_compose. }
  rewrite mask_select_rows. apply mask_select_rows.
Qed.

(** What the selection mask gives for a row: one selected lepton, at
    least four selected jets, at least one of them tagged. *)
Lemma row_passes_inv (x : nat * (Event * modifier)) :
  row_passes v x = true ->
  length (selected_electrons x.2.1 ++ selected_muons x.2.1) = 1
  /\ 4 <= length (row_jets x)
  /\ 1 <= count_true ((fun j => fge (btagCSVV2 j) B_TAG_THRESHOLD)
                        <$> row_jets x).
Proof.
  unfold row_passes, event_filter, row_jets.
  rewrite !andb_true_iff, Nat.eqb_eq, !Nat.leb_le.
  rewrite scaled_selected_length, !length_fmap, length_app. tauto.
Qed.

Lemma region_rows_inv (r : region) (x : nat * (Event * modifier)) :
  x ∈ region_rows events v r ->
  row_passes v x = true /\ region_filter r (row_jets x) = true
  /\ events !! x.1 = Some x.2.1.
Proof.
  unfold region_rows. intros Hx.
  apply list_elem_of_In, filter_In in Hx as [Hx Hr].
  apply filter_In in Hx as [Hx Hp].
  apply list_elem_of_In, rows_lookup in Hx as [He _]. done.
Qed.

(** Every event of a region has at least four selected jets. *)
Lemma region_jets_four (r : region) :
  Forall (fun jets : list Jet_t => 4 <= length jets)
         (selected_jets_region events v r).
Proof.
  rewrite selected_jets_region_rows. apply Forall_fmap, Forall_forall.
  intros x Hx%list_elem_of_In. apply region_rows_inv in Hx as (Hp & _ & _).
  by apply row_passes_inv in Hp as (_ & H4 & _).
Qed.
End Batch.

End RegionFacts.

(** ** The jet-pT resolution variation *)

Module ResolutionFacts.
Import ArrayFacts SelectionFacts FeatureRows InferenceFacts.

Section Shape.
Context `{Rng}.

(** X1: [jet_pt_resolution] returns one factor per jet: its result has the
    jagged shape of its argument; hence, for each of the three
    variations, the product [events.Jet.pt * events[pt_var]] and the jet
    mask have one entry per jet of every event. *)
Theorem jet_pt_resolution_shape (pt_col : list (list float))
  (events : list Event) (v : pt_var) :
  length <$> jet_pt_resolution pt_col = length <$> pt_col
  /\ forall i e m,
       events !! i = Some e -> events_pt_var events v !! i = Some m ->
       length (bmul (pt <$> Jet e) m) = length (Jet e)
       /\ length (jet_filter e m) = length (Jet e).
Proof.
  assert (forall p : list (list float),
            length <$> jet_pt_resolution p = length <$> p) as Hshape.
  { intros p. unfold jet_pt_resolution. apply unflatten_lengths.
    by rewrite length_imap, length_fmap, sum_list_lengths. }
  split; [apply Hshape|].
  intros i e m He Hm. unfold jet_filter. rewrite length_fmap.
  assert (length (bmul (pt <$> Jet e) m) = length (Jet e)) as Hb; [|done].
  destruct v; simpl in Hm.
  - rewrite list_lookup_fmap, He in Hm. injection Hm as <-.
    simpl. by rewrite !length_fmap.
  - rewrite list_lookup_fmap, He in Hm. injection Hm as <-.
    simpl. by rewrite !length_fmap.
  - rewrite list_lookup_fmap in Hm.
    destruct (jet_pt_resolution _ !! i) as [xs|] eqn:Hxs; [|done].
    injection Hm as <-. simpl.
    specialize (Hshape ((fun e0 : Event => pt <$> Jet e0) <$> events)).
    apply (f_equal (fun l => l !! i)) in Hshape.
    rewrite !list_lookup_fmap, Hxs, He in Hshape. simpl in Hshape.
    injection Hshape as Hlen. rewrite length_fmap in Hlen.
    rewrite length_zip_with, length_fmap. lia.
Qed.
End Shape.

End ResolutionFacts.

(** ** The b-tagging weight variation *)

Module WeightFacts.
Import ArrayFacts RegionFacts FeatureEq.

Lemma btag_column_is_Some (i_jet : nat) (jet_pt : list (list float)) :
  is_Some (mapM (fun pts : list float => pts !! i_jet) jet_pt)
  <-> Forall (fun pts : list float => i_jet < length pts) jet_pt.
Proof.
  rewrite mapM_is_Some. apply Forall_iff. intros pts. unfold compose.
  apply lookup_lt_is_Some.
Qed.

(** X2: [btag_weight_variation] returns exactly when there is at least
    one event and every event has a jet of index [i_jet] (without events
    the product does not broadcast), and then gives one [up, down] pair
    per event.  In [process], which calls it for [i_var] from 0 to 3 and
    a direction 0 or 1 only when the observable of the region is not
    empty, the weight variation is always defined: one factor per event
    of the region, or the number 1 for a region without events. *)
Theorem btag_weight_variation_defined `{Rng}
  (i_jet : nat) (jet_pt : list (list float))
  (events : list Event) (v : pt_var) (r : region)
  (observable : list (option float)) (i_dir : nat) :
  (is_Some (btag_weight_variation i_jet jet_pt)
   <-> jet_pt <> []
       /\ Forall (fun pts : list float => i_jet < length pts) jet_pt)
  /\ (forall w, btag_weight_variation i_jet jet_pt = Some w ->
        length w = length jet_pt /\ Forall (fun row => length row = 2) w)
  /\ (i_jet < 4 -> i_dir < 2 ->
      length observable = length (selected_jets_region events v r) ->
      exists variation,
        btag_region_weights events v r observable i_jet i_dir
        = Some variation
        /\ match variation with
           | per_event factors =>
               length factors = length observable /\ observable <> []
           | no_events_selected => observable = []
           end).
Proof.
  assert (forall w, btag_weight_variation i_jet jet_pt = Some w ->
            length w = length jet_pt
            /\ Forall (fun row => length row = 2) w) as Hshape.
  { unfold btag_weight_variation. intros w Hw.
    destruct (mapM _ jet_pt) as [col|] eqn:Hcol; [|done].
    rewrite bind_Some in Hw. case_guard; [|done].
    rewrite bind_mret in Hw. injection Hw as <-. rewrite length_fmap.
    split; [symmetry; by eapply length_mapM|].
    by apply Forall_fmap, Forall_forall. }
  assert (forall jet_pt : list (list float),
            is_Some (btag_weight_variation i_jet jet_pt)
            <-> jet_pt <> []
                /\ Forall (fun pts : list float => i_jet < length pts)
                          jet_pt) as Hiff.
  { clear. intros jet_pt. rewrite <-btag_column_is_Some.
    unfold btag_weight_variation.
    destruct (mapM _ jet_pt) as [col|] eqn:Hcol.
    - rewrite bind_Some. apply length_mapM in Hcol.
      case_guard as Hne.
      + rewrite bind_mret. split; [intros _|by eexists].
        split; [|by eexists]. intros ->. by destruct col.
      + split; [by intros [? ?]|]. intros [Hjets _].
        destruct col; [|done]. by destruct jet_pt.
    - rewrite bind_None. split; [by intros [? ?]|by intros [_ [? ?]]]. }
  split_and!; [apply Hiff|exact Hshape|].
  intros Hjet Hdir Hlen. unfold btag_region_weights.
  destruct (0 <? length observable) eqn:Hpos.
  2:{ exists no_events_selected. split; [done|].
      apply Nat.ltb_ge in Hpos. destruct observable; [done|simpl in Hpos; lia]. }
  apply Nat.ltb_lt in Hpos.
  destruct (proj2 (Hiff ((fun jets : list Jet_t => pt <$> jets)
                           <$> selected_jets_region events v r)))
    as [w Hw].
  { split.
    - intros Hnil. apply (f_equal length) in Hnil.
      rewrite length_fmap in Hnil. simpl in Hnil. lia.
    - apply Forall_fmap. eapply List.Forall_impl; [|apply region_jets_four].
      intros jets Hj. unfold compose. rewrite length_fmap.
      simpl in Hj. lia. }
  rewrite Hw, bind_Some.
  destruct (mapM_is_Some_2 (fun row : list float => row !! i_dir) w)
    as [factors Hf].
  { clear -Hw Hdir. unfold btag_weight_variation in Hw.
    destruct (mapM _ _) as [col|]; [|done]. rewrite bind_Some in Hw.
    case_guard; [|done]. rewrite bind_mret in Hw. injection Hw as <-.
    apply Forall_fmap, Forall_forall. intros p _. unfold compose.
    apply lookup_lt_is_Some. simpl. lia. }
  rewrite Hf, bind_Some. exists (per_event factors). split; [done|].
  apply length_mapM in Hf.
  assert (length w = length (selected_jets_region events v r)) as Hlw.
  { unfold btag_weight_variation in Hw.
    destruct (mapM _ _) as [col|] eqn:Hcol; [|done]. rewrite bind_Some in Hw.
    case_guard; [|done]. rewrite bind_mret in Hw. injection Hw as <-.
    apply length_mapM in Hcol. by rewrite !length_fmap in *. }
  split; [lia|]. intros ->. simpl in Hpos. lia.
Qed.

End WeightFacts.

(** ** The trijet observable *)

Module TrijetFacts.
Import FloatFacts ArrayFacts RegionFacts ParityFacts InferenceFacts FeatureEq.

Lemma fgt_fge_trans (a b t : float) :
  fgt a t = true -> fge b a = true -> fgt b t = true.
Proof.
  rewrite fge_spec, !fgt_spec.
  intros (?&?&?) (?&?&[?|Heq]); split_and!; try done.
  - by eapply key_lt_trans.
  - by rewrite <-Heq.
Qed.

Lemma np_maximum_not_nan (a b : float) :
  is_nan a = false -> is_nan b = false -> is_nan (np_maximum a b) = false.
Proof.
  intros Ha Hb. unfold np_maximum. rewrite Ha, Hb. by destruct (fgt a b).
Qed.

Lemma np_maximum_gt (a b t : float) :
  is_nan a = false -> is_nan b = false ->
  fgt a t = true \/ fgt b t = true -> fgt (np_maximum a b) t = true.
Proof.
  intros Ha Hb Hgt. unfold np_maximum. rewrite Ha, Hb.
  destruct (fgt a b) eqn:Hab.
  - destruct Hgt as [?|Hbt]; [done|].
    eapply fge_fgt_trans; [by apply fgt_fge|done].
  - destruct Hgt as [Hat|?]; [|done].
    eapply fgt_fge_trans; [done|]. by apply not_fgt_fge.
Qed.

Lemma combinations2_cover {A} (x : A) (xs : list A) :
  x ∈ xs -> 2 <= length xs ->
  exists c, c ∈ combinations2 xs /\ (x = c.1 \/ x = c.2).
Proof.
  induction xs as [|y ys IH]; intros Hx Hlen; [by apply elem_of_nil in Hx|].
  simpl in Hlen. cbn [combinations2].
  destruct ys as [|z zs]; [simpl in Hlen; lia|].
  apply elem_of_cons in Hx as [->|Hx].
  - exists (y, z). split; [|by left].
    apply elem_of_app. left. rewrite fmap_cons. apply list_elem_of_here.
  - destruct zs as [|w ws].
    + apply list_elem_of_singleton in Hx as ->.
      exists (y, z). split; [|by right].
      apply elem_of_app. left. rewrite fmap_cons. apply list_elem_of_here.
    + destruct IH as (c & Hc & Hxc); [done|simpl; lia|].
      exists c. split; [|done]. apply elem_of_app. by right.
Qed.

Lemma combinations3_cover {A} (x : A) (xs : list A) :
  x ∈ xs -> 3 <= length xs ->
  exists c, c ∈ combinations3 xs /\ (x = c.1.1 \/ x = c.1.2 \/ x = c.2).
Proof.
  induction xs as [|y ys IH]; intros Hx Hlen; [by apply elem_of_nil in Hx|].
  simpl in Hlen. cbn [combinations3].
  apply elem_of_cons in Hx as [->|Hx].
  - destruct ys as [|z [|w ws]]; [simpl in Hlen; lia..|].
    exists (y, z, w). split; [|by left].
    apply elem_of_app. left. cbn [combinations2]. rewrite !fmap_cons.
    rewrite fmap_app, !fmap_cons. apply list_elem_of_here.
  - destruct (combinations2_cover x ys Hx ltac:(lia)) as (c & Hc & Hxc).
    exists (y, c.1, c.2). split; [|tauto].
    apply elem_of_app. left.
    apply (list_elem_of_fmap_2 (fun c : A * A => (y, c.1, c.2)) _ _ Hc).
Qed.

Section Trijet.
Context `{Kinematics}.

(** [trijet_mass] written with the named candidates. *)
Lemma trijet_mass_candidates (jets : list Jet_t) :
  trijet_mass jets
  = (i ← argmax ((fun c => p4_pt (trijet_p4 c)) <$> btagged_trijets jets);
     c ← btagged_trijets jets !! i;
     Some (p4_mass (trijet_p4 c))).
Proof.
  unfold trijet_mass, btagged_trijets.
  assert (forall l : list (Jet_t * Jet_t * Jet_t),
    List.filter (fun t : LorentzVector * float => fgt t.2 B_TAG_THRESHOLD)
      ((fun c => (trijet_p4 c, trijet_max_btag c)) <$> l)
    = (fun c => (trijet_p4 c, trijet_max_btag c))
        <$> List.filter (fun c => fgt (trijet_max_btag c) B_TAG_THRESHOLD) l)
    as Hfilter.
  { induction l as [|c l IH]; [done|]. rewrite fmap_cons. cbn [List.filter].
    cbn [snd]. destruct (fgt (trijet_max_btag c) B_TAG_THRESHOLD);
      [rewrite fmap_cons|]; by rewrite IH. }
  unfold trijet_p4, trijet_max_btag in *. rewrite Hfilter.
  rewrite <-list_fmap_compose. unfold compose. cbn [fst].
  destruct (argmax _) as [i|]; [|done]. cbn [mbind option_bind].
  rewrite list_lookup_fmap. by destruct (_ !! i).
Qed.

Lemma trijet_mass_is_Some (jets : list Jet_t) :
  is_Some (trijet_mass jets) <-> btagged_trijets jets <> [].
Proof.
  rewrite trijet_mass_candidates.
  destruct (btagged_trijets jets) as [|c cs] eqn:Hc; [by split; [intros []|]|].
  split; [done|intros _].
  destruct (argmax _) as [i|] eqn:Hi; [|by rewrite fmap_cons in Hi].
  apply argmax_lt in Hi. rewrite length_fmap in Hi.
  apply lookup_lt_is_Some_2 in Hi as [c' Hc']. rewrite bind_Some, Hc'. done.
Qed.

Lemma count_true_pos {A} (p : A -> bool) (xs : list A) :
  1 <= count_true (p <$> xs) -> exists x, x ∈ xs /\ p x = true.
Proof.
  induction xs as [|x xs IH]; [cbv; lia|]. rewrite fmap_cons.
  destruct (p x) eqn:Hp.
  - intros _. exists x. split; [apply list_elem_of_here|done].
  - change (count_true (false :: (p <$> xs))) with (count_true (p <$> xs)).
    intros (y & Hy & Hpy)%IH. exists y. split; [by apply list_elem_of_further|done].
Qed.

Lemma tagged_jet_gives_candidate (jets : list Jet_t) (j : Jet_t) :
  btag_not_nan jets -> 3 <= length jets -> j ∈ jets ->
  fgt (btagCSVV2 j) B_TAG_THRESHOLD = true ->
  btagged_trijets jets <> [].
Proof.
  intros Hnan Hlen Hj Htag.
  destruct (combinations3_cover j jets Hj Hlen) as (c & Hc & Hjc).
  assert (c ∈ btagged_trijets jets) as Hin; [|by intros Heq; rewrite Heq in Hin; apply elem_of_nil in Hin].
  apply list_elem_of_In, filter_In. split; [by apply list_elem_of_In|].
  assert (forall x, x ∈ combinations3 jets ->
            x.1.1 ∈ jets /\ x.1.2 ∈ jets /\ x.2 ∈ jets) as Hsub.
  { clear. induction jets as [|y ys IH]; intros x Hx;
      [by apply elem_of_nil in Hx|].
    cbn [combinations3] in Hx. apply elem_of_app in Hx as [Hx|Hx].
    - apply list_elem_of_fmap in Hx as (c & -> & Hc). cbn [fst snd].
      assert (forall l (c : Jet_t * Jet_t),
                c ∈ combinations2 l -> c.1 ∈ l /\ c.2 ∈ l) as H2.
      { clear. induction l as [|z zs IH]; intros c Hc;
          [by apply elem_of_nil in Hc|].
        cbn [combinations2] in Hc. apply elem_of_app in Hc as [Hc|Hc].
        - apply list_elem_of_fmap in Hc as (w & -> & Hw). cbn [fst snd].
          split; [apply list_elem_of_here|by apply list_elem_of_further].
        - apply IH in Hc as [? ?].
          split; by apply list_elem_of_further. }
      apply H2 in Hc as [? ?].
      split_and!; [apply list_elem_of_here|by apply list_elem_of_further..].
    - apply IH in Hx as (? & ? & ?).
      split_and!; by apply list_elem_of_further. }
  destruct (Hsub c Hc) as (H1 & H2 & H3).
  unfold btag_not_nan in Hnan. rewrite Forall_forall in Hnan.
  assert (forall x, x ∈ jets -> is_nan (btagCSVV2 x) = false) as Hn.
  { intros x Hx. by apply Hnan, list_elem_of_In. }
  unfold trijet_max_btag.
  destruct Hjc as [-> | [-> | ->] ].
  - apply np_maximum_gt; [by apply Hn| |by left].
    apply np_maximum_not_nan; by apply Hn.
  - apply np_maximum_gt; [by apply Hn| |right].
    + apply np_maximum_not_nan; by apply Hn.
    + apply np_maximum_gt; [by apply Hn..|by left].
  - apply np_maximum_gt; [by apply Hn| |right].
    + apply np_maximum_not_nan; by apply Hn.
    + apply np_maximum_gt; [by apply Hn..|by right].
Qed.
End Trijet.

Section Region.
Context `{Kinematics} `{Rng}.

(** For a batch whose b-tag scores are numbers, every event of region
    4j2b has a trijet mass. *)
Lemma trijet_mass_region (events : list Event) (v : pt_var) :
  Forall (fun e => btag_not_nan (Jet e)) events ->
  Forall is_Some (trijet_mass <$> selected_jets_region events v R4j2b).
Proof.
  intros Hnan.
  rewrite selected_jets_region_rows. rewrite <-list_fmap_compose.
  apply Forall_fmap, Forall_forall. intros x Hx%list_elem_of_In.
  apply region_rows_inv in Hx as (Hp & Hr & He). unfold compose.
  apply row_passes_inv in Hp as (_ & H4 & _).
  cbn [region_filter] in Hr. apply Nat.leb_le in Hr.
  destruct (count_true_pos (fun j => fgt (btagCSVV2 j) B_TAG_THRESHOLD)
              (row_jets x)) as (j & Hj & Htag); [lia|].
  apply trijet_mass_is_Some.
  apply (tagged_jet_gives_candidate _ j); [|lia|done|done].
  rewrite Forall_forall in Hnan.
  assert (btag_not_nan (Jet x.2.1)) as Hjets.
  { apply Hnan, list_elem_of_In. by eapply list_elem_of_lookup_2. }
  unfold btag_not_nan in *. rewrite Forall_forall in *.
  intros y Hy. apply Hjets.
  unfold row_jets, selected_jets in Hy.
  apply list_elem_of_In in Hy. apply list_elem_of_In.
  revert Hy. generalize (jet_filter x.2.1 x.2.2). generalize (Jet x.2.1).
  induction l as [|a l IH]; intros [|b mask] Hy; try by apply elem_of_nil in Hy.
  rewrite mask_select_cons in Hy. destruct b.
  - apply elem_of_cons in Hy as [->|Hy]; [apply list_elem_of_here|].
    apply list_elem_of_further; eauto.
  - apply list_elem_of_further; eauto.
Qed.

(** X3: the trijet mass of an event exists exactly when some candidate
    of three jets carries a tagged jet; for a batch whose b-tag scores
    are numbers this holds for every event of region 4j2b, so the
    observable of that region has no missing entry. *)
Theorem trijet_mass_defined_in_4j2b (events : list Event) (v : pt_var) :
  (forall jets, is_Some (trijet_mass jets) <-> btagged_trijets jets <> [])
  /\ (Forall (fun e => btag_not_nan (Jet e)) events ->
      Forall is_Some (trijet_mass <$> selected_jets_region events v R4j2b)).
Proof.
  split; [apply trijet_mass_is_Some|apply trijet_mass_region].
Qed.

(** X4: the candidate whose mass is returned is one of the combinations
    of three jets of the event, it has a tagged jet, and, when the
    transverse momenta of the tagged candidates are numbers, none of the
    tagged candidates has a larger transverse momentum. *)
Theorem trijet_mass_is_leading_tagged (jets : list Jet_t) (mval : float) :
  trijet_mass jets = Some mval ->
  exists c,
    c ∈ combinations3 jets
    /\ fgt (trijet_max_btag c) B_TAG_THRESHOLD = true
    /\ mval = p4_mass (trijet_p4 c)
    /\ (no_nan ((fun c => p4_pt (trijet_p4 c)) <$> btagged_trijets jets) ->
        forall c', c' ∈ combinations3 jets ->
          fgt (trijet_max_btag c') B_TAG_THRESHOLD = true ->
          fge (p4_pt (trijet_p4 c)) (p4_pt (trijet_p4 c')) = true).
Proof.
  rewrite trijet_mass_candidates. intros Hm.
  destruct (argmax _) as [i|] eqn:Hi; [|done]. rewrite bind_Some in Hm.
  destruct (btagged_trijets jets !! i) as [c|] eqn:Hc; [|done].
  rewrite bind_Some in Hm. injection Hm as <-.
  exists c. pose proof (list_elem_of_lookup_2 _ _ _ Hc) as Hin.
  apply list_elem_of_In, filter_In in Hin as [Hin Htag].
  split_and!; [by apply list_elem_of_In|done|done|].
  intros Hnan c' Hc' Htag'.
  destruct (argmax_spec ((fun c => p4_pt (trijet_p4 c))
                           <$> btagged_trijets jets))
    as (a & va & Ha & Hva & Hmax & _); [|done|].
  { intros Hnil. apply fmap_nil_inv in Hnil. by rewrite Hnil in Hc. }
  rewrite Hi in Ha. injection Ha as <-.
  rewrite list_lookup_fmap, Hc in Hva. injection Hva as <-.
  assert (c' ∈ btagged_trijets jets) as Hin'.
  { apply list_elem_of_In, filter_In. split; [by apply list_elem_of_In|done]. }
  apply list_elem_of_lookup_1 in Hin' as [k Hk].
  apply (Hmax k). by rewrite list_lookup_fmap, Hk.
Qed.
End Region.

End TrijetFacts.

(** ** The domain of the feature extractor and of the processor *)

Module DomainFacts.
Import FloatFacts ArrayFacts SelectionFacts FeatureFacts FeatureEq
       FeatureRows FeatureTotal InferenceFacts ParityFacts RegionFacts.



Section Domain.
Context `{Kinematics}.

End Domain.

End DomainFacts.

(** ** Missing values of the ML observable *)

Module ObservableFacts.
Import FloatFacts ArrayFacts FeatureFacts FeatureEq FeatureRows
       FeatureClaims InferenceFacts.

Section Missing.
Context `{Kinematics}.

(** The entries of the ML observable, event by event. *)
Lemma ml_observable_entries
  jets electrons muons permutations_dict
  (features : ndarray) (perm_counts : list nat) (results : list float) :
  get_features jets electrons muons permutations_dict
    = Some (features, perm_counts) ->
  length results = sum_list perm_counts ->
  length (best_permutation_observable results features perm_counts)
  = length jets
  /\ forall k c, perm_counts !! k = Some c ->
       exists o,
         best_permutation_observable results features perm_counts !! k
         = Some o
         /\ (is_Some o <-> 0 < c).
Proof.
  intros HF Hres.
  pose proof (get_features_events _ _ _ _ _ _ HF)
    as (_ & _ & _ & _ & Hcounts & _ & Hev).
  split.
  { unfold best_permutation_observable.
    rewrite length_zip_with, length_fmap, !length_unflatten. lia. }
  intros k c Hk.
  destruct (lookup_lt_is_Some_2 jets k) as [js Hjs].
  { rewrite <-Hcounts. by eapply lookup_lt_Some. }
  destruct (Hev k js Hjs) as (l & ps & ck & _ & _ & Hpick & Hc & Hrows).
  assert (c = length ps) as -> by congruence.
  apply length_mapM in Hpick.
  pose proof (unflatten_lengths results perm_counts ltac:(lia)) as Hlens.
  apply (f_equal (fun ls => ls !! k)) in Hlens.
  rewrite list_lookup_fmap, Hk in Hlens.
  destruct (unflatten results perm_counts !! k) as [scores|] eqn:Hscores;
    [|done].
  injection Hlens as Hlen.
  exists (pick_observable (feature_row <$> ck) (argmax scores)).
  split; [by apply best_permutation_lookup|].
  unfold pick_observable.
  destruct (argmax scores) as [a|] eqn:Ha.
  - pose proof (argmax_lt _ _ Ha) as Hlt. rewrite bind_Some.
    destruct (lookup_lt_is_Some_2 ck a) as [row Hrow]; [lia|].
    rewrite list_lookup_fmap, Hrow. cbn [fmap option_fmap option_map].
    rewrite bind_Some. split; [lia|intros _].
    apply lookup_lt_is_Some_2. rewrite feature_row_length. lia.
  - rewrite bind_None. destruct scores; [|done]. simpl in Hlen.
    split; [by intros [? ?]|lia].
Qed.

(** X9: the ML observable has one entry per event, and the entry of an
    event is a value exactly when the table lists at least one
    permutation for the event's jet count; an event without permutation
    gets a missing value, whatever the scores are. *)
Theorem ml_observable_missing_iff
  jets electrons muons permutations_dict
  (features : ndarray) (perm_counts : list nat) (results : list float) :
  get_features jets electrons muons permutations_dict
    = Some (features, perm_counts) ->
  length results = sum_list perm_counts ->
  length (best_permutation_observable results features perm_counts)
  = length jets
  /\ forall k c, perm_counts !! k = Some c ->
       exists o,
         best_permutation_observable results features perm_counts !! k
         = Some o
         /\ (is_Some o <-> 0 < c).
Proof.
  apply ml_observable_entries.
Qed.
End Missing.

End ObservableFacts.

(** ** What the processor returns *)

Module ProcessFacts.
Import FloatFacts ArrayFacts SelectionFacts FeatureFacts FeatureEq
       FeatureRows FeatureTotal FeatureClaims InferenceFacts ParityFacts
       RegionFacts ProcessorClaims TrijetFacts ObservableFacts.

Lemma np_repeat_elem {A} (xs : list A) (counts : list nat) (b : A) :
  length xs = length counts -> Forall (fun c => 0 < c) counts ->
  b ∈ np_repeat xs counts <-> b ∈ xs.
Proof.
  unfold np_repeat. revert counts.
  induction xs as [|x xs IH]; intros [|c counts] Hlen Hpos; try done.
  cbn [zip_with concat]. apply List.Forall_cons_iff in Hpos as [Hc Hpos].
  rewrite elem_of_app, elem_of_replicate, elem_of_cons, IH
    by (done || (simpl in Hlen; lia)).
  split; (intros [Hb|Hb]; [left|by right]); [by destruct Hb|].
  split; [done|lia].
Qed.

Lemma mask_assign_length {A} (arr : list A) (mask : list bool)
  (vals res : list A) :
  mask_assign arr mask vals = Some res -> length res = length arr.
Proof.
  revert mask vals res.
  induction arr as [|a arr IH]; intros [|[] mask] vals res Hres;
    try done; cbn [mask_assign] in Hres.
  - destruct vals; [|done]. by injection Hres as <-.
  - destruct vals as [|val vals]; [done|].
    apply fmap_Some in Hres as (res' & Hres' & ->).
    cbn [length]. f_equal. by eapply IH.
  - apply fmap_Some in Hres as (res' & Hres' & ->).
    cbn [length]. f_equal. by eapply IH.
Qed.

Lemma predict_xgboost_length `{Classifier}
  (features : ndarray) (even_perm : list bool) (results : list float) :
  predict_xgboost features even_perm = Some results ->
  length results = (nd_shape features).1.
Proof.
  unfold predict_xgboost. intros Hp.
  destruct (transformed_scores predict_even _) as [se|]; [|done].
  rewrite bind_Some in Hp.
  destruct (mask_assign _ even_perm se) as [res|] eqn:Hres; [|done].
  rewrite bind_Some in Hp.
  destruct (transformed_scores predict_odd _) as [so|]; [|done].
  rewrite bind_Some in Hp.
  apply mask_assign_length in Hp, Hres.
  rewrite length_replicate in Hres. lia.
Qed.

Lemma Forall_zip_with_Some {A B C} (f : A -> B -> C) (xs : list A)
  (ys : list B) :
  Forall is_Some (zip_with (fun x y => Some (f x y)) xs ys).
Proof.
  revert ys. induction xs as [|x xs IH]; intros [|y ys]; cbn [zip_with];
    constructor; [by eexists|apply IH].
Qed.

Section Regions.
Context `{Kinematics} `{Rng} `{Classifier}.
Variables (permutations_dict : gmap nat (list perm)).
Variables (events : list Event) (v : pt_var).

(** The table has permutations for every event the selection lets
    through. *)
Lemma region_entry (r : region) (x : nat * (Event * modifier)) :
  table_covers permutations_dict -> x ∈ region_rows events v r ->
  exists ps, event_perms permutations_dict (row_jets x) = Some ps
    /\ ps <> []
    /\ Forall (fun p => i0 p < length (row_jets x)
                        /\ i1 p < length (row_jets x)
                        /\ i2 p < length (row_jets x)
                        /\ i3 p < length (row_jets x)) ps.
Proof.
  intros (kmax & Hmax & H4 & Hcover) Hx.
  apply region_rows_inv in Hx as (Hp & _ & _).
  apply row_passes_inv in Hp as (_ & Hfour & _).
  unfold event_perms. rewrite Hmax, bind_Some.
  destruct (Hcover (if decide (kmax < length (row_jets x)) then kmax
                    else length (row_jets x))) as (ps & Hps & Hne & Hr).
  { case_decide; lia. }
  exists ps. split_and!; [done..|].
  eapply List.Forall_impl; [|exact Hr]. intros p. cbv beta.
  case_decide; lia.
Qed.

(** The selection hands [get_features] the inputs it is written for,
    when the region has an event. *)
Lemma region_well_formed (r : region) :
  table_covers permutations_dict ->
  selected_jets_region events v r <> [] ->
  well_formed_input (selected_jets_region events v r)
                    (selected_electrons_region events v r)
                    (selected_muons_region events v r) permutations_dict.
Proof.
  intros Htab Hne. pose proof Htab as (kmax & Hmax & _).
  rewrite selected_jets_region_rows in Hne.
  rewrite selected_jets_region_rows, selected_electrons_region_rows,
    selected_muons_region_rows.
  split_and!; [by rewrite !length_fmap..| | |].
  - apply Forall2_fmap, Forall_Forall2_diag, Forall_forall.
    intros x Hx%list_elem_of_In. apply region_rows_inv in Hx as (Hp & _ & _).
    by apply row_passes_inv in Hp as (Hone & _ & _).
  - destruct (region_rows events v r) as [|x rows] eqn:Hrows; [done|].
    rewrite fmap_cons. apply Exists_cons_hd.
    destruct (region_entry r x Htab) as (ps & Hps & Hps' & _).
    { rewrite Hrows. apply list_elem_of_here. }
    by exists ps.
  - exists kmax. split; [done|]. apply Forall_fmap, Forall_forall.
    intros x Hx%list_elem_of_In. unfold compose.
    destruct (region_entry r x Htab Hx) as (ps & Hps & _ & Hr).
    unfold event_perms in Hps. rewrite Hmax, bind_Some in Hps.
    by exists ps.
Qed.

(** With such a table, the feature extractor returns on region 4j2b
    exactly when the region has an event. *)
Lemma region_features_returns :
  table_covers permutations_dict ->
  is_Some (get_features (selected_jets_region events v R4j2b)
                        (selected_electrons_region events v R4j2b)
                        (selected_muons_region events v R4j2b)
                        permutations_dict)
  <-> selected_jets_region events v R4j2b <> [].
Proof.
  intros Htab. split.
  - intros Hex%get_features_needs_permutation Hnil.
    rewrite Hnil in Hex. by apply Exists_nil in Hex.
  - intros Hne. by apply get_features_total, region_well_formed.
Qed.

(** Every event of region 4j2b has at least one permutation. *)
Lemma region_counts_positive (F : ndarray) (counts : list nat) :
  table_covers permutations_dict ->
  get_features (selected_jets_region events v R4j2b)
               (selected_electrons_region events v R4j2b)
               (selected_muons_region events v R4j2b)
               permutations_dict = Some (F, counts) ->
  Forall (fun c => 0 < c) counts.
Proof.
  intros Htab HF.
  pose proof (get_features_events _ _ _ _ _ _ HF)
    as (_ & _ & _ & _ & Hcounts & _ & Hev).
  apply Forall_lookup. intros k c Hk.
  destruct (lookup_lt_is_Some_2 (selected_jets_region events v R4j2b) k)
    as [js Hjs].
  { rewrite <-Hcounts. by eapply lookup_lt_Some. }
  destruct (Hev k js Hjs) as (l & ps & ck & _ & Hps & _ & Hc & _).
  assert (c = length ps) as -> by congruence.
  rewrite selected_jets_region_rows, list_lookup_fmap in Hjs.
  destruct (region_rows events v R4j2b !! k) as [x|] eqn:Hx; [|done].
  injection Hjs as <-.
  destruct (region_entry R4j2b x Htab) as (ps' & Hps' & Hne & _).
  { by eapply list_elem_of_lookup_2. }
  assert (ps' = ps) as -> by congruence.
  destruct ps; [done|cbn; lia].
Qed.

(** The observables of region 4j2b are computed exactly when the
    region has events of both parities and the two models return. *)
Lemma region_observables_returns :
  table_covers permutations_dict ->
  is_Some (region_observables permutations_dict events v R4j2b)
  <-> true ∈ even_region events v R4j2b
      /\ false ∈ even_region events v R4j2b
      /\ models_return permutations_dict events v.
Proof.
  intros Htab. cbn [region_observables]. unfold models_return.
  destruct (get_features _ _ _ _) as [[F counts]|] eqn:HF.
  - rewrite bind_Some. cbv beta iota.
    pose proof (get_features_events _ _ _ _ _ _ HF)
      as (_ & Hshape & Hdata & _ & Hcounts & _).
    pose proof (region_counts_positive F counts Htab HF) as Hpos.
    destruct (predict_xgboost_spec F
                (np_repeat (even_region events v R4j2b) counts))
      as [Hiff _].
    { rewrite Hshape. apply np_repeat_length.
      by rewrite even_region_length, Hcounts. }
    { by rewrite Hshape. }
    rewrite !np_repeat_elem in Hiff
      by (done || by rewrite even_region_length, Hcounts).
    destruct (predict_xgboost _ _) as [results|];
      rewrite ?bind_Some, ?bind_None.
    + split; [intros _|by eexists].
      destruct (proj1 Hiff) as (Ht & Hf & He & Ho); [by eexists|].
      split_and!; [done..|]. intros F' counts' [= <- <-]. by split.
    + split; [by intros [? ?]|]. intros (Ht & Hf & Hm).
      destruct (Hm F counts eq_refl) as [He Ho].
      assert (is_Some (@None (list float))) as [? ?]; [by apply Hiff|done].
  - rewrite bind_None. split; [by intros [? ?]|]. intros (Ht & _ & _).
    exfalso.
    assert (is_Some (get_features
                       (selected_jets_region events v R4j2b)
                       (selected_electrons_region events v R4j2b)
                       (selected_muons_region events v R4j2b)
                       permutations_dict)) as [? Hs];
      [|by rewrite Hs in HF].
    apply region_features_returns; [done|]. intros Hnil.
    pose proof (even_region_length events v R4j2b) as Hlen.
    rewrite Hnil in Hlen. destruct (even_region events v R4j2b); [|done].
    by apply elem_of_nil in Ht.
Qed.

(** Both observables of a region have one entry per event of the
    region. *)
Lemma region_observables_lengths (r : region)
  (observable ML_observable : list (option float)) :
  region_observables permutations_dict events v r
  = Some (observable, ML_observable) ->
  length observable = length (selected_jets_region events v r)
  /\ length ML_observable = length (selected_jets_region events v r).
Proof.
  destruct r; cbn [region_observables].
  - intros [= <- <-]. unfold HT_observable.
    rewrite length_zip_with, selected_jets_region_rows,
      pt_var_modifier_region_rows, !length_fmap. lia.
  - destruct (get_features _ _ _ _) as [[F counts]|] eqn:HF; [|done].
    rewrite bind_Some. cbv beta iota.
    destruct (predict_xgboost _ _) as [results|]; [|done].
    rewrite bind_Some. intros [= <- <-].
    pose proof (get_features_events _ _ _ _ _ _ HF)
      as (_ & _ & _ & _ & Hcounts & _).
    unfold best_permutation_observable.
    rewrite length_fmap, length_zip_with, length_fmap, !length_unflatten.
    lia.
Qed.

(** For a batch whose b-tag scores are numbers, the observables of a
    region hold no missing value. *)
Lemma region_observables_defined (r : region)
  (observable ML_observable : list (option float)) :
  table_covers permutations_dict ->
  Forall (fun e => btag_not_nan (Jet e)) events ->
  region_observables permutations_dict events v r
  = Some (observable, ML_observable) ->
  Forall is_Some observable /\ Forall is_Some ML_observable.
Proof.
  intros Htab Hnan. destruct r; cbn [region_observables].
  - intros [= <- <-]. split; apply Forall_zip_with_Some.
  - destruct (get_features _ _ _ _) as [[F counts]|] eqn:HF; [|done].
    rewrite bind_Some. cbv beta iota.
    destruct (predict_xgboost _ _) as [results|] eqn:Hres; [|done].
    rewrite bind_Some. intros [= <- <-].
    split; [by apply trijet_mass_region|].
    pose proof (get_features_events _ _ _ _ _ _ HF)
      as (_ & Hshape & _ & _ & Hcounts & _).
    apply predict_xgboost_length in Hres. rewrite Hshape in Hres.
    destruct (ml_observable_entries _ _ _ _ _ _ _ HF Hres) as [Hlen Hent].
    pose proof (region_counts_positive F counts Htab HF) as Hpos.
    apply Forall_lookup. intros k o Ho.
    destruct (lookup_lt_is_Some_2 counts k) as [c Hc].
    { rewrite Hcounts, <-Hlen. by eapply lookup_lt_Some. }
    destruct (Hent k c Hc) as (o' & Ho' & Hiff).
    assert (o' = o) as -> by congruence.
    apply Hiff. by eapply (proj1 (Forall_lookup _ _) Hpos).
Qed.
End Regions.

(** The labels of the fills of one region and one jet-pT variation. *)
Lemma fills_labels (process_name variation : string) (v : pt_var)
  (r : region) (observable ML_observable : list (option float)) :
  (fun f => (f_region f, f_variation f))
    <$> fills process_name variation v r observable ML_observable
  = match v with
    | pt_nominal =>
        (region_name r, variation)
        :: (if String.eqb variation "nominal"
            then pair (region_name r)
                   <$> ((if String.eqb process_name "wjets"
                         then ["scale_var_up"; "scale_var_down"] else [])
                        ++ btag_labels)
            else [])
    | _ => if String.eqb variation "nominal"
           then [(region_name r, pt_var_name v)] else []
    end
  /\ Forall (fun f => f_process f = process_name)
            (fills process_name variation v r observable ML_observable).
Proof.
  unfold fills, systematics_fields, directions, btag_var_names.
  destruct v, (String.eqb variation "nominal"),
    (String.eqb process_name "wjets"), (0 <? length observable);
    cbn; split; try done; repeat constructor.
Qed.

(** The variation label of a fill tells the pass that made it. *)
Lemma fills_pass (process_name variation : string) (v : pt_var)
  (r : region) (observable ML_observable : list (option float))
  (f : fill_call) :
  f ∈ fills process_name variation v r observable ML_observable ->
  fill_pt_var variation f = v.
Proof.
  unfold fills, fill_pt_var, systematics_fields, directions, btag_var_names.
  intros Hf.
  destruct (String.eqb variation "nominal") eqn:Hnom.
  - apply String.eqb_eq in Hnom as ->.
    destruct v, (String.eqb process_name "wjets"),
      (0 <? length observable);
      cbn in Hf;
      repeat (apply elem_of_cons in Hf as [->|Hf]; [done|]);
      by apply elem_of_nil in Hf.
  - destruct v; cbn in Hf; [|by apply elem_of_nil in Hf..].
    apply elem_of_cons in Hf as [->|Hf]; [done|].
    by apply elem_of_nil in Hf.
Qed.

Lemma fill_labels_NoDup (process_name variation : string) :
  NoDup (fill_labels process_name variation).
Proof.
  unfold fill_labels, nominal_labels.
  destruct (String.eqb variation "nominal").
  - destruct (String.eqb process_name "wjets");
      apply (bool_decide_unpack _); vm_compute; exact I.
  - apply NoDup_cons_2; [|apply NoDup_singleton].
    intros Hin%list_elem_of_singleton. discriminate.
Qed.

Section Process.
Context `{Kinematics} `{Rng} `{Classifier}.
Variables (permutations_dict : gmap nat (list perm)).
Variables (process_name variation : string) (events : list Event).

(** The fills of [process], one group per pass of the two loops. *)
Lemma process_groups (use_triton : bool) (fs : list fill_call) :
  process use_triton permutations_dict process_name variation events
    = Some fs ->
  use_triton = false
  /\ exists groups,
       fs = concat groups
       /\ Forall2 (fun (vr : pt_var * region) group =>
                     exists observable ML_observable,
                       region_observables permutations_dict events vr.1 vr.2
                       = Some (observable, ML_observable)
                       /\ group = fills process_name variation vr.1 vr.2
                                        observable ML_observable)
                  (v ← pt_variations variation; r ← [R4j1b; R4j2b]; [(v, r)])
                  groups.
Proof.
  unfold process. destruct use_triton; [done|]. intros Hp.
  apply fmap_Some in Hp as (groups & Hm & ->). split; [done|].
  exists groups. split; [done|]. apply mapM_Some_1 in Hm.
  eapply List.Forall2_impl; [|exact Hm]. intros [v r] group Hg. cbn [fst snd] in *.
  destruct (region_observables permutations_dict events v r)
    as [[obs ml]|]; [|done].
  rewrite bind_Some in Hg. cbv beta iota in Hg.
  apply histogram_fills in Hg as [-> _]. by exists obs, ml.
Qed.

(** The fills of one pass reach the histogram when its observables
    hold no missing value. *)
Lemma pass_fills_accepted (v : pt_var) (r : region)
  (observable ML_observable : list (option float)) :
  Forall is_Some observable -> Forall is_Some ML_observable ->
  is_Some (mapM histogram_fill
             (fills process_name variation v r observable ML_observable)).
Proof.
  intros Hobs Hml. apply mapM_is_Some, Forall_forall.
  intros f Hf%list_elem_of_In. apply fills_fields in Hf as (Ho & Hm & _).
  unfold compose, histogram_fill. rewrite Ho, Hm.
  case_guard; [by eexists|tauto].
Qed.

(** X6: when [process] returns.  With the gradient-boosted models (no
    inference server), a table that has a non-empty entry with
    in-range indices for every jet count from four to its largest key,
    and b-tag scores that are numbers, [process] returns exactly when,
    for each jet-pT variation of the sample, region 4j2b has an event
    with an even and an event with an odd event number and the two
    models return on the feature rows of their parity.  In every other
    case an exception escapes: in particular when the selection leaves
    region 4j2b empty, or with events of one parity only. *)
Theorem process_returns :
  table_covers permutations_dict ->
  Forall (fun e => btag_not_nan (Jet e)) events ->
  is_Some (process false permutations_dict process_name variation events)
  <-> forall v, v ∈ pt_variations variation ->
        true ∈ even_region events v R4j2b
        /\ false ∈ even_region events v R4j2b
        /\ models_return permutations_dict events v.
Proof.
  intros Htab Hnan. unfold process.
  rewrite fmap_is_Some, mapM_is_Some, Forall_forall.
  assert (forall v r,
            is_Some ('(observable, ML_observable) ←
                       region_observables permutations_dict events v r;
                     mapM histogram_fill
                          (fills process_name variation v r
                                 observable ML_observable))
            <-> is_Some (region_observables permutations_dict events v r))
    as Hpass.
  { intros v r.
    destruct (region_observables permutations_dict events v r)
      as [[obs ml]|] eqn:Hobs; rewrite ?bind_Some, ?bind_None;
      [|by split; intros [? ?]].
    cbv beta iota. split; [by eexists|intros _].
    destruct (region_observables_defined _ _ _ _ _ _ Htab Hnan Hobs).
    by apply pass_fills_accepted. }
  split.
  - intros Hall v Hv.
    apply (region_observables_returns _ _ _ Htab), (Hpass v R4j2b).
    apply (Hall (v, R4j2b)), list_elem_of_In.
    apply list_elem_of_bind. exists v. split; [|done].
    apply list_elem_of_further, list_elem_of_here.
  - intros Hall [v r] Hvr%list_elem_of_In. unfold compose. cbn [fst snd].
    apply list_elem_of_bind in Hvr as (v' & Hvr & Hv).
    apply list_elem_of_bind in Hvr as (r' & Hvr & _).
    apply list_elem_of_singleton in Hvr as [= <- <-].
    apply Hpass. destruct r; [by eexists|].
    by apply region_observables_returns, Hall.
Qed.

(** X7: the histogram bins [process] fills.  Whatever the events, the
    (region, variation) labels of the fills are, in order, those of
    [fill_labels]: for a nominal sample the nominal fill, the scale
    variations (for process "wjets" only) and the eight b-tagging
    variations in each region, then the two jet-pT variations; for any
    other sample one fill per region.  No label is filled twice and
    every fill carries the process name of the sample. *)
Theorem process_fill_labels (use_triton : bool) (fs : list fill_call) :
  process use_triton permutations_dict process_name variation events
    = Some fs ->
  (fun f => (f_region f, f_variation f)) <$> fs
  = fill_labels process_name variation
  /\ NoDup (fill_labels process_name variation)
  /\ Forall (fun f => f_process f = process_name) fs.
Proof.
  intros (_ & groups & -> & Hg)%process_groups.
  split_and!; [|apply fill_labels_NoDup|].
  - pose proof (fun v r o m =>
                  proj1 (fills_labels process_name variation v r o m)) as Hl.
    unfold pt_variations in Hg. unfold fill_labels, nominal_labels.
    destruct (String.eqb variation "nominal") eqn:Hnom.
    + change ([pt_nominal; pt_scale_up; pt_res_up]
                ≫= (fun v => [R4j1b; R4j2b] ≫= fun r => [(v, r)]))
        with [(pt_nominal, R4j1b); (pt_nominal, R4j2b);
              (pt_scale_up, R4j1b); (pt_scale_up, R4j2b);
              (pt_res_up, R4j1b); (pt_res_up, R4j2b)] in Hg.
      repeat (apply Forall2_cons_inv_l in Hg
                as (? & ? & (? & ? & _ & ->) & Hg & ->)).
      apply Forall2_nil_inv_l in Hg as ->.
      cbn [concat fst snd]. rewrite !fmap_app, !Hl.
      apply String.eqb_eq in Hnom as ->.
      by destruct (String.eqb process_name "wjets").
    + change ([pt_nominal]
                ≫= (fun v => [R4j1b; R4j2b] ≫= fun r => [(v, r)]))
        with [(pt_nominal, R4j1b); (pt_nominal, R4j2b)] in Hg.
      repeat (apply Forall2_cons_inv_l in Hg
                as (? & ? & (? & ? & _ & ->) & Hg & ->)).
      apply Forall2_nil_inv_l in Hg as ->.
      cbn [concat fst snd]. by rewrite !fmap_app, !Hl.
  - apply Forall_concat. apply Forall_forall. intros group Hin%list_elem_of_In.
    apply list_elem_of_lookup in Hin as [n Hn].
    destruct (Forall2_lookup_r _ _ _ _ _ Hg Hn)
      as ([v r] & _ & obs & ml & _ & ->).
    apply fills_labels.
Qed.

(** X8: the fills of [process] come in groups, one per pass of the
    loops over the jet-pT variations and the regions, in the order of
    the loops, and every fill of a group passes, on the two observable
    axes, the two observables computed in that pass for that region: so
    arrays of one length, one entry per event of the region in that
    pass.  The pass of a fill can be read off its variation label
    ([fill_pt_var]). *)
Theorem process_fill_axes (use_triton : bool) (fs : list fill_call) :
  process use_triton permutations_dict process_name variation events
    = Some fs ->
  (exists groups,
     fs = concat groups
     /\ Forall2 (fun (vr : pt_var * region) group =>
                   exists observable ML_observable,
                     region_observables permutations_dict events vr.1 vr.2
                     = Some (observable, ML_observable)
                     /\ length observable
                        = length (selected_jets_region events vr.1 vr.2)
                     /\ length ML_observable
                        = length (selected_jets_region events vr.1 vr.2)
                     /\ Forall (fun f =>
                                  f_observable f = observable
                                  /\ f_ml_observable f = ML_observable
                                  /\ f_region f = region_name vr.2
                                  /\ fill_pt_var variation f = vr.1) group)
                (v ← pt_variations variation; r ← [R4j1b; R4j2b]; [(v, r)])
                groups)
  /\ forall f, f ∈ fs ->
       exists r,
         f_region f = region_name r
         /\ fill_pt_var variation f ∈ pt_variations variation
         /\ region_observables permutations_dict events
              (fill_pt_var variation f) r
            = Some (f_observable f, f_ml_observable f)
         /\ length (f_observable f)
            = length (selected_jets_region events
                        (fill_pt_var variation f) r)
         /\ length (f_ml_observable f)
            = length (selected_jets_region events
                        (fill_pt_var variation f) r).
Proof.
  intros (_ & groups & -> & Hg)%process_groups. split.
  - exists groups. split; [done|].
    eapply List.Forall2_impl; [|exact Hg].
    intros [v r] group (obs & ml & Hobs & ->). cbn [fst snd] in *.
    exists obs, ml.
    destruct (region_observables_lengths _ _ _ _ _ _ Hobs) as [Ho Hml].
    split_and!; [done..|]. apply Forall_forall.
    intros f Hf%list_elem_of_In.
    rewrite (fills_pass _ _ _ _ _ _ _ Hf).
    by apply fills_fields in Hf as (-> & -> & ->).
  - intros f Hf.
    apply list_elem_of_In, in_concat in Hf as (group & Hgroup & Hf).
    apply list_elem_of_In in Hgroup, Hf.
    apply list_elem_of_lookup in Hgroup as [n Hn].
    destruct (Forall2_lookup_r _ _ _ _ _ Hg Hn)
      as ([v r] & Hvr & obs & ml & Hobs & ->).
    cbn [fst snd] in *.
    rewrite (fills_pass _ _ _ _ _ _ _ Hf).
    apply fills_fields in Hf as (-> & -> & ->).
    exists r. split_and!; [done| |done|..].
    + apply list_elem_of_lookup_2 in Hvr.
      apply list_elem_of_bind in Hvr as (v' & Hvr & Hv).
      apply list_elem_of_bind in Hvr as (r' & Hvr & _).
      apply list_elem_of_singleton in Hvr. by simplify_eq.
    + by apply (region_observables_lengths _ _ _ _ _ _ Hobs).
    + by apply (region_observables_lengths _ _ _ _ _ _ Hobs).
Qed.
End Process.

End ProcessFacts.

(** ** The ServiceX query and the nominal selection *)

Module QueryFacts.
Import FloatFacts ArrayFacts SelectionFacts.

Lemma digits_cases (m : positive) :
  (Zpos (digits2_pos m) <= 24)%Z ->
  In (digits2_pos m)
     [1;2;3;4;5;6;7;8;9;10;11;12;13;14;15;16;17;18;19;20;21;22;23;24]%positive.
Proof.
  intros H.
  assert (forall n : nat, (Zpos (digits2_pos m) <= Z.of_nat n)%Z ->
            In (digits2_pos m) (Pos.of_nat <$> seq 1 n)) as Hgen.
  { intros n Hn. apply list_elem_of_In, list_elem_of_fmap.
    exists (Pos.to_nat (digits2_pos m)). split; [by rewrite Pos2Nat.id|].
    apply list_elem_of_In, in_seq. lia. }
  exact (Hgen 24%nat H).
Qed.

Lemma round_negative_not_gt prec emax mx ex lx :
  fgt (binary_round_aux prec emax true mx ex lx) f64_25 = false.
Proof.
  unfold binary_round_aux.
  destruct (shr_fexp prec emax mx ex lx) as [mrs e'].
  destruct (shr_fexp prec emax _ e' loc_Exact) as [mrs' e''].
  destruct (shr_m mrs'); [reflexivity| |reflexivity].
  by destruct (Z.leb _ _).
Qed.

Lemma shift_first (D : positive) (e n : Z) :
  (-149 <= e)%Z -> (Zpos D - 53 = n)%Z ->
  (Z.max (Zpos D + (e + -52) - 53) (3 - 1024 - 53) - (e + -52) = n)%Z.
Proof. lia. Qed.

Lemma shift_second (e' : Z) :
  (-1074 <= e')%Z ->
  (Z.max (53 + e' - 53) (3 - 1024 - 53) - e' = 0)%Z.
Proof. lia. Qed.

Ltac digit_case Hd e n :=
  rewrite <-Hd in *; cbn -[Z.max Z.add Z.sub Z.leb Z.compare];
  rewrite (shift_first _ e n) by lia;
  cbn -[Z.max Z.add Z.sub Z.leb Z.compare];
  rewrite <-Hd; cbn -[Z.max Z.add Z.sub Z.leb Z.compare];
  rewrite shift_second by lia;
  cbn -[Z.max Z.add Z.sub Z.leb Z.compare];
  rewrite (proj2 (Z.leb_le _ _)) by lia;
  unfold fgt, SFltb, f64_25, f32_25, SFcompare;
  destruct (Z.compare_spec (-19) e);
  match goal with
  | |- context [(-48 ?= ?X)%Z] => destruct (Z.compare_spec (-48) X)
  end; try lia; reflexivity.

Lemma mul_2_52 (m : positive) :
  (m * 4503599627370496)%positive = Pos.iter xO m 52.
Proof. rewrite Pos.mul_comm. reflexivity. Qed.

Lemma f64_mul_one_cut (x : float) :
  valid_binary 24 128 x = true ->
  fgt (f64_mul x f64_1) f64_25 = fgt x f32_25.
Proof.
  destruct x as [s|s| |s m e]; try reflexivity.
  - by destruct s.
  - unfold valid_binary, bounded, canonical_mantissa, fexp, emin.
    intros Hv. apply andb_true_iff in Hv as [Hc He].
    apply Z.eqb_eq in Hc. apply Z.leb_le in He.
    assert (Zpos (digits2_pos m) <= 24)%Z as Hd by lia.
    apply digits_cases in Hd.
    unfold f64_mul, SFmul, f64_1. rewrite mul_2_52.
    destruct s; cbn [xorb]; [by rewrite round_negative_not_gt|].
    unfold binary_round_aux, shr_fexp, Zdigits2, fexp, emin.
    cbv [Pos.iter]. cbn [digits2_pos].
    destruct Hd as [Hd|Hd]; [digit_case Hd e 0%Z|].
    destruct Hd as [Hd|Hd]; [digit_case Hd e 1%Z|].
    destruct Hd as [Hd|Hd]; [digit_case Hd e 2%Z|].
    destruct Hd as [Hd|Hd]; [digit_case Hd e 3%Z|].
    destruct Hd as [Hd|Hd]; [digit_case Hd e 4%Z|].
    destruct Hd as [Hd|Hd]; [digit_case Hd e 5%Z|].
    destruct Hd as [Hd|Hd]; [digit_case Hd e 6%Z|].
    destruct Hd as [Hd|Hd]; [digit_case Hd e 7%Z|].
    destruct Hd as [Hd|Hd]; [digit_case Hd e 8%Z|].
    destruct Hd as [Hd|Hd]; [digit_case Hd e 9%Z|].
    destruct Hd as [Hd|Hd]; [digit_case Hd e 10%Z|].
    destruct Hd as [Hd|Hd]; [digit_case Hd e 11%Z|].
    destruct Hd as [Hd|Hd]; [digit_case Hd e 12%Z|].
    destruct Hd as [Hd|Hd]; [digit_case Hd e 13%Z|].
    destruct Hd as [Hd|Hd]; [digit_case Hd e 14%Z|].
    destruct Hd as [Hd|Hd]; [digit_case Hd e 15%Z|].
    destruct Hd as [Hd|Hd]; [digit_case Hd e 16%Z|].
    destruct Hd as [Hd|Hd]; [digit_case Hd e 17%Z|].
    destruct Hd as [Hd|Hd]; [digit_case Hd e 18%Z|].
    destruct Hd as [Hd|Hd]; [digit_case Hd e 19%Z|].
    destruct Hd as [Hd|Hd]; [digit_case Hd e 20%Z|].
    destruct Hd as [Hd|Hd]; [digit_case Hd e 21%Z|].
    destruct Hd as [Hd|Hd]; [digit_case Hd e 22%Z|].
    destruct Hd as [Hd|Hd]; [digit_case Hd e 23%Z|].
    destruct Hd.
Qed.

Lemma filter_filter_andb {A} (p q : A -> bool) (l : list A) :
  List.filter q (List.filter p l) = List.filter (fun x => p x && q x) l.
Proof.
  induction l as [|x l IH]; [done|]. cbn [List.filter].
  destruct (p x); cbn [List.filter andb]; [|done].
  destruct (q x); by rewrite IH.
Qed.

(** Without a variation the jet mask of [process] is the cut of the
    query: multiplying a single precision pT by 1.0 in double precision
    does not move it across 25. *)
Lemma nominal_selected_jets (e : Event) :
  single_precision_pt e ->
  selected_jets e (scalar f64_1)
  = List.filter (fun j => fgt (pt j) f32_25) (Jet e).
Proof.
  unfold single_precision_pt, selected_jets, jet_filter. cbn [bmul].
  rewrite <-!list_fmap_compose, mask_select_self. unfold compose.
  induction 1 as [|j js Hj _ IH]; [done|]. cbn [List.filter].
  by rewrite IH, (f64_mul_one_cut _ Hj).
Qed.

Lemma tagged_count_zip (jets : list Jet_t) :
  length (List.filter
            (fun jet : float * float => fge jet.2 f32_0_5 && fgt jet.1 f32_25)
            (zip (pt <$> jets) (btagCSVV2 <$> jets)))
  = count_true ((fun j => fge (btagCSVV2 j) B_TAG_THRESHOLD)
                  <$> List.filter (fun j => fgt (pt j) f32_25) jets).
Proof.
  rewrite count_true_fmap, filter_filter_andb. unfold B_TAG_THRESHOLD.
  induction jets as [|j jets IH]; [done|].
  rewrite !fmap_cons.
  change (zip (pt j :: (pt <$> jets)) (btagCSVV2 j :: (btagCSVV2 <$> jets)))
    with ((pt j, btagCSVV2 j) :: zip (pt <$> jets) (btagCSVV2 <$> jets)).
  cbn [List.filter fst snd].
  destruct (fge (btagCSVV2 j) f32_0_5), (fgt (pt j) f32_25);
    cbn [andb length]; by rewrite IH.
Qed.

Lemma query_where_event_filter (e : Event) :
  single_precision_pt e ->
  where_one_lepton e && where_four_jets e && where_one_btag e
  = event_filter pt_nominal e (scalar f64_1).
Proof.
  intros Hsingle. unfold event_filter.
  rewrite scaled_selected_length, (nominal_selected_jets e Hsingle).
  unfold where_one_lepton, where_four_jets, where_one_btag.
  unfold selected_electrons, selected_muons.
  rewrite !mask_select_self, !length_fmap, !filter_length_fmap.
  by rewrite tagged_count_zip.
Qed.

Section Query.
Context `{Rng}.

(** X10: on events whose jet pT are single precision numbers, the
    ServiceX query keeps exactly the events that the selection mask of
    [process] keeps for the nominal jet pT, in the same order, and
    returns their seven columns: filtering at the query changes nothing
    for the nominal histograms. *)
Theorem get_query_is_nominal_selection (source : list Event) :
  Forall single_precision_pt source ->
  get_query source
  = query_select <$> mask_select source (event_filters source pt_nominal).
Proof.
  intros Hsingle. unfold get_query, query_events. f_equal.
  rewrite !filter_filter_andb. cbv beta.
  unfold event_filters. cbn [events_pt_var].
  assert (zip_with (event_filter pt_nominal) source
                   ((fun _ => scalar f64_1) <$> source)
          = (fun e => event_filter pt_nominal e (scalar f64_1)) <$> source)
    as ->.
  { clear. induction source as [|e l IH]; [done|]. csimpl. by rewrite IH. }
  rewrite mask_select_self.
  induction Hsingle as [|e l He _ IH]; [done|]. cbn [List.filter].
  by rewrite IH, andb_assoc, (query_where_event_filter e He).
Qed.
End Query.

End QueryFacts.

(** ** Branch names and tiers of the I/O-only routine *)

Module IOFacts.
Import FloatEq IOClaims.

Lemma contains_underscore_cons (a : ascii) (s : string) :
  contains "_" (String a s)
  = if Ascii.eqb a "_" then true else contains "_" s.
Proof.
  unfold contains. cbn [String.index String.prefix].
  destruct (ascii_dec "_" a) as [<-|Hne].
  - by destruct s.
  - destruct (Ascii.eqb_spec a "_") as [->|_]; [done|].
    by destruct (String.index 0 "_" s).
Qed.

Lemma split_on_cons (c : ascii) (s : string) :
  exists h t, split_on c s = h :: t.
Proof.
  induction s as [|a s (h & t & IH)]; [by eexists _, _|].
  cbn [split_on]. destruct (Ascii.eqb a c); [by eexists _, _|].
  rewrite IH. by eexists _, _.
Qed.

(** ["_".join(s.split("_")) == s]. *)
Lemma join_split_on (s : string) : join "_" (split_on "_" s) = s.
Proof.
  unfold join. induction s as [|a s IH]; [done|]. cbn [split_on].
  destruct (Ascii.eqb_spec a "_") as [->|_].
  - destruct (split_on_cons "_" s) as (h & t & Hs). rewrite Hs in *.
    cbn [String.concat] in *. by rewrite IH.
  - destruct (split_on_cons "_" s) as (h & t & Hs). rewrite Hs in *.
    destruct t; cbn [String.concat] in *; by rewrite <-IH.
Qed.

(** A name is split at its first underscore. *)
Lemma split_on_first (o p : string) :
  contains "_" o = false ->
  split_on "_" (o ++ String "_" p) = o :: split_on "_" p.
Proof.
  induction o as [|a o IH]; intros Ho; [done|].
  rewrite contains_underscore_cons in Ho.
  change (String a o +:+ String "_" p) with (String a (o +:+ String "_" p)).
  cbn [split_on]. destruct (Ascii.eqb a "_"); [done|]. by rewrite IH.
Qed.

Lemma contains_first (o p : string) :
  contains "_" (o ++ String "_" p) = true.
Proof.
  induction o as [|a o IH].
  - change ("" +:+ String "_" p) with (String "_" p).
    by rewrite contains_underscore_cons.
  - change (String a o +:+ String "_" p) with (String a (o +:+ String "_" p)).
    rewrite contains_underscore_cons. by destruct (Ascii.eqb a "_").
Qed.

(** X11: a branch name is looked up by its collection, the part before
    the first underscore, and its property, everything after it (further
    underscores included); the lookup raises exactly when the file lacks
    that property, and the exception names the two parts. *)
Theorem materialize_splits_at_first_underscore
  (events : gmap string (gmap string column))
  (object_type property_name : string) :
  contains "_" object_type = false ->
  materialize events (object_type ++ String "_" property_name)
  = match events !! object_type ≫= (fun o => o !! property_name) with
    | Some _ => Return tt
    | None => Raise (FieldNotFound object_type property_name)
    end.
Proof.
  intros Ho. unfold materialize.
  rewrite contains_first, (split_on_first _ _ Ho).
  cbn [hd tl]. by rewrite join_split_on.
Qed.

Lemma supported_tier_cases (p : float) :
  py_in p supported_tiers = true ->
  p = f64_2_7 \/ p = f64_4 \/ p = f64_15 \/ p = f64_25 \/ p = f64_50.
Proof.
  unfold py_in, supported_tiers. cbn [existsb].
  rewrite !orb_true_iff. intros [H|[H|[H|[H|[H|H]]]]];
    try (apply feq_finite in H); auto 6. done.
Qed.

Lemma materialize_all_prefix (events : gmap string (gmap string column))
  (small large : list string) :
  small `prefix_of` large ->
  materialize_all events large = Return tt ->
  materialize_all events small = Return tt.
Proof.
  intros [rest ->]. induction small as [|b bs IH]; [done|].
  cbn [app materialize_all]. by destruct (materialize events b) as [[]|].
Qed.

(** X12: the tiers are nested.  For two supported percentages the
    branch list of the smaller one is the beginning of the list of the
    larger one, no tier reads a branch twice, and a file on which the
    routine returns for a tier serves every smaller tier. *)
Theorem tiers_are_nested (p q : float)
  (events : gmap string (gmap string column)) :
  py_in p supported_tiers = true -> py_in q supported_tiers = true ->
  fge q p = true ->
  branches_to_read p `prefix_of` branches_to_read q
  /\ NoDup (branches_to_read q)
  /\ (only_do_IO q events = Return empty_hist_output ->
      only_do_IO p events = Return empty_hist_output).
Proof.
  intros Hp Hq Hge.
  assert (branches_to_read p `prefix_of` branches_to_read q) as Hpre.
  { apply supported_tier_cases in Hp, Hq.
    destruct Hp as [->|[->|[->|[->| ->]]]];
      destruct Hq as [->|[->|[->|[->| ->]]]];
      try (by vm_compute in Hge);
      apply (bool_decide_unpack _); vm_compute; exact I. }
  split_and!; [done| |].
  - apply supported_tier_cases in Hq.
    destruct Hq as [->|[->|[->|[->| ->]]]];
      apply (bool_decide_unpack _); vm_compute; exact I.
  - unfold only_do_IO. rewrite Hp, Hq. cbn [negb].
    destruct (materialize_all events (branches_to_read q)) as [[]|] eqn:Hall;
      [|done].
    intros _. by rewrite (materialize_all_prefix _ _ _ Hpre Hall).
Qed.

End IOFacts.

(** ** The branch lists computed by [GetIOBranches] *)

Module IOBranchFacts.
Import FloatFacts FloatEq FeatureEq.

Lemma fge_trans (a b c : float) :
  fge a b = true -> fge b c = true -> fge a c = true.
Proof.
  rewrite !fge_spec. intros (? & ? & Hab) (? & ? & Hbc).
  split_and!; try done.
  destruct Hab as [Hab|Hab], Hbc as [Hbc|Hbc].
  - left. by eapply key_lt_trans.
  - left. by rewrite Hbc.
  - left. by rewrite <-Hab.
  - right. congruence.
Qed.

Lemma running_sum_S (start value : float) (values : list float) (n : nat) :
  running_sum start (value :: values) (S n)
  = running_sum (f64_add start value) values n.
Proof. reflexivity. Qed.

Lemma select_branches_prefix (percent start : float)
  (branches : list (string * float)) :
  select_branches percent start branches `prefix_of` branches.*1.
Proof.
  revert start. induction branches as [|[key value] rest IH]; intros start;
    [done|].
  cbn [select_branches]. rewrite fmap_cons. cbn [fst].
  destruct (fge (f64_mul f64_100 (f64_add start value)) percent);
    [by apply prefix_cons, prefix_nil|by apply prefix_cons].
Qed.

(** X13: the list computed for one percentage is a beginning of the
    sorted branch names; it is not empty when there are branches; the
    running sum (times 100) stays below the percentage before its last
    branch; and when it stops before the end, the running sum has reached
    the percentage.  When the sum of all ratios never reaches the
    percentage, every branch is listed. *)
Theorem select_branches_threshold (percent start : float)
  (branches : list (string * float)) :
  select_branches percent start branches `prefix_of` branches.*1
  /\ (branches <> [] -> select_branches percent start branches <> [])
  /\ (forall n,
        0 < n < length (select_branches percent start branches) ->
        fge (f64_mul f64_100 (running_sum start (branches.*2) n)) percent
        = false)
  /\ (length (select_branches percent start branches) < length branches ->
      fge (f64_mul f64_100
             (running_sum start (branches.*2)
                (length (select_branches percent start branches))))
          percent = true).
Proof.
  revert start. induction branches as [|[key value] rest IH]; intros start.
  { cbn [select_branches length]. split_and!; [done|done|lia..]. }
  cbn [select_branches]. rewrite !fmap_cons. cbn [fst snd].
  destruct (fge (f64_mul f64_100 (f64_add start value)) percent) eqn:Hge.
  - cbn [length]. split_and!; [by apply prefix_cons, prefix_nil|done|lia|].
    intros _. by rewrite running_sum_S.
  - destruct (IH (f64_add start value)) as (Hpre & _ & Hbelow & Hstop).
    cbn [length]. split_and!; [by apply prefix_cons|done| |].
    + intros [|n] Hn; [lia|]. rewrite running_sum_S.
      destruct n as [|n]; [done|]. apply Hbelow. lia.
    + intros Hlen. rewrite running_sum_S. apply Hstop. lia.
Qed.

Lemma select_branches_mono (p q start : float)
  (branches : list (string * float)) :
  fge q p = true ->
  select_branches p start branches `prefix_of`
    select_branches q start branches.
Proof.
  intros Hqp. revert start.
  induction branches as [|[key value] rest IH]; intros start; [done|].
  cbn [select_branches].
  destruct (fge (f64_mul f64_100 (f64_add start value)) q) eqn:Hq.
  - by rewrite (fge_trans _ _ _ Hq Hqp).
  - destruct (fge (f64_mul f64_100 (f64_add start value)) p);
      [by apply prefix_cons, prefix_nil|].
    by apply prefix_cons.
Qed.

Lemma dict_get_set_eq {V} (d : list (float * V)) (k : float) (v : V) :
  feq k k = true -> dict_get (dict_set d k v) k = Some v.
Proof.
  intros Hk. induction d as [|[k' v'] d IH]; cbn [dict_set dict_get].
  - by rewrite Hk.
  - destruct (feq k' k) eqn:Hk'; cbn [dict_get]; by rewrite Hk'.
Qed.

Lemma dict_get_set_ne {V} (d : list (float * V)) (k k2 : float) (v : V) :
  (forall k', feq k' k = true -> feq k' k2 = false) ->
  feq k k2 = false ->
  dict_get (dict_set d k v) k2 = dict_get d k2.
Proof.
  intros Hne Hk. induction d as [|[k' v'] d IH]; cbn [dict_set dict_get].
  - by rewrite Hk.
  - destruct (feq k' k) eqn:Hk'; cbn [dict_get].
    + by rewrite (Hne k' Hk').
    + destruct (feq k' k2); [done|apply IH].
Qed.

Lemma Forall2_Permutation_l {A B} (R : A -> B -> Prop)
  (l l' : list A) (k : list B) :
  Permutation l l' -> Forall2 R l k ->
  exists k', Forall2 R l' k' /\ Permutation k k'.
Proof.
  intros Hp. revert k.
  induction Hp as [|x l l' _ IH|x y l|l l' l'' _ IH1 _ IH2]; intros k Hk.
  - apply Forall2_nil_inv_l in Hk as ->. by exists [].
  - apply Forall2_cons_inv_l in Hk as (z & k0 & Hz & Hk0 & ->).
    destruct (IH k0 Hk0) as (k0' & Hk0' & Hperm).
    exists (z :: k0'). split; [by constructor|by constructor].
  - apply Forall2_cons_inv_l in Hk as (z1 & k1 & Hz1 & Hk1 & ->).
    apply Forall2_cons_inv_l in Hk1 as (z2 & k2 & Hz2 & Hk2 & ->).
    exists (z2 :: z1 :: k2). split; [by repeat constructor|apply perm_swap].
  - destruct (IH1 k Hk) as (k' & Hk' & Hp1).
    destruct (IH2 k' Hk') as (k'' & Hk'' & Hp2).
    exists k''. split; [done|by etrans].
Qed.

(** Indexing with the positions of an array, in any order, gives its
    entries in that order. *)
Lemma np_take_positions {A} (xs : list A) (idx : list nat) :
  Permutation idx (seq 0 (length xs)) ->
  exists ys, np_take xs idx = Some ys /\ Permutation ys xs.
Proof.
  intros Hp. unfold np_take.
  assert (Forall2 (fun i y => xs !! i = Some y) (seq 0 (length xs)) xs)
    as Hall.
  { apply Forall2_same_length_lookup_2; [by rewrite length_seq|].
    intros i j y Hj Hy. apply lookup_seq in Hj as [-> _]. done. }
  symmetry in Hp.
  destruct (Forall2_Permutation_l _ _ _ _ Hp Hall) as (ys & Hys & Hperm).
  exists ys. split; [by apply mapM_Some_2|done].
Qed.

Section Main.
Context `{Numpy}.

(** X14: [main] returns exactly when the two files hold JSON objects,
    the configuration has an object under "benchmarking", and one of
    the original branches is among the ratios (without one, the first
    key of the dictionary is a numpy integer, on which [json.dump]
    raises).  The object written is the configuration with the
    dictionary under "IO_BRANCHES" of its "benchmarking" object and
    nothing else changed.  In the dictionary, the entries of 15, 25 and
    50 percent are always present, each list is a beginning of the next
    and of the branch names sorted by ratio, which are the branches of
    the file in another order, and the entry of the original branches
    is present under its rounded percentage unless that percentage is
    exactly 15, 25 or 50, whose entry then replaces it. *)
Theorem main_tiers (ratio_json : option (list (string * float)))
  (config_json : option (gmap string json_section)) :
  (is_Some (main ratio_json config_json)
   <-> exists branch_ratios config fields,
         ratio_json = Some branch_ratios /\ config_json = Some config
         /\ config !! "benchmarking" = Some (json_object fields)
         /\ has_original branch_ratios = true)
  /\ forall written, main ratio_json config_json = Some written ->
       exists branch_ratios config fields d keys l15 l25 l50,
         ratio_json = Some branch_ratios /\ config_json = Some config
         /\ config !! "benchmarking" = Some (json_object fields)
         /\ written
            = <["benchmarking" :=
                  json_object (<["IO_BRANCHES" := json_branches d]> fields)]>
                config
         /\ np_take (branch_ratios.*1) (np_argsort (branch_ratios.*2))
            = Some keys
         /\ Permutation keys (branch_ratios.*1)
         /\ dict_get d f64_15 = Some l15
         /\ dict_get d f64_25 = Some l25
         /\ dict_get d f64_50 = Some l50
         /\ l15 `prefix_of` l25 /\ l25 `prefix_of` l50
         /\ l50 `prefix_of` keys
         /\ let key := np_round
                         (f64_mul f64_100 (original_sum branch_ratios)) 1 in
            (feq key key = true -> feq key f64_15 = false ->
             feq key f64_25 = false -> feq key f64_50 = false ->
             dict_get d key = Some agc_original_branches)
            /\ (feq key f64_15 = true -> dict_get d key = Some l15)
            /\ (feq key f64_25 = true -> dict_get d key = Some l25)
            /\ (feq key f64_50 = true -> dict_get d key = Some l50).
Proof.
  unfold main.
  destruct ratio_json as [branch_ratios|]; rewrite ?bind_Some, ?bind_None.
  2:{ split; [|done]. split; [by intros [? ?]|].
      by intros (? & ? & ? & ? & _). }
  destruct (np_take_positions (branch_ratios.*1)
              (np_argsort (branch_ratios.*2))) as (keys & Hkeys & Hperm).
  { rewrite length_fmap, <-(length_fmap snd). apply np_argsort_positions. }
  destruct (np_take_positions (branch_ratios.*2)
              (np_argsort (branch_ratios.*2))) as (values & Hvalues & _).
  { apply np_argsort_positions. }
  rewrite Hkeys, Hvalues, !bind_Some.
  destruct config_json as [config|]; rewrite ?bind_Some, ?bind_None.
  2:{ split; [|done]. split; [by intros [? ?]|].
      by intros (? & ? & ? & _ & ? & _). }
  destruct (config !! "benchmarking") as [[fields|text]|] eqn:Hbench;
    rewrite ?bind_Some, ?bind_None.
  2:{ split; [|done]. split; [by intros [? ?]|].
      intros (? & ? & ? & _ & [= <-] & Hb & _). by rewrite Hbench in Hb. }
  2:{ split; [|done]. split; [by intros [? ?]|].
      intros (? & ? & ? & _ & [= <-] & Hb & _). by rewrite Hbench in Hb. }
  case_guard as Horig.
  2:{ split; [|done]. split; [by intros [? ?]|].
      by intros (? & ? & ? & [= <-] & _ & _ & ?). }
  split.
  { split; [intros _|by eexists]. by exists branch_ratios, config, fields. }
  intros written.
  remember (np_round (f64_mul f64_100 (original_sum branch_ratios)) 1)
    as key eqn:Hkey.
  remember (dict_set [] key agc_original_branches) as d0 eqn:Hd0.
  set (branches := zip keys values).
  unfold desired_percents.
  change (foldl ?f d0 [f64_15; f64_25; f64_50])
    with (f (f (f d0 f64_15) f64_25) f64_50).
  cbv beta. intros [= <-].
  exists branch_ratios, config, fields,
    (dict_set (dict_set (dict_set d0 f64_15
       (select_branches f64_15 f64_0 branches)) f64_25
       (select_branches f64_25 f64_0 branches)) f64_50
       (select_branches f64_50 f64_0 branches)),
    keys, (select_branches f64_15 f64_0 branches),
    (select_branches f64_25 f64_0 branches),
    (select_branches f64_50 f64_0 branches).
  assert (forall c k : float, (exists s m e, c = S754_finite s m e) ->
            feq k c = false ->
            feq c k = false
            /\ forall k', feq k' c = true -> feq k' k = false) as Hne.
  { intros c k (s & m & e & ->) Hkc.
    assert (feq (S754_finite s m e) k = false) as Hck.
    { destruct (feq (S754_finite s m e) k) eqn:Hck; [|done].
      apply feq_finite_l in Hck as ->.
      by rewrite feq_finite_refl in Hkc. }
    split; [done|]. by intros k' ->%feq_finite. }
  assert (dict_get (dict_set (dict_set (dict_set d0 f64_15
              (select_branches f64_15 f64_0 branches)) f64_25
              (select_branches f64_25 f64_0 branches)) f64_50
              (select_branches f64_50 f64_0 branches)) f64_15
          = Some (select_branches f64_15 f64_0 branches)) as H15.
  { rewrite (dict_get_set_ne _ f64_50 f64_15),
      (dict_get_set_ne _ f64_25 f64_15), dict_get_set_eq; try done;
      apply Hne; try done; by eexists _, _, _. }
  assert (dict_get (dict_set (dict_set (dict_set d0 f64_15
              (select_branches f64_15 f64_0 branches)) f64_25
              (select_branches f64_25 f64_0 branches)) f64_50
              (select_branches f64_50 f64_0 branches)) f64_25
          = Some (select_branches f64_25 f64_0 branches)) as H25.
  { rewrite (dict_get_set_ne _ f64_50 f64_25), dict_get_set_eq; try done;
      apply Hne; try done; by eexists _, _, _. }
  assert (dict_get (dict_set (dict_set (dict_set d0 f64_15
              (select_branches f64_15 f64_0 branches)) f64_25
              (select_branches f64_25 f64_0 branches)) f64_50
              (select_branches f64_50 f64_0 branches)) f64_50
          = Some (select_branches f64_50 f64_0 branches)) as H50.
  { by rewrite dict_get_set_eq. }
  cbv zeta. rewrite <-Hkey.
  split_and!; [done|done|done|done|done|done|done|done|done|..].
  + by apply select_branches_mono.
  + by apply select_branches_mono.
  + etrans; [apply select_branches_prefix|].
    unfold branches. apply length_mapM in Hkeys, Hvalues.
    rewrite fst_zip by lia. done.
  + intros Hkk Hk15 Hk25 Hk50.
    destruct (Hne f64_15 key) as [? ?]; [by eexists _, _, _|done|].
    destruct (Hne f64_25 key) as [? ?]; [by eexists _, _, _|done|].
    destruct (Hne f64_50 key) as [? ?]; [by eexists _, _, _|done|].
    rewrite (dict_get_set_ne _ f64_50 key), (dict_get_set_ne _ f64_25 key),
      (dict_get_set_ne _ f64_15 key) by done.
    rewrite Hd0. by apply dict_get_set_eq.
  + intros Hk. apply feq_finite in Hk. by rewrite Hk.
  + intros Hk. apply feq_finite in Hk. by rewrite Hk.
  + intros Hk. apply feq_finite in Hk. by rewrite Hk.
Qed.
End Main.

End IOBranchFacts.

(** ** The HT observable and the events between the regions *)

Module ObservableRows.
Import FloatFacts ArrayFacts SelectionFacts ParityFacts RegionFacts.

(** The varied pT of the selected jets are the varied pT that pass the
    cut: the per-jet factors stay aligned with their jets. *)
Lemma bmul_selected (v : pt_var) (e : Event) (m : modifier) :
  match m with scalar _ => True | per_jet _ => has_res v = true end ->
  bmul (pt <$> selected_jets e m) (pt_var_modifier v e m)
  = List.filter (fun y => fgt y f64_25) (bmul (pt <$> Jet e) m).
Proof.
  unfold selected_jets, pt_var_modifier, jet_filter.
  destruct m as [x|xs]; intros Hv.
  - assert ((if negb (has_res v) then scalar x
             else modifier_select (scalar x)
                    ((fun y => fgt y f64_25)
                       <$> bmul (pt <$> Jet e) (scalar x))) = scalar x)
      as -> by (by destruct (negb (has_res v))).
    cbn [bmul]. induction (Jet e) as [|j js IH]; [done|].
    rewrite !fmap_cons, mask_select_cons. cbn [List.filter].
    destruct (fgt (f64_mul (pt j) x) f64_25); [rewrite !fmap_cons|];
      by rewrite IH.
  - rewrite Hv. cbn [negb modifier_select bmul].
    revert xs. induction (Jet e) as [|j js IH]; intros [|x xs]; try done.
    rewrite !fmap_cons. cbn [zip_with]. rewrite fmap_cons, !mask_select_cons.
    cbn [List.filter].
    destruct (fgt (f64_mul (pt j) x) f64_25);
      [rewrite fmap_cons; cbn [zip_with]|]; by rewrite IH.
Qed.

Lemma count_true_gap {A} (p q : A -> bool) (xs : list A) :
  count_true (p <$> xs) < count_true (q <$> xs) ->
  exists x, x ∈ xs /\ q x = true /\ p x = false.
Proof.
  rewrite !count_true_fmap.
  induction xs as [|x xs IH]; cbn [List.filter length]; [lia|].
  destruct (p x) eqn:Hp, (q x) eqn:Hq; cbn [length]; intros Hlt.
  - destruct IH as (y & ? & ? & ?); [lia|].
    exists y. split; [by apply list_elem_of_further|done].
  - destruct IH as (y & ? & ? & ?); [lia|].
    exists y. split; [by apply list_elem_of_further|done].
  - exists x. split; [apply list_elem_of_here|done].
  - destruct IH as (y & ? & ? & ?); [lia|].
    exists y. split; [by apply list_elem_of_further|done].
Qed.

Section Batch.
Context `{Rng}.
Variables (events : list Event) (v : pt_var).

Lemma batch_modifier (x : nat * (Event * modifier)) :
  x ∈ batch_rows events v ->
  match x.2.2 with scalar _ => True | per_jet _ => has_res v = true end.
Proof.
  intros [He Hm]%rows_lookup. destruct v; cbn [events_pt_var] in Hm.
  - rewrite list_lookup_fmap, He in Hm. by injection Hm as <-.
  - rewrite list_lookup_fmap, He in Hm. by injection Hm as <-.
  - by destruct (x.2.2).
Qed.

(** X15: HT of an event of a region is the sum, in jet order, of the
    varied pT values of the event that exceed 25: for the resolution
    variation, whose factors differ from jet to jet, every selected jet
    is multiplied by its own factor. *)
Theorem HT_sums_passing_jets (r : region) :
  HT_observable events v r
  = (fun x : nat * (Event * modifier) =>
       Some (ak_sum (List.filter (fun y => fgt y f64_25)
                                 (bmul (pt <$> Jet x.2.1) x.2.2))))
      <$> region_rows events v r.
Proof.
  unfold HT_observable.
  rewrite selected_jets_region_rows, pt_var_modifier_region_rows.
  rewrite zip_with_fmap_l, zip_with_fmap_r, zip_with_diag.
  apply Forall_fmap_ext, Forall_forall. intros x Hx%list_elem_of_In.
  unfold region_rows in Hx.
  apply list_elem_of_In, filter_In in Hx as [Hx _].
  apply filter_In in Hx as [Hx _]. apply list_elem_of_In in Hx.
  unfold row_jets. by rewrite (bmul_selected v _ _ (batch_modifier x Hx)).
Qed.

(** X16: the two regions do not cover the selection.  A selected event
    is in neither region exactly when at least two of its selected jets
    have a b-tag score at or above the threshold and at most one is
    strictly above it; such an event has a selected jet whose score is
    exactly at the threshold. *)
Theorem selected_event_outside_regions (i : nat) (e : Event) (m : modifier) :
  events !! i = Some e -> events_pt_var events v !! i = Some m ->
  event_filter v e m = true ->
  (((i ∉ region_indices events v R4j1b) /\ (i ∉ region_indices events v R4j2b))
   <-> 2 <= count_true ((fun j => fge (btagCSVV2 j) B_TAG_THRESHOLD)
                          <$> selected_jets e m)
       /\ count_true ((fun j => fgt (btagCSVV2 j) B_TAG_THRESHOLD)
                        <$> selected_jets e m) <= 1)
  /\ (i ∉ region_indices events v R4j1b ->
      i ∉ region_indices events v R4j2b ->
      exists j, j ∈ selected_jets e m
        /\ fge (btagCSVV2 j) B_TAG_THRESHOLD = true
        /\ fgt (btagCSVV2 j) B_TAG_THRESHOLD = false).
Proof.
  intros He Hm Hsel.
  assert (forall r, i ∈ region_indices events v r
                    <-> region_filter r (selected_jets e m) = true) as Hin.
  { intros r. rewrite region_indices_spec. split.
    - intros (e' & m' & He' & Hm' & _ & Hr). by simplify_eq.
    - intros Hr. by exists e, m. }
  assert (1 <= count_true ((fun j => fge (btagCSVV2 j) B_TAG_THRESHOLD)
                             <$> selected_jets e m)) as Hone.
  { unfold event_filter in Hsel. rewrite !andb_true_iff in Hsel.
    destruct Hsel as [_ Htag]. by apply Nat.leb_le in Htag. }
  assert (((i ∉ region_indices events v R4j1b)
           /\ (i ∉ region_indices events v R4j2b))
          <-> 2 <= count_true ((fun j => fge (btagCSVV2 j) B_TAG_THRESHOLD)
                                 <$> selected_jets e m)
              /\ count_true ((fun j => fgt (btagCSVV2 j) B_TAG_THRESHOLD)
                               <$> selected_jets e m) <= 1) as Hiff.
  { rewrite !Hin. cbn [region_filter].
    rewrite Nat.eqb_eq, Nat.leb_le. lia. }
  split; [exact Hiff|]. intros H1 H2.
  destruct (proj1 Hiff (conj H1 H2)) as [Hge Hgt].
  apply count_true_gap. lia.
Qed.
End Batch.

End ObservableRows.

(** ** The objects behind the feature rows, and the counters *)

Module CompositionFacts.
Import FloatFacts ArrayFacts SelectionFacts FeatureFacts FeatureEq
       FeatureRows FeatureTotal FeatureClaims InferenceFacts ParityFacts
       RegionFacts ProcessFacts.

Lemma concat_singletons {A B} (f : A -> list B) (rows : list A)
  (k : nat) (x : A) (l : B) :
  Forall (fun x => length (f x) = 1) rows ->
  rows !! k = Some x -> concat (f <$> rows) !! k = Some l -> f x = [l].
Proof.
  intros Hone. revert k.
  induction Hone as [|y rows Hy _ IH]; intros k Hk Hl; [done|].
  rewrite fmap_cons in Hl. cbn [concat] in Hl.
  destruct (f y) as [|b [|? ?]] eqn:Hfy; try done.
  destruct k as [|k]; cbn [app] in Hl.
  - injection Hk as <-. injection Hl as <-. done.
  - by apply (IH k).
Qed.

Section Region.
Context `{Kinematics} `{Rng}.
Variables (permutations_dict : gmap nat (list perm)).
Variables (events : list Event) (v : pt_var).

(** X17: the feature rows of an event of region 4j2b are built from the
    objects of that same event: its selected jets, and the one lepton
    the event was selected for.  The lepton column, flattened over the
    events of the region, stays aligned with the events. *)
Theorem region_features_use_own_objects
  (features : ndarray) (perm_counts : list nat) :
  get_features (selected_jets_region events v R4j2b)
               (selected_electrons_region events v R4j2b)
               (selected_muons_region events v R4j2b) permutations_dict
    = Some (features, perm_counts) ->
  forall k i e m,
    region_indices events v R4j2b !! k = Some i ->
    events !! i = Some e -> events_pt_var events v !! i = Some m ->
    exists l ps ck,
      selected_electrons e ++ selected_muons e = [l]
      /\ event_perms permutations_dict (selected_jets e m) = Some ps
      /\ mapM (pick (selected_jets e m) l) ps = Some ck
      /\ perm_counts !! k = Some (length ps)
      /\ unflatten (nd_data features) perm_counts !! k
         = Some (feature_row <$> ck).
Proof.
  intros HF k i e m Hk He Hm.
  rewrite region_indices_rows, list_lookup_fmap in Hk.
  destruct (region_rows events v R4j2b !! k) as [x|] eqn:Hx; [|done].
  injection Hk as Hi.
  pose proof (list_elem_of_lookup_2 _ _ _ Hx) as Hin.
  apply region_rows_inv in Hin as (_ & _ & He').
  pose proof (list_elem_of_lookup_2 _ _ _ Hx) as Hin.
  unfold region_rows in Hin.
  apply list_elem_of_In, filter_In in Hin as [Hin _].
  apply filter_In in Hin as [Hin _].
  apply list_elem_of_In, rows_lookup in Hin as [_ Hm'].
  rewrite Hi in He', Hm'.
  assert (x.2.1 = e) as Hxe by congruence.
  assert (x.2.2 = m) as Hxm by congruence.
  pose proof (get_features_events _ _ _ _ _ _ HF)
    as (_ & _ & _ & _ & _ & _ & Hev).
  destruct (Hev k (selected_jets e m)) as (l & ps & ck & Hl & Hrest).
  { rewrite selected_jets_region_rows, list_lookup_fmap, Hx.
    unfold row_jets. cbn [fmap option_fmap option_map]. by rewrite Hxe, Hxm. }
  exists l, ps, ck. split; [|exact Hrest].
  rewrite selected_electrons_region_rows, selected_muons_region_rows in Hl.
  rewrite zip_with_fmap_l, zip_with_fmap_r, zip_with_diag in Hl.
  rewrite <-Hxe.
  apply (concat_singletons
           (fun x : nat * (Event * modifier) =>
              selected_electrons x.2.1 ++ selected_muons x.2.1)
           (region_rows events v R4j2b) k x l); [|done|done].
  apply Forall_forall. intros y Hy%list_elem_of_In.
  apply region_rows_inv in Hy as (Hp & _ & _).
  by apply row_passes_inv in Hp as (Hone & _ & _).
Qed.
End Region.

Section Counters.
Context `{Kinematics} `{Rng} `{Classifier}.
Variables (use_triton : bool) (permutations_dict : gmap nat (list perm)).
Variables (process_name variation : string).
Variables (events : list Event).

(** X18: the counters of the output.  They exist exactly when [process]
    returns; [nevents] is the size of the batch; [nevents_reduced] is
    the number of events of region 4j2b for the last jet-pT variation of
    the loop (the resolution variation for a nominal sample, the nominal
    jet pT otherwise), not the number of selected events, and it never
    exceeds [nevents]; [training_entries] is the number of feature rows
    of those events. *)
Theorem process_counters_meaning :
  (is_Some (process_counters use_triton permutations_dict process_name
                             variation events)
   <-> is_Some (process use_triton permutations_dict process_name
                        variation events))
  /\ last_pt_var variation
     = (if String.eqb variation "nominal" then pt_res_up else pt_nominal)
  /\ forall c,
       process_counters use_triton permutations_dict process_name
                        variation events = Some c ->
       nevents c = length events
       /\ nevents_reduced c
          = length (region_indices events (last_pt_var variation) R4j2b)
       /\ nevents_reduced c <= nevents c
       /\ exists features perm_counts,
            get_features
              (selected_jets_region events (last_pt_var variation) R4j2b)
              (selected_electrons_region events (last_pt_var variation)
                                         R4j2b)
              (selected_muons_region events (last_pt_var variation) R4j2b)
              permutations_dict = Some (features, perm_counts)
            /\ training_entries c = sum_list perm_counts
            /\ training_entries c = length (nd_data features)
            /\ length perm_counts = nevents_reduced c.
Proof.
  assert (last_pt_var variation
          = (if String.eqb variation "nominal" then pt_res_up
             else pt_nominal)) as Hlast.
  { unfold last_pt_var, pt_variations.
    by destruct (String.eqb variation "nominal"). }
  assert (length (region_indices events (last_pt_var variation) R4j2b)
          = length (selected_jets_region events (last_pt_var variation)
                                         R4j2b)) as Hidx.
  { by rewrite region_indices_rows, selected_jets_region_rows, !length_fmap. }
  assert (length (region_indices events (last_pt_var variation) R4j2b)
          <= length events) as Hle.
  { rewrite region_indices_rows, length_fmap. unfold region_rows.
    etrans; [apply List.filter_length_le|]. etrans; [apply List.filter_length_le|].
    by rewrite batch_rows_length. }
  split_and!; [|exact Hlast|].
  - unfold process_counters.
    destruct (process _ _ _ _ _) as [fs|] eqn:Hp;
      [|split; by intros [? ?]].
    rewrite bind_Some. split; [by eexists|intros _].
    apply process_groups in Hp as (_ & groups & _ & Hg).
    assert ((last_pt_var variation, R4j2b)
            ∈ (v ← pt_variations variation; r ← [R4j1b; R4j2b]; [(v, r)]))
      as Hin.
    { rewrite Hlast. unfold pt_variations.
      destruct (String.eqb variation "nominal"); cbn; set_solver. }
    apply list_elem_of_lookup in Hin as [n Hn].
    destruct (Forall2_lookup_l _ _ _ _ _ Hg Hn)
      as (group & _ & obs & ml & Hobs & _).
    cbn [fst snd] in Hobs. rewrite Hobs.
    cbn [region_observables] in Hobs.
    destruct (get_features _ _ _ _) as [[F counts]|]; [|done].
    rewrite !bind_Some. by eexists.
  - intros c. unfold process_counters.
    destruct (process _ _ _ _ _) as [fs|]; [|done]. rewrite bind_Some.
    destruct (get_features _ _ _ _) as [[F counts]|] eqn:HF; [|done].
    rewrite bind_Some. cbv beta iota.
    destruct (region_observables _ _ _ _) as [[obs ml]|] eqn:Hobs; [|done].
    rewrite bind_Some. cbv beta iota. intros [= <-].
    cbn [nevents training_entries nevents_reduced].
    apply region_observables_lengths in Hobs as [Hobs _].
    pose proof (get_features_events _ _ _ _ _ _ HF)
      as (_ & Hshape & Hdata & _ & Hcounts & _).
    split_and!; [done|lia|lia|].
    exists F, counts. rewrite Hshape. cbn [fst].
    split_and!; [done|done|lia|lia].
Qed.
End Counters.

End CompositionFacts.

(** ** The further properties on concrete inputs *)

Module MoreWitnesses.
Import ResolutionFacts WeightFacts TrijetFacts DomainFacts ProcessFacts
       ObservableFacts QueryFacts IOFacts IOBranchFacts ObservableRows
       CompositionFacts.

Lemma example_resolution_shape :
  length <$> @jet_pt_resolution example_rng example_jet_pts
  = length <$> example_jet_pts
  /\ length (bmul (pt <$> Jet example_event_7) example_resolution)
     = length (Jet example_event_7)
  /\ length (jet_filter example_event_7 example_resolution)
     = length (Jet example_event_7).
Proof.
  destruct (@jet_pt_resolution_shape example_rng example_jet_pts
              example_events pt_res_up) as [Hshape Hev].
  split; [exact Hshape|].
  exact (Hev 0 example_event_7 example_resolution eq_refl eq_refl).
Defined.

Lemma example_btag_weights :
  is_Some (btag_weight_variation 1 example_jet_pts)
  /\ exists variation,
       @btag_region_weights example_rng example_events pt_nominal R4j2b
         (@trijet_mass example_kinematics
            <$> @selected_jets_region example_rng example_events pt_nominal
                                      R4j2b) 3 1
       = Some variation
       /\ match variation with
          | per_event factors =>
              length factors
              = length (@trijet_mass example_kinematics
                          <$> @selected_jets_region example_rng
                                example_events pt_nominal R4j2b)
          | no_events_selected => False
          end.
Proof.
  destruct (@btag_weight_variation_defined example_rng 1 example_jet_pts
              example_events pt_nominal R4j2b [] 0) as (Hiff & _ & _).
  destruct (@btag_weight_variation_defined example_rng 3 example_jet_pts
              example_events pt_nominal R4j2b
              (@trijet_mass example_kinematics
                 <$> @selected_jets_region example_rng example_events
                                           pt_nominal R4j2b) 1)
    as (_ & _ & Hregion).
  split.
  - apply Hiff. split; [discriminate|repeat constructor].
  - destruct Hregion as (variation & Hv & Hm); [lia|lia|reflexivity|].
    exists variation. split; [exact Hv|].
    destruct variation as [factors|]; [exact (proj1 Hm)|discriminate Hm].
Defined.

Lemma example_trijet_defined :
  (is_Some (@trijet_mass example_kinematics example_jets_4)
   <-> btagged_trijets example_jets_4 <> [])
  /\ Forall is_Some
       (@trijet_mass example_kinematics
          <$> @selected_jets_region example_rng example_events pt_nominal
                                    R4j2b).
Proof.
  destruct (@trijet_mass_defined_in_4j2b example_kinematics example_rng
              example_events pt_nominal) as [Hiff Hall].
  split; [exact (Hiff example_jets_4)|].
  apply Hall. repeat constructor.
Defined.

Lemma example_trijet_choice :
  exists c,
    c ∈ combinations3 example_jets_4
    /\ fgt (trijet_max_btag c) B_TAG_THRESHOLD = true
    /\ example_trijet_mass
       = @p4_mass example_kinematics (@trijet_p4 example_kinematics c)
    /\ (no_nan ((fun c => @p4_pt example_kinematics
                            (@trijet_p4 example_kinematics c))
                  <$> btagged_trijets example_jets_4) ->
        forall c', c' ∈ combinations3 example_jets_4 ->
          fgt (trijet_max_btag c') B_TAG_THRESHOLD = true ->
          fge (@p4_pt example_kinematics (@trijet_p4 example_kinematics c))
              (@p4_pt example_kinematics (@trijet_p4 example_kinematics c'))
          = true).
Proof.
  exact (@trijet_mass_is_leading_tagged example_kinematics example_jets_4
           example_trijet_mass eq_refl).
Defined.


Lemma example_table_covers : table_covers example_dict.
Proof.
  exists 5. split; [reflexivity|]. split; [lia|]. intros n Hn.
  assert (n = 4 \/ n = 5) as [-> | ->] by lia.
  - exists [mkPerm 0 1 2 3; mkPerm 0 1 3 2; mkPerm 2 3 0 1].
    split; [reflexivity|]. split; [discriminate|repeat constructor].
  - exists [mkPerm 0 1 2 4; mkPerm 4 3 2 1].
    split; [reflexivity|]. split; [discriminate|repeat constructor].
Qed.

Lemma example_models_return (events : list Event) (v : pt_var) :
  @models_return example_kinematics example_rng example_classifier
                 example_dict events v.
Proof.
  intros F counts _. split; eexists; reflexivity.
Qed.

Lemma example_process_total :
  is_Some (@process example_kinematics example_rng example_classifier
                    false example_dict "ttbar" "nominal" example_events)
  /\ ~ is_Some (@process example_kinematics example_rng example_classifier
                         false example_dict "ttbar" "nominal"
                         example_odd_batch).
Proof.
  split.
  - apply (@process_returns example_kinematics example_rng
             example_classifier example_dict "ttbar" "nominal"
             example_events).
    + exact example_table_covers.
    + repeat constructor.
    + intros v Hv.
      assert (v = pt_nominal \/ v = pt_scale_up \/ v = pt_res_up)
        as [-> | [-> | ->] ].
      { apply elem_of_cons in Hv as [Hv|Hv]; [by left|].
        apply elem_of_cons in Hv as [Hv|Hv]; [by right; left|].
        apply elem_of_cons in Hv as [Hv|Hv]; [by right; right|].
        by apply elem_of_nil in Hv. }
      all: split; [|split; [|apply example_models_return]];
        apply (bool_decide_unpack _); vm_compute; exact I.
  - intros Hsome.
    assert (Forall (fun e => btag_not_nan (Jet e)) example_odd_batch)
      as Hnan by repeat constructor.
    destruct (proj1 (@process_returns example_kinematics example_rng
                       example_classifier example_dict "ttbar" "nominal"
                       example_odd_batch example_table_covers Hnan)
                    Hsome pt_nominal) as (Ht & _).
    { apply list_elem_of_here. }
    apply (bool_decide_pack _) in Ht. vm_compute in Ht. exact Ht.
Defined.

Lemma example_fill_labels :
  (fun f => (f_region f, f_variation f)) <$> example_fills
  = fill_labels "ttbar" "nominal"
  /\ NoDup (fill_labels "ttbar" "nominal")
  /\ Forall (fun f => f_process f = "ttbar") example_fills.
Proof.
  exact (@process_fill_labels example_kinematics example_rng
           example_classifier example_dict "ttbar" "nominal" example_events
           false example_fills eq_refl).
Defined.

Lemma example_fill_axes :
  exists f r,
    example_fills !! 18 = Some f
    /\ fill_pt_var "nominal" f = pt_scale_up
    /\ f_region f = region_name r
    /\ @region_observables example_kinematics example_rng
         example_classifier example_dict example_events pt_scale_up r
       = Some (f_observable f, f_ml_observable f)
    /\ length (f_observable f)
       = length (@selected_jets_region example_rng example_events
                                       pt_scale_up r)
    /\ length (f_ml_observable f)
       = length (@selected_jets_region example_rng example_events
                                       pt_scale_up r).
Proof.
  destruct (proj2 (@process_fill_axes example_kinematics example_rng
                     example_classifier example_dict "ttbar" "nominal"
                     example_events false example_fills eq_refl)
              (default (mkFill [] [] "" "" "" w_xsec) (example_fills !! 18)))
    as (r & Hr & _ & Hobs & Ho & Hml).
  - apply (list_elem_of_lookup_2 _ 18). reflexivity.
  - exists (default (mkFill [] [] "" "" "" w_xsec) (example_fills !! 18)), r.
    split; [reflexivity|]. split; [reflexivity|]. split; [exact Hr|].
    split; [exact Hobs|]. split; [exact Ho|exact Hml].
Defined.

Lemma example_missing_observable :
  length (best_permutation_observable example_results_sparse
            example_features_sparse example_counts_sparse)
  = length example_jets
  /\ (exists o,
        best_permutation_observable example_results_sparse
          example_features_sparse example_counts_sparse !! 0 = Some o
        /\ (is_Some o <-> 0 < 0))
  /\ (exists o,
        best_permutation_observable example_results_sparse
          example_features_sparse example_counts_sparse !! 1 = Some o
        /\ (is_Some o <-> 0 < 2)).
Proof.
  destruct (@ml_observable_missing_iff example_kinematics example_jets
              example_electrons example_muons example_dict_sparse
              example_features_sparse example_counts_sparse
              example_results_sparse eq_refl eq_refl) as [Hlen Hev].
  split; [exact Hlen|].
  split; [exact (Hev 0 0 eq_refl)|exact (Hev 1 2 eq_refl)].
Defined.

Lemma example_query :
  get_query example_events
  = query_select
      <$> mask_select example_events
            (@event_filters example_rng example_events pt_nominal).
Proof.
  apply (@get_query_is_nominal_selection example_rng example_events).
  repeat constructor.
Defined.

Lemma example_branch_lookup :
  materialize example_file "Jet_btagCSVV2" = Return tt
  /\ materialize example_file "Electron_miniPFRelIso_all"
     = Raise (FieldNotFound "Electron" "miniPFRelIso_all").
Proof.
  split.
  - exact (materialize_splits_at_first_underscore example_file
             "Jet" "btagCSVV2" eq_refl).
  - exact (materialize_splits_at_first_underscore example_file
             "Electron" "miniPFRelIso_all" eq_refl).
Defined.

Lemma example_nested_tiers :
  branches_to_read f64_2_7 `prefix_of` branches_to_read f64_4
  /\ NoDup (branches_to_read f64_4)
  /\ (only_do_IO f64_4 example_file = Return empty_hist_output ->
      only_do_IO f64_2_7 example_file = Return empty_hist_output).
Proof.
  exact (tiers_are_nested f64_2_7 f64_4 example_file
           eq_refl eq_refl eq_refl).
Defined.

Lemma example_threshold :
  select_branches f64_15 f64_0 example_branch_ratios
    `prefix_of` example_branch_ratios.*1
  /\ select_branches f64_15 f64_0 example_branch_ratios <> []
  /\ fge (f64_mul f64_100
            (running_sum f64_0 (example_branch_ratios.*2) 2)) f64_15
     = false
  /\ fge (f64_mul f64_100
            (running_sum f64_0 (example_branch_ratios.*2)
               (length (select_branches f64_15 f64_0
                          example_branch_ratios)))) f64_15
     = true.
Proof.
  destruct (select_branches_threshold f64_15 f64_0 example_branch_ratios)
    as (Hpre & Hne & Hbelow & Hstop).
  split; [exact Hpre|]. split; [apply Hne; discriminate|].
  split; [apply (Hbelow 2); vm_compute; lia|].
  apply Hstop. vm_compute. lia.
Defined.

Lemma example_main :
  @main example_numpy (Some example_branch_ratios) (Some example_config)
  = Some example_config_written
  /\ ~ is_Some (@main example_numpy (Some example_other_ratios)
                      (Some example_config))
  /\ exists d keys l15 l25 l50,
       example_config_written
       = <["benchmarking" :=
             json_object (<["IO_BRANCHES" := json_branches d]> ∅)]>
           example_config
       /\ Permutation keys (example_branch_ratios.*1)
       /\ dict_get d f64_15 = Some l15
       /\ dict_get d f64_25 = Some l25
       /\ dict_get d f64_50 = Some l50
       /\ l15 `prefix_of` l25 /\ l25 `prefix_of` l50
       /\ l50 `prefix_of` keys.
Proof.
  assert (@main example_numpy (Some example_branch_ratios)
                (Some example_config)
          = Some example_config_written) as Hmain.
  { vm_compute. reflexivity. }
  split; [exact Hmain|]. split.
  - intros Hsome.
    apply (proj1 (@main_tiers example_numpy (Some example_other_ratios)
                    (Some example_config))) in Hsome.
    destruct Hsome as (br & cfg & fields & Hbr & _ & _ & Horig).
    injection Hbr as <-. discriminate Horig.
  - destruct (proj2 (@main_tiers example_numpy (Some example_branch_ratios)
                       (Some example_config))
                example_config_written Hmain)
      as (br & cfg & fields & d & keys & l15 & l25 & l50 & Hbr & Hcfg & Hb
          & Hw & Hkeys & Hperm & H15 & H25 & H50 & Hp1 & Hp2 & Hp3 & _).
    injection Hbr as <-. injection Hcfg as <-.
    assert (fields = ∅) as ->.
    { vm_compute in Hb. injection Hb as <-. reflexivity. }
    exists d, keys, l15, l25, l50.
    split; [exact Hw|]. split; [exact Hperm|]. split; [exact H15|].
    split; [exact H25|]. split; [exact H50|]. split; [exact Hp1|].
    split; [exact Hp2|exact Hp3].
Defined.

Lemma example_between_regions :
  ((0 ∉ @region_indices example_rng [example_event_11] pt_nominal R4j1b)
   /\ (0 ∉ @region_indices example_rng [example_event_11] pt_nominal R4j2b))
  /\ exists j, j ∈ selected_jets example_event_11 (scalar f64_1)
       /\ fge (btagCSVV2 j) B_TAG_THRESHOLD = true
       /\ fgt (btagCSVV2 j) B_TAG_THRESHOLD = false.
Proof.
  destruct (@selected_event_outside_regions example_rng [example_event_11]
              pt_nominal 0 example_event_11 (scalar f64_1)
              eq_refl eq_refl eq_refl) as [Hiff Hjet].
  assert ((0 ∉ @region_indices example_rng [example_event_11] pt_nominal
                               R4j1b)
          /\ (0 ∉ @region_indices example_rng [example_event_11] pt_nominal
                                  R4j2b)) as Hout.
  { apply Hiff. split; vm_compute; lia. }
  split; [exact Hout|]. exact (Hjet (proj1 Hout) (proj2 Hout)).
Defined.

Lemma example_own_objects :
  exists l ps ck,
    selected_electrons example_event_7 ++ selected_muons example_event_7
    = [l]
    /\ event_perms example_dict
         (selected_jets example_event_7 (scalar f64_1)) = Some ps
    /\ mapM (pick (selected_jets example_event_7 (scalar f64_1)) l) ps
       = Some ck
    /\ example_region_counts !! 0 = Some (length ps)
    /\ unflatten (nd_data example_region_features) example_region_counts
         !! 0
       = Some (@feature_row example_kinematics <$> ck).
Proof.
  exact (@region_features_use_own_objects example_kinematics example_rng
           example_dict example_events pt_nominal example_region_features
           example_region_counts eq_refl 0 0 example_event_7 (scalar f64_1)
           eq_refl eq_refl eq_refl).
Defined.

Lemma example_counters_meaning :
  is_Some (@process_counters example_kinematics example_rng
             example_classifier false example_dict "ttbar" "nominal"
             example_events)
  /\ nevents example_counters = length example_events
  /\ nevents_reduced example_counters
     = length (@region_indices example_rng example_events
                               (last_pt_var "nominal") R4j2b)
  /\ nevents_reduced example_counters <= nevents example_counters.
Proof.
  destruct (@process_counters_meaning example_kinematics example_rng
              example_classifier false example_dict "ttbar" "nominal"
              example_events) as (Hiff & _ & Hc).
  split; [apply Hiff; exists example_fills; reflexivity|].
  destruct (Hc example_counters eq_refl) as (Hn & Hr & Hle & _).
  split; [exact Hn|]. split; [exact Hr|exact Hle].
Defined.

End MoreWitnesses.
